(** * elf-owl: file copier and pull-request creator

    A shallow embedding of the two Go sources of the repository
    ([src/main.go] and the earlier variant [src/unnamed/part_000]) together
    with the parts of the Go standard library they call, followed by the
    theorems that settle the claims of the specification and by further
    properties of the code.

    Go strings are byte sequences; they are modelled by [string] (one
    [ascii] per byte) and, inside the library functions, by [list ascii]. *)

From Stdlib Require Import String Ascii List ZArith Lia Bool Arith.
From Stdlib Require Import Permutation Sorted.
Import ListNotations.

Local Open Scope string_scope.
Local Open Scope list_scope.

(** ** Bytes and strings *)

Definition bytes (s : string) : list ascii := list_ascii_of_string s.
Definition str (l : list ascii) : string := string_of_list_ascii l.

Definition byte_val (c : ascii) : Z := Z.of_N (N_of_ascii c).

Definition ascii_of_Z (z : Z) : ascii := ascii_of_N (Z.to_N z).

Fixpoint dropWhile {A} (f : A -> bool) (l : list A) : list A :=
  match l with
  | [] => []
  | x :: t => if f x then dropWhile f t else l
  end.

Fixpoint takeWhile {A} (f : A -> bool) (l : list A) : list A :=
  match l with
  | [] => []
  | x :: t => if f x then x :: takeWhile f t else []
  end.

Definition list_ascii_eqb (a b : list ascii) : bool :=
  String.eqb (str a) (str b).

(** ** Package unicode/utf8 *)

Module utf8.

Local Open Scope Z_scope.

Definition RuneError : Z := 0xFFFD.
Definition RuneSelf : Z := 0x80.
Definition MaxRune : Z := 0x10FFFF.
Definition UTFMax : Z := 4.

Definition surrogateMin : Z := 0xD800.
Definition surrogateMax : Z := 0xDFFF.

Definition t2 : Z := 0xC0.
Definition t3 : Z := 0xE0.
Definition t4 : Z := 0xF0.
Definition tx : Z := 0x80.

Definition maskx : Z := 0x3F.
Definition mask2 : Z := 0x1F.
Definition mask3 : Z := 0x0F.
Definition mask4 : Z := 0x07.

Definition rune1Max : Z := 0x7F.
Definition rune2Max : Z := 0x7FF.
Definition rune3Max : Z := 0xFFFF.

Definition locb : Z := 0x80.
Definition hicb : Z := 0xBF.

(* Entries of the table [first]. *)
Definition xx : Z := 0xF1.
Definition as_ : Z := 0xF0.
Definition s1 : Z := 0x02.
Definition s2 : Z := 0x13.
Definition s3 : Z := 0x03.
Definition s4 : Z := 0x23.
Definition s5 : Z := 0x34.
Definition s6 : Z := 0x04.
Definition s7 : Z := 0x44.

(** The table [first]: information about the first byte of an encoding. *)
Definition first (b : Z) : Z :=
  if b <? 0x80 then as_
  else if b <? 0xC2 then xx
  else if b <? 0xE0 then s1
  else if b =? 0xE0 then s2
  else if b <? 0xED then s3
  else if b =? 0xED then s4
  else if b <? 0xF0 then s3
  else if b =? 0xF0 then s5
  else if b <? 0xF4 then s6
  else if b =? 0xF4 then s7
  else xx.

(** The table [acceptRanges]: (lo, hi) of the second byte. *)
Definition acceptRanges (i : Z) : Z * Z :=
  if i =? 1 then (0xA0, hicb)
  else if i =? 2 then (locb, 0x9F)
  else if i =? 3 then (0x90, hicb)
  else if i =? 4 then (locb, 0x8F)
  else (locb, hicb).

Definition is_cont (b : Z) : bool := (locb <=? b) && (b <=? hicb).

(** The runes that two, three and four bytes encode. *)
Definition rune2 (p0 b1 : Z) : Z :=
  Z.lor (Z.shiftl (Z.land p0 mask2) 6) (Z.land b1 maskx).

Definition rune3 (p0 b1 b2 : Z) : Z :=
  Z.lor (Z.lor (Z.shiftl (Z.land p0 mask3) 12) (Z.shiftl (Z.land b1 maskx) 6))
        (Z.land b2 maskx).

Definition rune4 (p0 b1 b2 b3 : Z) : Z :=
  Z.lor (Z.lor (Z.lor (Z.shiftl (Z.land p0 mask4) 18)
                      (Z.shiftl (Z.land b1 maskx) 12))
               (Z.shiftl (Z.land b2 maskx) 6))
        (Z.land b3 maskx).

(** The second byte is outside the range that the first byte accepts. *)
Definition rejected (accept : Z * Z) (b1 : Z) : bool :=
  (b1 <? fst accept) || (snd accept <? b1).

(** [utf8.DecodeRuneInString]: the first rune of [p] and its width. *)
Definition DecodeRune (p : list ascii) : Z * nat :=
  match p with
  | [] => (RuneError, 0%nat)
  | c0 :: t =>
    let p0 := byte_val c0 in
    let x := first p0 in
    if as_ <=? x then
      ((if Z.testbit x 0 then RuneError else p0), 1%nat)
    else
      let sz := Z.to_nat (Z.land x 7) in
      let accept := acceptRanges (Z.shiftr x 4) in
      if (length p <? sz)%nat then (RuneError, 1%nat)
      else
        match t with
        | [] => (RuneError, 1%nat)
        | c1 :: t1 =>
          let b1 := byte_val c1 in
          if rejected accept b1 then (RuneError, 1%nat)
          else if (sz <=? 2)%nat then (rune2 p0 b1, 2%nat)
          else
            match t1 with
            | [] => (RuneError, 1%nat)
            | c2 :: t2 =>
              let b2 := byte_val c2 in
              if negb (is_cont b2) then (RuneError, 1%nat)
              else if (sz <=? 3)%nat then (rune3 p0 b1 b2, 3%nat)
              else
                match t2 with
                | [] => (RuneError, 1%nat)
                | c3 :: _ =>
                  let b3 := byte_val c3 in
                  if negb (is_cont b3) then (RuneError, 1%nat)
                  else (rune4 p0 b1 b2 b3, 4%nat)
                end
            end
        end
  end.

(** [utf8.RuneStart]: [b] is not a continuation byte. *)
Definition RuneStart (b : Z) : bool := negb (Z.land b 0xC0 =? 0x80).

(** The backward loop of [DecodeLastRuneInString]:
    [for start--; start >= lim; start-- { if RuneStart(p[start]) { break } }]. *)
Fixpoint scan_start (p : list ascii) (lim start : Z) (fuel : nat) : Z :=
  match fuel with
  | O => start
  | S k =>
    if start <? lim then start
    else if RuneStart (byte_val (nth (Z.to_nat start) p zero)) then start
    else scan_start p lim (start - 1) k
  end.

(** [utf8.DecodeLastRuneInString]. *)
Definition DecodeLastRune (p : list ascii) : Z * nat :=
  let e := Z.of_nat (length p) in
  if e =? 0 then (RuneError, 0%nat)
  else
    let r := byte_val (nth (Z.to_nat (e - 1)) p zero) in
    if r <? RuneSelf then (r, 1%nat)
    else
      let lim := Z.max 0 (e - UTFMax) in
      let start := scan_start p lim (e - 2) 4 in
      let start := if start <? 0 then 0 else start in
      let '(r, size) := DecodeRune (skipn (Z.to_nat start) p) in
      if negb (start + Z.of_nat size =? e) then (RuneError, 1%nat)
      else (r, size).

(** [utf8.AppendRune] on an empty buffer: the encoding of a rune. *)
Definition EncodeRune (r : Z) : list ascii :=
  let enc3 (r : Z) :=
    [ascii_of_Z (Z.lor t3 (Z.shiftr r 12));
     ascii_of_Z (Z.lor tx (Z.land (Z.shiftr r 6) maskx));
     ascii_of_Z (Z.lor tx (Z.land r maskx))] in
  if (0 <=? r) && (r <=? rune1Max) then [ascii_of_Z r]
  else if (0 <=? r) && (r <=? rune2Max) then
    [ascii_of_Z (Z.lor t2 (Z.shiftr r 6));
     ascii_of_Z (Z.lor tx (Z.land r maskx))]
  else if (r <? 0) || (MaxRune <? r)
          || ((surrogateMin <=? r) && (r <=? surrogateMax)) then
    enc3 RuneError
  else if r <=? rune3Max then enc3 r
  else
    [ascii_of_Z (Z.lor t4 (Z.shiftr r 18));
     ascii_of_Z (Z.lor tx (Z.land (Z.shiftr r 12) maskx));
     ascii_of_Z (Z.lor tx (Z.land (Z.shiftr r 6) maskx));
     ascii_of_Z (Z.lor tx (Z.land r maskx))].

(** The runes of a string in order, as [for _, c := range s] yields them.
    Every step consumes at least one byte, so [length p] steps suffice. *)
Fixpoint runes_fuel (fuel : nat) (p : list ascii) : list Z :=
  match fuel with
  | O => []
  | S k =>
    match p with
    | [] => []
    | _ :: _ =>
      let '(r, size) := DecodeRune p in
      r :: runes_fuel k (skipn size p)
    end
  end.

Definition runes (p : list ascii) : list Z := runes_fuel (length p) p.

End utf8.

(** ** Package unicode *)

Module unicode.

Local Open Scope Z_scope.

Definition MaxLatin1 : Z := 0xFF.

(** [unicode.IsSpace]: the Latin-1 spaces are listed in the function, the
    others are the ranges of the table [White_Space] above Latin-1. *)
Definition IsSpace (r : Z) : bool :=
  if (0 <=? r) && (r <=? MaxLatin1) then
    (r =? 9) || (r =? 10) || (r =? 11) || (r =? 12) || (r =? 13)
    || (r =? 32) || (r =? 0x85) || (r =? 0xA0)
  else
    (r =? 0x1680) || ((0x2000 <=? r) && (r <=? 0x200A))
    || (r =? 0x2028) || (r =? 0x2029) || (r =? 0x202F)
    || (r =? 0x205F) || (r =? 0x3000).

End unicode.

(** ** Package strings *)

Module strings.

Local Open Scope Z_scope.

(** [strings.HasSuffix]. *)
Definition HasSuffix (s suffix : string) : bool :=
  let ls := bytes s in
  let lx := bytes suffix in
  (length lx <=? length ls)%nat
  && list_ascii_eqb (skipn (length ls - length lx) ls) lx.

(** [strings.TrimSuffix]. *)
Definition TrimSuffix (s suffix : string) : string :=
  if HasSuffix s suffix then
    str (firstn (length (bytes s) - length (bytes suffix)) (bytes s))
  else s.

(** [strings.Map]: every rune [c] of [s] is replaced by the encoding of
    [mapping c], and dropped when [mapping c] is negative. *)
Definition Map (mapping : Z -> Z) (s : string) : string :=
  str (concat (map (fun c => let r := mapping c in
                             if r <? 0 then [] else utf8.EncodeRune r)
                   (utf8.runes (bytes s)))).

(** [indexFunc]: the byte index of the first rune [r] with [f r = truth],
    or [-1]. *)
Fixpoint indexFunc_from (fuel : nat) (f : Z -> bool) (truth : bool)
         (p : list ascii) (i : Z) : Z :=
  match fuel with
  | O => -1
  | S k =>
    match p with
    | [] => -1
    | _ :: _ =>
      let '(r, size) := utf8.DecodeRune p in
      if Bool.eqb (f r) truth then i
      else indexFunc_from k f truth (skipn size p) (i + Z.of_nat size)
    end
  end.

Definition indexFunc (s : list ascii) (f : Z -> bool) (truth : bool) : Z :=
  indexFunc_from (length s) f truth s 0.

(** [lastIndexFunc]: the loop
    [for i := len(s); i > 0; { r, size := DecodeLastRune(s[0:i]); i -= size;
       if f(r) == truth { return i } }; return -1]. *)
Fixpoint lastIndexFunc_from (fuel : nat) (f : Z -> bool) (truth : bool)
         (s : list ascii) (i : Z) : Z :=
  match fuel with
  | O => -1
  | S k =>
    if i <=? 0 then -1
    else
      let '(r, size) := utf8.DecodeLastRune (firstn (Z.to_nat i) s) in
      let i := i - Z.of_nat size in
      if Bool.eqb (f r) truth then i
      else lastIndexFunc_from k f truth s i
  end.

Definition lastIndexFunc (s : list ascii) (f : Z -> bool) (truth : bool) : Z :=
  lastIndexFunc_from (length s) f truth s (Z.of_nat (length s)).

(** [strings.TrimLeftFunc]. *)
Definition TrimLeftFunc (s : list ascii) (f : Z -> bool) : list ascii :=
  let i := indexFunc s f false in
  if i =? -1 then [] else skipn (Z.to_nat i) s.

(** [strings.TrimRightFunc]. *)
Definition TrimRightFunc (s : list ascii) (f : Z -> bool) : list ascii :=
  let i := lastIndexFunc s f false in
  let i :=
    if (0 <=? i) && (utf8.RuneSelf <=? byte_val (nth (Z.to_nat i) s zero))
    then i + Z.of_nat (snd (utf8.DecodeRune (skipn (Z.to_nat i) s)))
    else i + 1 in
  firstn (Z.to_nat i) s.

(** [strings.TrimFunc]. *)
Definition TrimFunc (s : list ascii) (f : Z -> bool) : list ascii :=
  TrimRightFunc (TrimLeftFunc s f) f.

(** [strings.TrimSpace]: leading and trailing white space, as defined by
    Unicode, removed. *)
Definition TrimSpace (s : string) : string :=
  str (TrimFunc (bytes s) unicode.IsSpace).

End strings.

(** ** Go error values *)

(** Termination of a child process ([os.ProcessState]). *)
Inductive ProcessState :=
| Exited (code : Z)
| Signaled (sig : string).

(** The error values that the program can tell apart: those for which
    [os.IsNotExist] holds, [*exec.ExitError], and every other error.  A value
    of the Go interface type [error] is an [option error]; [None] is [nil]. *)
Inductive error :=
| ErrNotExist (text : string)
| ExitError (st : ProcessState)
| errorString (text : string).

(** Decimal digits of a non-negative integer, most significant first. *)
Fixpoint decimal (fuel : nat) (u : Z) (acc : list ascii) : list ascii :=
  match fuel with
  | O => acc
  | S k =>
    let acc' := ascii_of_Z (48 + u mod 10) :: acc in
    if (u / 10 =? 0)%Z then acc' else decimal k (u / 10)%Z acc'
  end.

Definition digits (u : Z) : list ascii :=
  decimal (S (Z.to_nat (Z.log2 u))) u [].

(** [strconv.Itoa]. *)
Definition Itoa (x : Z) : string :=
  if (x <? 0)%Z then "-" ++ str (digits (- x)) else str (digits x).

Definition Success (st : ProcessState) : bool :=
  match st with
  | Exited c => (c =? 0)%Z
  | Signaled _ => false
  end.

(** [ProcessState.ExitCode]: [-1] when the process was ended by a signal. *)
Definition ExitCode (st : ProcessState) : Z :=
  match st with
  | Exited c => c
  | Signaled _ => (-1)%Z
  end.

(** The method [Error()]. *)
Definition Error (e : error) : string :=
  match e with
  | ErrNotExist t => t
  | ExitError (Exited c) => "exit status " ++ Itoa c
  | ExitError (Signaled s) => "signal: " ++ s
  | errorString t => t
  end.

(** [os.IsNotExist]. *)
Definition IsNotExist (err : option error) : bool :=
  match err with
  | Some (ErrNotExist _) => true
  | _ => false
  end.

(** [fmt.Errorf(prefix + ": %v", err)]. *)
Definition Errorf (prefix : string) (err : error) : error :=
  errorString (prefix ++ ": " ++ Error err).

(** ** Package path/filepath (Unix) *)

Module filepath.

Definition Separator : ascii := "/"%char.

Definition IsPathSeparator (c : ascii) : bool := Ascii.eqb c Separator.

(** The elements of a path: the maximal runs of bytes between separators
    (a path with [n] separators has [n + 1] elements, some maybe empty). *)
Fixpoint split (p : list ascii) : list (list ascii) :=
  match p with
  | [] => [[]]
  | c :: t =>
    if IsPathSeparator c then [] :: split t
    else match split t with
         | [] => [[c]]
         | e :: es => (c :: e) :: es
         end
  end.

Fixpoint join (es : list (list ascii)) : list ascii :=
  match es with
  | [] => []
  | [e] => e
  | e :: rest => e ++ Separator :: join rest
  end.

Definition dot : list ascii := ["."%char].
Definition dotdot : list ascii := ["."%char; "."%char].

Definition is_rooted (p : list ascii) : bool :=
  match p with
  | c :: _ => IsPathSeparator c
  | [] => false
  end.

(** One element read by [Clean]; [out] holds the elements written so far,
    the last one first.  Empty and [.] elements are skipped; [..] removes
    the element before it when there is one that is not [..] itself, is
    dropped at the root, and is kept otherwise. *)
Definition clean_step (rooted : bool) (out : list (list ascii))
           (e : list ascii) : list (list ascii) :=
  if list_ascii_eqb e [] || list_ascii_eqb e dot then out
  else if list_ascii_eqb e dotdot then
    match out with
    | top :: rest =>
      if list_ascii_eqb top dotdot then e :: out else rest
    | [] => if rooted then [] else [e]
    end
  else e :: out.

Definition clean_elems (rooted : bool) (es : list (list ascii))
  : list (list ascii) :=
  rev (fold_left (clean_step rooted) es []).

Definition Clean_bytes (p : list ascii) : list ascii :=
  match p with
  | [] => dot
  | _ =>
    let rooted := is_rooted p in
    let out := join (clean_elems rooted (split p)) in
    if rooted then Separator :: out
    else match out with
         | [] => dot
         | _ => out
         end
  end.

(** [filepath.Clean]: the shortest path equivalent to [path] by purely
    lexical processing. *)
Definition Clean (path : string) : string := str (Clean_bytes (bytes path)).

(** [filepath.Join] of two elements: empty elements are ignored and the
    result is cleaned; it is empty when both elements are. *)
Definition Join (a b : string) : string :=
  if String.eqb a "" then
    if String.eqb b "" then "" else Clean b
  else Clean (a ++ "/" ++ b).

(** [filepath.IsAbs]. *)
Definition IsAbs (path : string) : bool := is_rooted (bytes path).

(** [filepath.Base]: the last element of the path, trailing separators
    removed before it is extracted. *)
Definition Base (path : string) : string :=
  if String.eqb path "" then "."
  else
    let r := dropWhile IsPathSeparator (rev (bytes path)) in
    let e := rev (takeWhile (fun c => negb (IsPathSeparator c)) r) in
    match e with
    | [] => "/"
    | _ => str e
    end.

(** The loop of [filepath.Ext], from the end of the path towards its
    beginning; [acc] is the part of the path already passed. *)
Fixpoint ext_scan (r : list ascii) (acc : list ascii) : list ascii :=
  match r with
  | [] => []
  | c :: r' =>
    if IsPathSeparator c then []
    else if Ascii.eqb c "."%char then c :: acc
    else ext_scan r' (c :: acc)
  end.

(** [filepath.Ext]: the suffix beginning at the final dot in the final
    element of the path; empty if there is no dot. *)
Definition Ext (path : string) : string :=
  str (ext_scan (rev (bytes path)) []).

(** [filepath.Dir]: all but the last element of the path, cleaned. *)
Definition Dir (path : string) : string :=
  let r := dropWhile (fun c => negb (IsPathSeparator c)) (rev (bytes path)) in
  Clean (str (rev r)).

(** The elements of a cleaned path that [Rel] compares. *)
Definition rel_elems (p : list ascii) : list (list ascii) :=
  filter (fun e => negb (list_ascii_eqb e [])) (split p).

Fixpoint strip_common (b t : list (list ascii))
  : list (list ascii) * list (list ascii) :=
  match b, t with
  | eb :: b', et :: t' =>
    if list_ascii_eqb eb et then strip_common b' t' else (b, t)
  | _, _ => (b, t)
  end.

(** [filepath.Rel]: a relative path that is lexically equivalent to
    [targpath] when joined to [basepath]. *)
Definition Rel (basepath targpath : string) : string + error :=
  let base := Clean_bytes (bytes basepath) in
  let targ := Clean_bytes (bytes targpath) in
  let fail := inr (errorString ("Rel: can't make " ++ targpath
                                ++ " relative to " ++ basepath)) in
  if list_ascii_eqb targ base then inl "."
  else
    let base := if list_ascii_eqb base dot then [] else base in
    if negb (Bool.eqb (is_rooted base) (is_rooted targ)) then fail
    else
      let '(b, t) := strip_common (rel_elems base) (rel_elems targ) in
      match b with
      | [] => inl (str (join t))
      | e :: _ =>
        if list_ascii_eqb e dotdot then fail
        else inl (str (join (map (fun _ => dotdot) b ++ t)))
      end.

End filepath.

(** ** Package time: the layout ["06-01-02"] *)

(** The calendar date of a [time.Time]. *)
Record Time := { Year : Z; Month : Z; Day : Z }.

Module time.

Local Open Scope Z_scope.

(** [appendInt]: the decimal form of [x], zero-padded to [width]. *)
Definition appendInt (x : Z) (width : nat) : list ascii :=
  let ds := digits (Z.abs x) in
  (if x <? 0 then ["-"%char] else [])
    ++ repeat "0"%char (width - length ds) ++ ds.

(** [t.Format("06-01-02")]: [stdYear], [stdZeroMonth] and [stdZeroDay]
    separated by the literal dashes of the layout. *)
Definition Format_06_01_02 (t : Time) : string :=
  str (appendInt (Z.abs (Year t) mod 100) 2
       ++ "-"%char :: appendInt (Month t) 2
       ++ "-"%char :: appendInt (Day t) 2).

(** What [time.Now()] can return: a year of the common era, a month and a
    day of the calendar. *)
Definition valid (t : Time) : Prop :=
  0 <= Year t /\ 1 <= Month t <= 12 /\ 1 <= Day t <= 31.

End time.

(** ** Package bufio: [Scanner] with the split function [ScanLines] *)

Module bufio.

Definition LF : ascii := ascii_of_nat 10.
Definition CR : ascii := ascii_of_nat 13.

(** [dropCR]: a trailing carriage return is dropped. *)
Definition dropCR (data : list ascii) : list ascii :=
  match rev data with
  | c :: r => if Ascii.eqb c CR then rev r else data
  | [] => data
  end.

(** [bufio.MaxScanTokenSize]: the size of the largest buffer of a
    scanner. *)
Definition MaxScanTokenSize : Z := 64 * 1024.

(** The first call of [Scan] on a stream that delivers [data] and then
    ends: [None] when [Scan] returns false; otherwise the token that
    [Text] returns, the bytes before the first line feed (all of them when
    there is none) without a trailing carriage return.  Lines are taken to
    fit the buffer of the scanner: they are shorter than
    [MaxScanTokenSize]. *)
Definition Scan (data : string) : option string :=
  match bytes data with
  | [] => None
  | l => Some (str (dropCR (takeWhile (fun c => negb (Ascii.eqb c LF)) l)))
  end.

End bufio.

Definition nl : string := String bufio.LF "".

(** ** The file system seen by [filepath.Walk] *)

(** The kinds of entries that are not directories. *)
Inductive FileKind :=
| Regular
| Symlink
| NamedPipe
| Socket
| Device.

(** What [Lstat] reports about an entry ([os.FileInfo]); a symbolic link
    is reported as such, not as what it points to. *)
Inductive FileInfo :=
| InfoDir
| InfoFile (k : FileKind).

(** [info.IsDir()]. *)
Definition IsDir (info : FileInfo) : bool :=
  match info with
  | InfoDir => true
  | InfoFile _ => false
  end.

(** What is found at a path: nothing that [Lstat] can report ([NErr]), an
    entry that is not a directory, or a directory with the error of reading
    it, if any, and its entries in the order the system lists them. *)
#[warnings="-register-all"]
Inductive Node :=
| NErr (e : error)
| NFile (k : FileKind)
| NDir (rd : option error) (entries : list (string * Node)).

(** Induction on trees, with the hypothesis for every entry of a
    directory. *)
Section Node_induction.

Variable P : Node -> Prop.
Hypothesis P_err : forall e, P (NErr e).
Hypothesis P_file : forall k, P (NFile k).
Hypothesis P_dir :
  forall rd entries, Forall (fun e => P (snd e)) entries -> P (NDir rd entries).

Fixpoint Node_tree_ind (n : Node) : P n :=
  match n with
  | NErr e => P_err e
  | NFile k => P_file k
  | NDir rd entries =>
    P_dir rd entries
          ((fix all (l : list (string * Node)) : Forall (fun e => P (snd e)) l :=
              match l with
              | [] => Forall_nil _
              | e :: t => Forall_cons e (Node_tree_ind (snd e)) (all t)
              end) entries)
  end.

End Node_induction.

Fixpoint insert_entry (e : string * Node) (l : list (string * Node))
  : list (string * Node) :=
  match l with
  | [] => [e]
  | x :: t =>
    if String.leb (fst e) (fst x) then e :: l else x :: insert_entry e t
  end.

(** [readDirNames] returns the names of a directory sorted ([slices.Sort],
    the order of the bytes); the entries are sorted by their names. *)
Definition sort_entries (l : list (string * Node)) : list (string * Node) :=
  fold_right insert_entry [] l.

(** The tree with every listing in the order [readDirNames] returns it.
    The walk reads a directory when it visits it; since reading has no other
    effect, the embedding sorts all listings before the walk, which then
    visits the same entries in the same order. *)
Fixpoint sort_tree (n : Node) : Node :=
  match n with
  | NDir rd entries =>
    NDir rd (sort_entries (map (fun e => (fst e, sort_tree (snd e))) entries))
  | _ => n
  end.

Section Walk.

(** The state that the callback closes over, and the callback:
    [fn path info err], where [info] is [None] for a nil [FileInfo]. *)
Variable S : Type.
Variable fn : string -> option FileInfo -> option error -> S -> S * option error.

(** [walk] of path/filepath on a tree whose listings are sorted.  The
    node is what [lstat] finds at [path]: for a failed [lstat] the callback
    is called with the error; for a directory it is called with the error of
    [readDirNames], and the names are visited when neither failed.  The
    callback of this program never returns [SkipDir] or [SkipAll], so
    whatever error it returns ends the walk. *)
Fixpoint walk (path : string) (n : Node) (s : S) {struct n} : S * option error :=
  match n with
  | NErr e => fn path None (Some e) s
  | NFile k => fn path (Some (InfoFile k)) None s
  | NDir rd entries =>
    let '(s1, err1) := fn path (Some InfoDir) rd s in
    match rd, err1 with
    | None, None =>
      (fix walk_names (es : list (string * Node)) (s : S) : S * option error :=
         match es with
         | [] => (s, None)
         | (name, child) :: es' =>
           let filename := filepath.Join path name in
           match walk filename child s with
           | (s', Some err) => (s', Some err)
           | (s', None) => walk_names es' s'
           end
         end) entries s1
    | _, _ => (s1, err1)
    end
  end.

(** [filepath.Walk root fn], with [tree] what is found at [root]. *)
Definition Walk (root : string) (tree : Node) (s : S) : S * option error :=
  walk root (sort_tree tree) s.

End Walk.

Arguments walk {S} fn path n s.
Arguments Walk {S} fn root tree s.

(** ** The process and its environment *)

(** What the process does to the outside world, in the order it does it. *)
Inductive Event :=
| Print (text : string)                         (* fmt.Printf, fmt.Println *)
| Usage                                         (* flag.Usage() *)
| Start (name : string) (args : list string)    (* cmd.Start() *)
| Stdin (data : string)                         (* written to the child *)
| Run (name : string) (args : list string)      (* cmd.Run() *)
| Chdir (dir : string)                          (* os.Chdir *)
| Open (name : string)                          (* os.Open *)
| MkdirAll (dir : string)                       (* os.MkdirAll *)
| Create (name : string)                        (* os.Create *)
| Copy (dst src : string).                      (* io.Copy *)

(** How one run of the fuzzy finder goes: the errors of creating the pipes
    and of starting the process, if any, what the process writes to its
    standard output, and what [Process.Wait] reports. *)
Record FzfRun := {
  stdin_pipe : option error;
  stdout_pipe : option error;
  start : option error;
  stdout : string;
  wait : error + ProcessState
}.

(** Everything the program reads from outside. *)
Record Env := {
  flag_search : string;
  flag_target : string;
  flag_branch : string;
  os_Stat : string -> option error;
  os_Getwd : string + error;
  exec_LookPath : string -> option error;
  (** what [Lstat] and [readDirNames] find at and below a path *)
  lstat : string -> Node;
  fzf : list string -> FzfRun;
  os_Open : string -> option error;
  os_MkdirAll : string -> option error;
  os_Create : string -> option error;
  io_Copy : string -> string -> option error;
  os_Chdir : string -> option error;
  (** the result of the [n]-th call of [cmd.Run()], counted from 0 *)
  cmd_Run : nat -> string -> list string -> option error;
  time_Now : Time;
  (** the source behind the [n]-th call of [rand.Intn], counted from 0 *)
  rand_src : nat -> nat
}.

Inductive Outcome (A : Type) :=
| Return (a : A)
| Exit (code : Z).

Arguments Return {A} a.
Arguments Exit {A} code.

(** A computation of the process: it extends the log of events and either
    returns a value or ends the process ([os.Exit]). *)
Definition Prog (A : Type) : Type := list Event -> Outcome A * list Event.

Definition ret {A} (a : A) : Prog A := fun log => (Return a, log).

Definition bind {A B} (m : Prog A) (k : A -> Prog B) : Prog B :=
  fun log =>
    match m log with
    | (Return a, log') => k a log'
    | (Exit c, log') => (Exit c, log')
    end.

Notation "x <- m ;; k" := (bind m (fun x => k))
  (at level 61, m at next level, right associativity).
Notation "m ;;; k" := (bind m (fun _ => k))
  (at level 61, right associativity).

Definition emit (e : Event) : Prog unit := fun log => (Return tt, log ++ [e]).

Definition os_Exit {A} (code : Z) : Prog A := fun log => (Exit code, log).

Definition Println (s : string) : Prog unit := emit (Print (s ++ nl)).
Definition Printf (s : string) : Prog unit := emit (Print s).

Definition is_run (e : Event) : bool :=
  match e with
  | Run _ _ => true
  | _ => false
  end.

(** The exit status of the process. *)
Definition exit_code {A} (o : Outcome A) : Z :=
  match o with
  | Return _ => 0%Z
  | Exit c => c
  end.

(** ** The functions that both sources share *)

(** [runCommand]: the output of the child goes to the terminal; the error
    of [cmd.Run()] is returned. *)
Definition runCommand (env : Env) (name : string) (args : list string)
  : Prog (option error) :=
  fun log =>
    (Return (cmd_Run env (length (filter is_run log)) name args),
     log ++ [Run name args]).

(** The callback that [findFiles] passes to [filepath.Walk]; it closes
    over [dir] and appends to [files]. *)
Definition findFiles_fn (dir : string) (path : string) (info : option FileInfo)
           (err : option error) (files : list string)
  : list string * option error :=
  match err with
  | Some e => (files, Some e)
  | None =>
    match info with
    | Some info =>
      if negb (IsDir info) then
        match filepath.Rel dir path with
        | inr e => (files, Some e)
        | inl relPath => (files ++ [relPath], None)
        end
      else (files, None)
    | None => (files, None)
    end
  end.

(** [findFiles]: both results of the Go function, the slice and the
    error. *)
Definition findFiles (env : Env) (dir : string) : list string * option error :=
  Walk (findFiles_fn dir) dir (lstat env dir) [].

(** What the goroutine writes to the finder: one line per file. *)
Definition candidate_lines (files : list string) : string :=
  String.concat "" (map (fun f => (f ++ nl)%string) files).

(** [cmd.Wait()]: the error of waiting, or an [ExitError] for a process
    that did not succeed. *)
Definition cmd_Wait (w : error + ProcessState) : option error :=
  match w with
  | inl e => Some e
  | inr st => if Success st then None else Some (ExitError st)
  end.

(** [selectFileWithFzf]. *)
Definition selectFileWithFzf (env : Env) (files : list string)
  : Prog (string * option error) :=
  let cmd := fzf env files in
  match stdin_pipe cmd with
  | Some err => ret ("", Some (Errorf "failed to create stdin pipe" err))
  | None =>
    match stdout_pipe cmd with
    | Some err => ret ("", Some (Errorf "failed to create stdout pipe" err))
    | None =>
      emit (Start "fzf" ["--height"; "40%"]) ;;;
      match start cmd with
      | Some err => ret ("", Some (Errorf "failed to start fzf" err))
      | None =>
        emit (Stdin (candidate_lines files)) ;;;
        let selected :=
          match bufio.Scan (stdout cmd) with
          | Some text => text
          | None => ""
          end in
        match cmd_Wait (wait cmd) with
        | Some err =>
          match err with
          | ExitError st =>
            if (ExitCode st =? 130)%Z
            then ret ("", Some (errorString "file selection cancelled"))
            else ret ("", Some (Errorf "fzf failed" err))
          | _ => ret ("", Some (Errorf "fzf failed" err))
          end
        | None => ret (strings.TrimSpace selected, None)
        end
      end
    end
  end.

Definition is_alnum (r : Z) : bool :=
  ((byte_val "a" <=? r) && (r <=? byte_val "z")
   || (byte_val "A" <=? r) && (r <=? byte_val "Z")
   || (byte_val "0" <=? r) && (r <=? byte_val "9"))%Z.

(** The function that [generateBranchName] maps over the base name. *)
Definition sanitize (r : Z) : Z :=
  if is_alnum r then r else byte_val "-".

(** [generateBranchName], with the value of [time.Now()] as a parameter. *)
Definition generateBranchName (now : Time) (filename : string) : string :=
  let date := time.Format_06_01_02 now in
  let base := strings.TrimSuffix (filepath.Base filename) (filepath.Ext filename) in
  let base := strings.Map sanitize base in
  base ++ "-" ++ date.

(** [copyFile]. *)
Definition copyFile (env : Env) (src dst : string) : Prog (option error) :=
  emit (Open src) ;;;
  match os_Open env src with
  | Some err => ret (Some (Errorf "failed to open source file" err))
  | None =>
    emit (MkdirAll (filepath.Dir dst)) ;;;
    match os_MkdirAll env (filepath.Dir dst) with
    | Some err => ret (Some (Errorf "failed to create destination directory" err))
    | None =>
      emit (Create dst) ;;;
      match os_Create env dst with
      | Some err => ret (Some (Errorf "failed to create destination file" err))
      | None =>
        emit (Copy dst src) ;;;
        match io_Copy env dst src with
        | Some err => ret (Some (Errorf "failed to copy file" err))
        | None => ret None
        end
      end
    end
  end.

(** [filepath.Abs]. *)
Definition Abs (env : Env) (path : string) : string + error :=
  if filepath.IsAbs path then inl (filepath.Clean path)
  else
    match os_Getwd env with
    | inr err => inr err
    | inl wd => inl (filepath.Join wd path)
    end.

(** The loop of [main] over [requiredCommands]: the first command that
    [exec.LookPath] does not find. *)
Fixpoint first_missing (env : Env) (cmds : list string) : option string :=
  match cmds with
  | [] => None
  | cmd :: rest =>
    match exec_LookPath env cmd with
    | Some _ => Some cmd
    | None => first_missing env rest
    end
  end.

Definition requiredCommands : list string := ["fzf"; "git"; "gh"].

Local Open Scope string_scope.

(** ** [src/main.go] *)

Module Main.

Definition happyEmojis : list string :=
  ["😊"; "😃"; "😄"; "🙂"; "😁"; "😎"].

Definition birdEmojis : list string :=
  ["🐧"; "🦉"; "🦅"; "🦆"; "🦢"; "🦜"; "🦚"; "🐤"; "🦃"; "🦅"; "🦢"; "🐦"; "🕊️"].

(** [rand.Intn n] at its [k]-th call: some index below [n]. *)
Definition rand_Intn (env : Env) (k n : nat) : nat := rand_src env k mod n.

(** [getRandomEmojis]: the generator is seeded from the clock, then one
    index is drawn for each list. *)
Definition getRandomEmojis (env : Env) : string * string :=
  (nth (rand_Intn env 0 (length happyEmojis)) happyEmojis "",
   nth (rand_Intn env 1 (length birdEmojis)) birdEmojis "").

(** The body of the pull request. *)
Definition pr_body (env : Env) : string :=
  let '(happy, bird) := getRandomEmojis env in
  "New finding! " ++ happy ++ bird.

(** [gitOperations]. *)
Definition gitOperations (env : Env) (branchName targetDir : string)
  : Prog (option error) :=
  emit (Chdir targetDir) ;;;
  match os_Chdir env targetDir with
  | Some err => ret (Some (Errorf "failed to change to target directory" err))
  | None =>
  err <- runCommand env "git" ["checkout"; "-b"; branchName] ;;
  match err with
  | Some err => ret (Some (Errorf "failed to create branch" err))
  | None =>
  err <- runCommand env "git" ["add"; "."] ;;
  match err with
  | Some err => ret (Some (Errorf "failed to stage changes" err))
  | None =>
  err <- runCommand env "git" ["commit"; "-m"; "Add " ++ branchName] ;;
  match err with
  | Some err => ret (Some (Errorf "failed to commit changes" err))
  | None =>
  err <- runCommand env "git" ["push"; "--set-upstream"; "origin"; branchName] ;;
  match err with
  | Some err => ret (Some (Errorf "failed to push changes" err))
  | None =>
  let '(happy, bird) := getRandomEmojis env in
  err <- runCommand env "gh" ["pr"; "create"; "--title"; branchName;
                              "--body"; "New finding! " ++ happy ++ bird] ;;
  match err with
  | Some err => ret (Some (Errorf "failed to create pr" err))
  | None =>
  err <- runCommand env "gh" ["browse"] ;;
  match err with
  | Some err => ret (Some (Errorf "failed to open browser" err))
  | None => ret None
  end end end end end end end.

(** The destination of the copy: only the base name of the selected file
    is used. *)
Definition destPath (absTargetDir selectedFile : string) : string :=
  filepath.Join absTargetDir (filepath.Base selectedFile).

(** The branch name of the run: the flag, or the generated name when the
    flag is empty. *)
Definition finalBranchName (env : Env) (selectedFile : string) : string :=
  if String.eqb (flag_branch env) ""
  then generateBranchName (time_Now env) selectedFile
  else flag_branch env.

(** [main], after [flag.Parse()]. *)
Definition main (env : Env) : Prog unit :=
  let searchDir := flag_search env in
  let targetDir := flag_target env in
  if String.eqb searchDir "" then
    Println "error: search directory is required" ;;; emit Usage ;;; os_Exit 1
  else if IsNotExist (os_Stat env searchDir) then
    Printf ("error: search directory '" ++ searchDir ++ "' does not exist" ++ nl) ;;;
    os_Exit 1
  else
  match Abs env searchDir with
  | inr err =>
    Printf ("error getting absolute path: " ++ Error err ++ nl) ;;; os_Exit 1
  | inl absSearchDir =>
  match Abs env targetDir with
  | inr err =>
    Printf ("error getting absolute path: " ++ Error err ++ nl) ;;; os_Exit 1
  | inl absTargetDir =>
  match first_missing env requiredCommands with
  | Some cmd =>
    Printf ("error: required command '" ++ cmd ++ "' not found in path" ++ nl) ;;;
    os_Exit 1
  | None =>
  match findFiles env absSearchDir with
  | (_, Some err) =>
    Printf ("error finding files: " ++ Error err ++ nl) ;;; os_Exit 1
  | (files, None) =>
  if (length files =? 0)%nat then
    Printf ("no files found in search directory '" ++ absSearchDir ++ "'" ++ nl) ;;;
    os_Exit 1
  else
  sel <- selectFileWithFzf env files ;;
  match sel with
  | (_, Some err) =>
    Printf ("error selecting file: " ++ Error err ++ nl) ;;; os_Exit 1
  | (selectedFile, None) =>
  if String.eqb selectedFile "" then
    Println "no file selected" ;;; os_Exit 1
  else
  let finalBranchName := finalBranchName env selectedFile in
  let sourcePath := filepath.Join absSearchDir selectedFile in
  let destPath := destPath absTargetDir selectedFile in
  Printf ("copying " ++ sourcePath ++ " to " ++ destPath ++ "..." ++ nl) ;;;
  err <- copyFile env sourcePath destPath ;;
  match err with
  | Some err =>
    Printf ("error copying file: " ++ Error err ++ nl) ;;; os_Exit 1
  | None =>
  Printf ("performing git operations..." ++ nl) ;;;
  err <- gitOperations env finalBranchName absTargetDir ;;
  match err with
  | Some err =>
    Printf ("error in git operations: " ++ Error err ++ nl) ;;; os_Exit 1
  | None =>
  Println "successfully completed all operations! 🎉"
  end end end end end end end.

End Main.

(** ** [src/unnamed/part_000], the earlier variant *)

Module Part000.

(** The body of the pull request is a constant. *)
Definition pr_body : string := "New finding! 🙂🦉".

(** [gitOperations]. *)
Definition gitOperations (env : Env) (branchName targetDir : string)
  : Prog (option error) :=
  emit (Chdir targetDir) ;;;
  match os_Chdir env targetDir with
  | Some err => ret (Some (Errorf "failed to change to target directory" err))
  | None =>
  err <- runCommand env "git" ["checkout"; "-b"; branchName] ;;
  match err with
  | Some err => ret (Some (Errorf "failed to create branch" err))
  | None =>
  err <- runCommand env "git" ["add"; "."] ;;
  match err with
  | Some err => ret (Some (Errorf "failed to stage changes" err))
  | None =>
  err <- runCommand env "git" ["commit"; "-m"; "Add " ++ branchName] ;;
  match err with
  | Some err => ret (Some (Errorf "failed to commit changes" err))
  | None =>
  err <- runCommand env "git" ["push"; "--set-upstream"; "origin"; branchName] ;;
  match err with
  | Some err => ret (Some (Errorf "failed to push changes" err))
  | None =>
  err <- runCommand env "gh" ["pr"; "create"; "--title"; branchName;
                              "--body"; "New finding! 🙂🦉"] ;;
  match err with
  | Some err => ret (Some (Errorf "failed to create PR" err))
  | None =>
  err <- runCommand env "gh" ["browse"] ;;
  match err with
  | Some err => ret (Some (Errorf "failed to open browser" err))
  | None => ret None
  end end end end end end end.

(** The destination of the copy: the selected path under the target. *)
Definition destPath (absTargetDir selectedFile : string) : string :=
  filepath.Join absTargetDir selectedFile.

Definition finalBranchName (env : Env) (selectedFile : string) : string :=
  if String.eqb (flag_branch env) ""
  then generateBranchName (time_Now env) selectedFile
  else flag_branch env.

(** [main], after [flag.Parse()]. *)
Definition main (env : Env) : Prog unit :=
  let searchDir := flag_search env in
  let targetDir := flag_target env in
  if String.eqb searchDir "" then
    Println "Error: search directory is required" ;;; emit Usage ;;; os_Exit 1
  else if IsNotExist (os_Stat env searchDir) then
    Printf ("Error: search directory '" ++ searchDir ++ "' does not exist" ++ nl) ;;;
    os_Exit 1
  else
  match Abs env searchDir with
  | inr err =>
    Printf ("Error getting absolute path: " ++ Error err ++ nl) ;;; os_Exit 1
  | inl absSearchDir =>
  match Abs env targetDir with
  | inr err =>
    Printf ("Error getting absolute path: " ++ Error err ++ nl) ;;; os_Exit 1
  | inl absTargetDir =>
  match first_missing env requiredCommands with
  | Some cmd =>
    Printf ("Error: required command '" ++ cmd ++ "' not found in PATH" ++ nl) ;;;
    os_Exit 1
  | None =>
  match findFiles env absSearchDir with
  | (_, Some err) =>
    Printf ("Error finding files: " ++ Error err ++ nl) ;;; os_Exit 1
  | (files, None) =>
  if (length files =? 0)%nat then
    Printf ("No files found in search directory '" ++ absSearchDir ++ "'" ++ nl) ;;;
    os_Exit 1
  else
  sel <- selectFileWithFzf env files ;;
  match sel with
  | (_, Some err) =>
    Printf ("Error selecting file: " ++ Error err ++ nl) ;;; os_Exit 1
  | (selectedFile, None) =>
  if String.eqb selectedFile "" then
    Println "No file selected" ;;; os_Exit 1
  else
  let finalBranchName := finalBranchName env selectedFile in
  let sourcePath := filepath.Join absSearchDir selectedFile in
  let destPath := destPath absTargetDir selectedFile in
  Printf ("Copying " ++ sourcePath ++ " to " ++ destPath ++ "..." ++ nl) ;;;
  err <- copyFile env sourcePath destPath ;;
  match err with
  | Some err =>
    Printf ("Error copying file: " ++ Error err ++ nl) ;;; os_Exit 1
  | None =>
  Printf ("Performing git operations..." ++ nl) ;;;
  err <- gitOperations env finalBranchName absTargetDir ;;
  match err with
  | Some err =>
    Printf ("Error in git operations: " ++ Error err ++ nl) ;;; os_Exit 1
  | None =>
  Println "Successfully completed all operations!"
  end end end end end end end.

End Part000.

(** * Vocabulary of the specification *)

(** ** The workflow as a list of steps *)

(** One step of the workflow: the command, its arguments, and the text
    that names the step in the error of [gitOperations]. *)
Definition Step : Type := string * list string * string.

Definition step_event (s : Step) : Event :=
  let '(name, args, _) := s in Run name args.

Definition step_label (s : Step) : string :=
  let '(_, _, label) := s in label.

(** The result of a step when it is the [n]-th invocation of the command
    runner. *)
Definition step_result (env : Env) (n : nat) (s : Step) : option error :=
  let '(name, args, _) := s in cmd_Run env n name args.

(** The six steps after the change of directory, for a branch and the body
    of the pull request; [pr] is the spelling of the fifth label. *)
Definition workflow (branch body pr : string) : list Step :=
  [("git", ["checkout"; "-b"; branch], "failed to create branch");
   ("git", ["add"; "."], "failed to stage changes");
   ("git", ["commit"; "-m"; "Add " ++ branch], "failed to commit changes");
   ("git", ["push"; "--set-upstream"; "origin"; branch], "failed to push changes");
   ("gh", ["pr"; "create"; "--title"; branch; "--body"; body], pr);
   ("gh", ["browse"], "failed to open browser")].

Definition Main_workflow (env : Env) (branch : string) : list Step :=
  workflow branch (Main.pr_body env) "failed to create pr".

Definition Part000_workflow (branch : string) : list Step :=
  workflow branch Part000.pr_body "failed to create PR".

(** A fail-fast pipeline: the steps run in order, and the first error ends
    it. *)
Fixpoint pipeline (env : Env) (steps : list Step) : Prog (option error) :=
  match steps with
  | [] => ret None
  | (name, args, label) :: rest =>
    err <- runCommand env name args ;;
    match err with
    | Some e => ret (Some (Errorf label e))
    | None => pipeline env rest
    end
  end.

(** The number of invocations of the command runner in a log. *)
Definition runs (log : list Event) : nat := length (filter is_run log).

(** The [k]-th step (counted from 1) is the first one that fails, with
    error [e], when the runner has been invoked [n0] times before. *)
Definition first_failure (env : Env) (n0 : nat) (steps : list Step)
           (k : nat) (e : error) : Prop :=
  (1 <= k <= length steps)%nat
  /\ (forall i s, (i < k - 1)%nat -> nth_error steps i = Some s ->
                  step_result env (n0 + i) s = None)
  /\ (exists s, nth_error steps (k - 1) = Some s
                /\ step_result env (n0 + (k - 1)) s = Some e).

(** Every step succeeds. *)
Definition all_succeed (env : Env) (n0 : nat) (steps : list Step) : Prop :=
  forall i s, nth_error steps i = Some s -> step_result env (n0 + i) s = None.

(** The label of the [k]-th step, counted from 1. *)
Definition failing_label (steps : list Step) (k : nat) : string :=
  step_label (nth (k - 1) steps ("", [], "")).

(** The events of a fully successful workflow, in order. *)
Definition full_run (target branch body : string) : list Event :=
  [Chdir target;
   Run "git" ["checkout"; "-b"; branch];
   Run "git" ["add"; "."];
   Run "git" ["commit"; "-m"; "Add " ++ branch];
   Run "git" ["push"; "--set-upstream"; "origin"; branch];
   Run "gh" ["pr"; "create"; "--title"; branch; "--body"; body];
   Run "gh" ["browse"]].

(** ** The selector bridge *)

(** The error that reports a cancelled selection. *)
Definition cancelled : error := errorString "file selection cancelled".

(** The pipes were created and the finder was started. *)
Definition fzf_started (r : FzfRun) : Prop :=
  stdin_pipe r = None /\ stdout_pipe r = None /\ start r = None.

(** The events of a started finder that was given [files]. *)
Definition fzf_events (files : list string) : list Event :=
  [Start "fzf" ["--height"; "40%"]; Stdin (candidate_lines files)].

(** A finder that starts, prints [out] and ends as [w] says. *)
Definition fzf_run (out : string) (w : error + ProcessState) : FzfRun :=
  {| stdin_pipe := None; stdout_pipe := None; start := None;
     stdout := out; wait := w |}.

(** Every character of [l], as UTF-8 decodes it, satisfies [f]. *)
Definition all_runes (f : Z -> bool) (l : list ascii) : Prop :=
  Forall (fun r => f r = true) (utf8.runes l).

(** A stretch of white space: every character of [l] is white space. *)
Definition white_space (l : list ascii) : Prop :=
  all_runes unicode.IsSpace l.

(** [l] neither begins nor ends with a white-space character. *)
Definition unpadded (l : list ascii) : Prop :=
  l = [] \/ (unicode.IsSpace (fst (utf8.DecodeRune l)) = false
             /\ unicode.IsSpace (fst (utf8.DecodeLastRune l)) = false).

(** [sel] is [line] with the surrounding white space trimmed: what is left
    of [line] when a stretch of white space is taken away at each end, so
    that no white space is left at either end. *)
Definition trimmed (line sel : string) : Prop :=
  exists pre post,
    bytes line = (pre ++ bytes sel ++ post)%list
    /\ white_space pre /\ white_space post /\ unpadded (bytes sel).

(** The white-space characters of ASCII: tab, line feed, vertical tab, form
    feed, carriage return and space. *)
Definition ascii_white_space : list ascii :=
  ["009"; "010"; "011"; "012"; "013"; " "]%char.

(** A string of ASCII white space. *)
Definition ascii_white (s : string) : Prop :=
  Forall (fun c => In c ascii_white_space) (bytes s).

(** [line] is the first line of the output [out]: it holds no line feed,
    and [out] ends with it or goes on with a line feed. *)
Definition first_line (out line : string) : Prop :=
  ~ In bufio.LF (bytes line)
  /\ (out = line \/ exists rest, out = line ++ nl ++ rest).

(** ** The Name Deriver in the words of the specification *)

Definition is_dot (c : ascii) : bool := Ascii.eqb c "."%char.

Definition not_sep (c : ascii) : bool := negb (filepath.IsPathSeparator c).

Definition not_dot (c : ascii) : bool := negb (is_dot c).

(** Without its directory components: what follows the last separator. *)
Definition strip_directories (p : list ascii) : list ascii :=
  rev (takeWhile not_sep (rev p)).

(** Without its extension: what precedes the last dot, if there is one. *)
Definition strip_extension (e : list ascii) : list ascii :=
  if existsb is_dot e then rev (tl (dropWhile not_dot (rev e))) else e.

(** A character outside [A-Za-z0-9] becomes a dash. *)
Definition dash_non_alnum (r : Z) : ascii :=
  if is_alnum r then ascii_of_Z r else "-"%char.

Definition two_digits (n : Z) : list ascii :=
  [ascii_of_Z (48 + n / 10); ascii_of_Z (48 + n mod 10)].

(** The date as YY-MM-DD. *)
Definition YY_MM_DD (t : Time) : list ascii :=
  (two_digits (Year t mod 100)
   ++ "-"%char :: two_digits (Month t)
   ++ "-"%char :: two_digits (Day t))%list.

(** The Name Deriver: directory components and extension stripped, every
    character (rune) outside [A-Za-z0-9] replaced by a dash, a dash and the
    date appended. *)
Definition Deriver (t : Time) (filename : string) : string :=
  str (map dash_non_alnum
           (utf8.runes (strip_extension (strip_directories (bytes filename))))
       ++ "-"%char :: YY_MM_DD t)%list.

(** The string names a file: it is not empty and does not end with a
    separator. *)
Definition names_a_file (s : string) : Prop :=
  match rev (bytes s) with
  | c :: _ => filepath.IsPathSeparator c = false
  | [] => False
  end.

(** The number that a list of decimal digits denotes. *)
Fixpoint decimal_value (l : list ascii) : Z :=
  match l with
  | [] => 0
  | c :: t => (byte_val c - 48) * 10 ^ Z.of_nat (length t) + decimal_value t
  end.

(** ** Branch names *)

(** The characters that the invariant of a branch name allows: the ASCII
    letters and digits, and the dash. *)
Definition branch_char (c : ascii) : bool :=
  is_alnum (byte_val c) || Ascii.eqb c "-"%char.

Definition branch_name_ok (s : string) : Prop :=
  Forall (fun c => branch_char c = true) (bytes s).

(** ** The decorative tokens *)

(** The number of indices of a list that select the symbol [s]: with an
    index drawn uniformly, the weight of [s]. *)
Definition weight (l : list string) (s : string) : nat :=
  count_occ string_dec l s.

(** A uniform index gives a uniform symbol: all symbols of the list have
    the same weight. *)
Definition uniform_symbols (l : list string) : Prop :=
  forall s t, In s l -> In t l -> weight l s = weight l t.

(** ** The step that creates the pull request *)

(** The command that creates a pull request with a title and a body. *)
Definition CreatePR (title body : string) : Event :=
  Run "gh" ["pr"; "create"; "--title"; title; "--body"; body].

(** The step that creates the pull request is reached: the change of
    directory and the four commands before it succeed, the first of them
    being the first command that the runner is asked for. *)
Definition reaches_CreatePR (env : Env) (branch target : string) : Prop :=
  os_Chdir env target = None
  /\ cmd_Run env 0 "git" ["checkout"; "-b"; branch] = None
  /\ cmd_Run env 1 "git" ["add"; "."] = None
  /\ cmd_Run env 2 "git" ["commit"; "-m"; "Add " ++ branch] = None
  /\ cmd_Run env 3 "git" ["push"; "--set-upstream"; "origin"; branch] = None.

(** ** Paths and trees *)

(** An element of a path that can be the name of a directory entry: not
    empty, not [.] or [..], and without a separator. *)
Definition elem_ok (e : list ascii) : Prop :=
  e <> [] /\ e <> filepath.dot /\ e <> filepath.dotdot
  /\ Forall (fun c => filepath.IsPathSeparator c = false) e.

Definition valid_name (s : string) : Prop := elem_ok (bytes s).

(** The rooted path with the elements [es]. *)
Definition rooted_path (es : list (list ascii)) : list ascii :=
  filepath.Separator :: filepath.join es.

(** The absolute, cleaned path with the elements [ds], and the relative
    path with the elements [ns]. *)
Definition abs_path (ds : list string) : string := "/" ++ String.concat "/" ds.

Definition rel_path (ns : list string) : string := String.concat "/" ns.

(** The path of an entry relative to the root, the root itself being [.]. *)
Definition render (ns : list string) : string :=
  match ns with
  | [] => "."
  | _ => rel_path ns
  end.

(** The entries of a tree that are not directories, by the names that lead
    to them, in the order of the listings; [prefix] leads to the tree. *)
Fixpoint list_files (prefix : list string) (n : Node) : list (list string) :=
  match n with
  | NErr _ => []
  | NFile _ => [prefix]
  | NDir _ entries =>
    flat_map (fun e => list_files (prefix ++ [fst e])%list (snd e)) entries
  end.

(** [at_path t ns n]: following the names [ns] from [t] leads to [n]. *)
Inductive at_path : Node -> list string -> Node -> Prop :=
| at_here n : at_path n [] n
| at_below rd entries name child ns n :
    In (name, child) entries -> at_path child ns n ->
    at_path (NDir rd entries) (name :: ns) n.

(** A tree that can be read everywhere, with entries named as a file
    system names them: valid names, no name twice in a directory. *)
#[warnings="-register-all"]
Inductive wf_tree : Node -> Prop :=
| wf_file k : wf_tree (NFile k)
| wf_dir entries :
    NoDup (map fst entries) ->
    Forall (fun e => valid_name (fst e)) entries ->
    Forall (fun e => wf_tree (snd e)) entries ->
    wf_tree (NDir None entries).



(** [relisted t1 t2]: the trees hold the same entries, the directories
    listing them in possibly different orders. *)
#[warnings="-register-all"]
Inductive relisted : Node -> Node -> Prop :=
| relisted_err e : relisted (NErr e) (NErr e)
| relisted_file k : relisted (NFile k) (NFile k)
| relisted_dir rd es1 es es2 :
    Permutation es1 es ->
    Forall2 (fun a b => fst a = fst b /\ relisted (snd a) (snd b)) es es2 ->
    relisted (NDir rd es1) (NDir rd es2).

(** ** The entry point *)

(** The checks of [main] before the enumeration pass: the search flag is
    given, [os.Stat] does not report the search root missing, both roots
    resolve to [absSearchDir] and [absTargetDir], and the three tools are
    found. *)
Definition preconditions (env : Env) (absSearchDir absTargetDir : string) : Prop :=
  String.eqb (flag_search env) "" = false
  /\ IsNotExist (os_Stat env (flag_search env)) = false
  /\ Abs env (flag_search env) = inl absSearchDir
  /\ Abs env (flag_target env) = inl absTargetDir
  /\ first_missing env requiredCommands = None.

(** The events that launch the selector or touch the target. *)
Definition is_action (e : Event) : bool :=
  match e with
  | Print _ | Usage => false
  | _ => true
  end.

(** The events of a successful copy. *)
Definition copy_events (src dst : string) : list Event :=
  [Open src; MkdirAll (filepath.Dir dst); Create dst; Copy dst src].

Definition copy_succeeds (env : Env) (src dst : string) : Prop :=
  os_Open env src = None /\ os_MkdirAll env (filepath.Dir dst) = None
  /\ os_Create env dst = None /\ io_Copy env dst src = None.

(** The finder is started with [files] and the user picks [sel]. *)
Definition selects (env : Env) (files : list string) (sel : string) : Prop :=
  selectFileWithFzf env files [] = (Return (sel, None), fzf_events files)
  /\ String.eqb sel "" = false.

(** Everything up to the workflow succeeds: the checks, the enumeration
    with the result [files], the selection of [sel] and the copy to
    [dst]. *)
Definition reaches_workflow (env : Env) (absSearchDir absTargetDir : string)
           (files : list string) (sel dst : string) : Prop :=
  preconditions env absSearchDir absTargetDir
  /\ findFiles env absSearchDir = (files, None)
  /\ files <> []
  /\ selects env files sel
  /\ copy_succeeds env (filepath.Join absSearchDir sel) dst.

(** The log of [main] when the workflow begins; [copying] and [performing]
    are the two messages in the spelling of the source. *)
Definition log_before_workflow (copying performing : string)
           (absSearchDir : string) (files : list string) (sel dst : string)
  : list Event :=
  (fzf_events files
   ++ Print (copying ++ " " ++ filepath.Join absSearchDir sel ++ " to " ++ dst
             ++ "..." ++ nl)
   :: copy_events (filepath.Join absSearchDir sel) dst
   ++ [Print (performing ++ nl)])%list.

(** ** Sample environments *)

(** An environment in which everything succeeds: the search root holds
    [notes/idea.md], and the user picks it. *)
Definition sample_env : Env :=
  {| flag_search := "/search"; flag_target := "/target"; flag_branch := "";
     os_Stat := fun _ => None;
     os_Getwd := inl "/home/owl";
     exec_LookPath := fun _ => None;
     lstat := fun _ =>
       NDir None [("notes", NDir None [("idea.md", NFile Regular)])];
     fzf := fun _ => fzf_run ("notes/idea.md" ++ nl) (inr (Exited 0));
     os_Open := fun _ => None;
     os_MkdirAll := fun _ => None;
     os_Create := fun _ => None;
     io_Copy := fun _ _ => None;
     os_Chdir := fun _ => None;
     cmd_Run := fun _ _ _ => None;
     time_Now := {| Year := 2024; Month := 3; Day := 5 |};
     rand_src := fun n => (3 + 11 * n)%nat |}.

(** The environment [env] with another command runner, file system,
    finder, branch flag or random source. *)
Definition with_runner (env : Env)
           (r : nat -> string -> list string -> option error) : Env :=
  {| flag_search := flag_search env; flag_target := flag_target env;
     flag_branch := flag_branch env; os_Stat := os_Stat env;
     os_Getwd := os_Getwd env; exec_LookPath := exec_LookPath env;
     lstat := lstat env; fzf := fzf env; os_Open := os_Open env;
     os_MkdirAll := os_MkdirAll env; os_Create := os_Create env;
     io_Copy := io_Copy env; os_Chdir := os_Chdir env; cmd_Run := r;
     time_Now := time_Now env; rand_src := rand_src env |}.

Definition with_lstat (env : Env) (t : string -> Node) : Env :=
  {| flag_search := flag_search env; flag_target := flag_target env;
     flag_branch := flag_branch env; os_Stat := os_Stat env;
     os_Getwd := os_Getwd env; exec_LookPath := exec_LookPath env;
     lstat := t; fzf := fzf env; os_Open := os_Open env;
     os_MkdirAll := os_MkdirAll env; os_Create := os_Create env;
     io_Copy := io_Copy env; os_Chdir := os_Chdir env; cmd_Run := cmd_Run env;
     time_Now := time_Now env; rand_src := rand_src env |}.

Definition with_fzf (env : Env) (r : list string -> FzfRun) : Env :=
  {| flag_search := flag_search env; flag_target := flag_target env;
     flag_branch := flag_branch env; os_Stat := os_Stat env;
     os_Getwd := os_Getwd env; exec_LookPath := exec_LookPath env;
     lstat := lstat env; fzf := r; os_Open := os_Open env;
     os_MkdirAll := os_MkdirAll env; os_Create := os_Create env;
     io_Copy := io_Copy env; os_Chdir := os_Chdir env; cmd_Run := cmd_Run env;
     time_Now := time_Now env; rand_src := rand_src env |}.

Definition with_branch (env : Env) (b : string) : Env :=
  {| flag_search := flag_search env; flag_target := flag_target env;
     flag_branch := b; os_Stat := os_Stat env;
     os_Getwd := os_Getwd env; exec_LookPath := exec_LookPath env;
     lstat := lstat env; fzf := fzf env; os_Open := os_Open env;
     os_MkdirAll := os_MkdirAll env; os_Create := os_Create env;
     io_Copy := io_Copy env; os_Chdir := os_Chdir env; cmd_Run := cmd_Run env;
     time_Now := time_Now env; rand_src := rand_src env |}.

Definition with_rand (env : Env) (r : nat -> nat) : Env :=
  {| flag_search := flag_search env; flag_target := flag_target env;
     flag_branch := flag_branch env; os_Stat := os_Stat env;
     os_Getwd := os_Getwd env; exec_LookPath := exec_LookPath env;
     lstat := lstat env; fzf := fzf env; os_Open := os_Open env;
     os_MkdirAll := os_MkdirAll env; os_Create := os_Create env;
     io_Copy := io_Copy env; os_Chdir := os_Chdir env; cmd_Run := cmd_Run env;
     time_Now := time_Now env; rand_src := r |}.

(** The environment [env] in which the draw for the happy symbol gives [i]
    and the draw for the bird gives [j]. *)
Definition with_draws (env : Env) (i j : nat) : Env :=
  with_rand env (fun k => if (k =? 0)%nat then i else j).

(** A stub command runner that fails, with [e], on its [k]-th invocation
    (counted from 1) and succeeds on all others. *)
Definition stub_runner (k : nat) (e : error)
  : nat -> string -> list string -> option error :=
  fun n _ _ => if (S n =? k)%nat then Some e else None.


(** A search root with a symbolic link and a regular file. *)
Definition symlink_tree : Node :=
  NDir None [("latest", NFile Symlink); ("idea.md", NFile Regular)].

(** * Vocabulary of the further properties *)

(** ** Kinds of events *)

(** The events of the finder, of the copy and of the workflow. *)
Definition is_fzf (e : Event) : bool :=
  match e with
  | Start _ _ | Stdin _ => true
  | _ => false
  end.

Definition is_copy (e : Event) : bool :=
  match e with
  | Open _ | MkdirAll _ | Create _ | Copy _ _ => true
  | _ => false
  end.

Definition is_git (e : Event) : bool :=
  match e with
  | Chdir _ | Run _ _ => true
  | _ => false
  end.

(** ** The copier as a list of phases *)

(** The results of the four phases of [copyFile], in the order of the
    source, and the texts that name them in its error. *)
Definition copy_results (env : Env) (src dst : string) : list (option error) :=
  [os_Open env src; os_MkdirAll env (filepath.Dir dst);
   os_Create env dst; io_Copy env dst src].

Definition copy_labels : list string :=
  ["failed to open source file"; "failed to create destination directory";
   "failed to create destination file"; "failed to copy file"].

(** ** More environments *)

(** The environment [env] with another result of [os.Stat]. *)
Definition with_stat (env : Env) (st : string -> option error) : Env :=
  {| flag_search := flag_search env; flag_target := flag_target env;
     flag_branch := flag_branch env; os_Stat := st;
     os_Getwd := os_Getwd env; exec_LookPath := exec_LookPath env;
     lstat := lstat env; fzf := fzf env; os_Open := os_Open env;
     os_MkdirAll := os_MkdirAll env; os_Create := os_Create env;
     io_Copy := io_Copy env; os_Chdir := os_Chdir env; cmd_Run := cmd_Run env;
     time_Now := time_Now env; rand_src := rand_src env |}.

(** The environment [env] in which [exec.LookPath] finds the commands that
    [found] accepts. *)
Definition with_LookPath (env : Env) (found : string -> bool) : Env :=
  {| flag_search := flag_search env; flag_target := flag_target env;
     flag_branch := flag_branch env; os_Stat := os_Stat env;
     os_Getwd := os_Getwd env;
     exec_LookPath := fun c =>
       if found c then None
       else Some (errorString "executable file not found in $PATH");
     lstat := lstat env; fzf := fzf env; os_Open := os_Open env;
     os_MkdirAll := os_MkdirAll env; os_Create := os_Create env;
     io_Copy := io_Copy env; os_Chdir := os_Chdir env; cmd_Run := cmd_Run env;
     time_Now := time_Now env; rand_src := rand_src env |}.

(** The environment [env] in which the phases of the copy end as [phases]
    says, phase by phase. *)
Definition with_copy (env : Env) (phases : nat -> option error) : Env :=
  {| flag_search := flag_search env; flag_target := flag_target env;
     flag_branch := flag_branch env; os_Stat := os_Stat env;
     os_Getwd := os_Getwd env; exec_LookPath := exec_LookPath env;
     lstat := lstat env; fzf := fzf env;
     os_Open := fun _ => phases 0%nat;
     os_MkdirAll := fun _ => phases 1%nat;
     os_Create := fun _ => phases 2%nat;
     io_Copy := fun _ _ => phases 3%nat;
     os_Chdir := os_Chdir env; cmd_Run := cmd_Run env;
     time_Now := time_Now env; rand_src := rand_src env |}.

(** The environment [env] with other flags for the two roots. *)
Definition with_roots (env : Env) (search target : string) : Env :=
  {| flag_search := search; flag_target := target;
     flag_branch := flag_branch env; os_Stat := os_Stat env;
     os_Getwd := os_Getwd env; exec_LookPath := exec_LookPath env;
     lstat := lstat env; fzf := fzf env; os_Open := os_Open env;
     os_MkdirAll := os_MkdirAll env; os_Create := os_Create env;
     io_Copy := io_Copy env; os_Chdir := os_Chdir env; cmd_Run := cmd_Run env;
     time_Now := time_Now env; rand_src := rand_src env |}.

(** ** Lines of a stream *)

(** The lines that a reader of the stream sees: a line ends with a line
    feed, and bytes after the last line feed make a last line. *)
Fixpoint lines (l : list ascii) : list (list ascii) :=
  match l with
  | [] => []
  | c :: t =>
    if Ascii.eqb c bufio.LF then [] :: lines t
    else match lines t with
         | [] => [[c]]
         | x :: xs => (c :: x) :: xs
         end
  end.

(** The number of line feeds in a string. *)
Definition count_LF (s : string) : nat :=
  count_occ ascii_dec (bytes s) bufio.LF.

(** ** White space at the ends of a name *)

(** An ASCII white-space byte: tab, line feed, vertical tab, form feed,
    carriage return or space. *)
Definition ascii_space (c : ascii) : bool :=
  (byte_val c <? 128)%Z && unicode.IsSpace (byte_val c).



(** ** The order of the candidates *)

(** The order of paths by their elements: the first elements that differ
    decide, by the order of their bytes, and a path comes before the paths
    that extend it. *)
Fixpoint path_leb (p q : list string) : bool :=
  match p, q with
  | [], _ => true
  | _ :: _, [] => false
  | a :: p', b :: q' =>
    if String.eqb a b then path_leb p' q' else String.leb a b
  end.

(** ** The two variants of the entry point *)

(** What differs between [src/main.go] and [src/unnamed/part_000]: the
    functions [main] and [gitOperations], the destination of the copy, the
    steps of the workflow with the body of the pull request, and the spelling
    of the messages. *)
Record Variant := {
  v_main : Env -> Prog unit;
  v_gitOperations : Env -> string -> string -> Prog (option error);
  v_destPath : string -> string -> string;
  v_branch : Env -> string -> string;
  v_workflow : Env -> string -> list Step;
  v_body : Env -> string;
  v_copying : string;
  v_performing : string;
  v_copy_error : string;
  v_git_error : string;
  v_success : string
}.

Definition main_go : Variant :=
  {| v_main := Main.main;
     v_gitOperations := Main.gitOperations;
     v_destPath := Main.destPath;
     v_branch := Main.finalBranchName;
     v_workflow := Main_workflow;
     v_body := Main.pr_body;
     v_copying := "copying";
     v_performing := "performing git operations...";
     v_copy_error := "error copying file: ";
     v_git_error := "error in git operations: ";
     v_success := "successfully completed all operations! 🎉" |}.

Definition part_000 : Variant :=
  {| v_main := Part000.main;
     v_gitOperations := Part000.gitOperations;
     v_destPath := Part000.destPath;
     v_branch := Part000.finalBranchName;
     v_workflow := fun _ => Part000_workflow;
     v_body := fun _ => Part000.pr_body;
     v_copying := "Copying";
     v_performing := "Performing git operations...";
     v_copy_error := "Error copying file: ";
     v_git_error := "Error in git operations: ";
     v_success := "Successfully completed all operations!" |}.

(** The source of the copy, and the message that announces the copy. *)
Definition sourcePath (absSearchDir selectedFile : string) : string :=
  filepath.Join absSearchDir selectedFile.

Definition copying_message (v : Variant) (src dst : string) : Event :=
  Print (v_copying v ++ " " ++ src ++ " to " ++ dst ++ "..." ++ nl).

(** The five ways in which a run of [main] ends: before the finder is
    started, with the selection, with the copy, with the workflow, or with
    the message of success. *)
Definition run_shape (v : Variant) (env : Env) : Prop :=
  (exists msg,
      v_main v env [] = (Exit 1%Z, [Print msg; Usage])
      \/ v_main v env [] = (Exit 1%Z, [Print msg]))
  \/ exists absS absT files,
      preconditions env absS absT
      /\ findFiles env absS = (files, None) /\ files <> []
      /\ ((exists evs msg,
              v_main v env [] = (Exit 1%Z, (evs ++ [Print msg])%list)
              /\ Forall (fun e => is_fzf e = true) evs)
          \/ exists sel,
              selects env files sel
              /\ ((exists k msg,
                      (k < 4)%nat
                      /\ v_main v env [] =
                         (Exit 1%Z,
                          (fzf_events files
                           ++ copying_message v (sourcePath absS sel)
                                              (v_destPath v absT sel)
                           :: firstn (S k) (copy_events (sourcePath absS sel)
                                                        (v_destPath v absT sel))
                           ++ [Print msg])%list))
                  \/ (copy_succeeds env (sourcePath absS sel) (v_destPath v absT sel)
                      /\ ((exists k err,
                              (k <= 6)%nat
                              /\ v_main v env [] =
                                 (Exit 1%Z,
                                  (log_before_workflow
                                     (v_copying v) (v_performing v)
                                     absS files sel (v_destPath v absT sel)
                                   ++ Chdir absT
                                   :: map step_event
                                        (firstn k (v_workflow v env (v_branch v env sel)))
                                   ++ [Print (v_git_error v ++ Error err ++ nl)])%list))
                          \/ (os_Chdir env absT = None
                              /\ all_succeed env 0 (v_workflow v env (v_branch v env sel))
                              /\ v_main v env [] =
                                 (Return tt,
                                  (log_before_workflow
                                     (v_copying v) (v_performing v)
                                     absS files sel (v_destPath v absT sel)
                                   ++ full_run absT (v_branch v env sel) (v_body v env)
                                   ++ [Print (v_success v ++ nl)])%list)))))).

(** ** The command line *)

(** What [flag.Parse()] makes of the command line of the process.  It
    parses with [flag.CommandLine], a flag set that exits on errors: the
    three flags are accepted and have the values that the environment holds;
    or help is asked for ([-h], [-help]); or the package rejects the command
    line (a flag that is not defined, a flag without its value) with a
    message. *)
Inductive Parse :=
| Parsed
| HelpAsked
| Rejected (msg : string).

(** [flag.Parse()]: help gets the usage text and status 0, a rejected
    command line gets the message of the package, the usage text and status
    2.  The package writes both to standard error. *)
Definition flag_Parse (p : Parse) : Prog unit :=
  match p with
  | Parsed => ret tt
  | HelpAsked => emit Usage ;;; os_Exit 0
  | Rejected msg => Println msg ;;; emit Usage ;;; os_Exit 2
  end.

(** [main] from its first line: the flags are parsed and then the checks
    begin. *)
Definition main_from_start (v : Variant) (p : Parse) (env : Env) : Prog unit :=
  flag_Parse p ;;; v_main v env.

(** * Lemmas and theorems *)

(** ** Strings and lists of bytes *)

Lemma bytes_app (a b : string) : bytes (a ++ b) = (bytes a ++ bytes b)%list.
Proof.
  unfold bytes. induction a as [|c a IH]; simpl; [reflexivity|now rewrite IH].
Qed.

Lemma bytes_str (l : list ascii) : bytes (str l) = l.
Proof. apply list_ascii_of_string_of_list_ascii. Qed.

Lemma str_bytes (s : string) : str (bytes s) = s.
Proof. apply string_of_list_ascii_of_string. Qed.

Lemma bytes_inj (a b : string) : bytes a = bytes b -> a = b.
Proof. intro H. apply (f_equal str) in H. now rewrite !str_bytes in H. Qed.

Lemma takeWhile_app_stop {A} (f : A -> bool) (l : list A) (x : A) (r : list A) :
  Forall (fun y => f y = true) l -> f x = false ->
  takeWhile f (l ++ x :: r)%list = l.
Proof.
  intros Hl Hx. induction Hl as [|y l Hy _ IH]; simpl.
  - now rewrite Hx.
  - now rewrite Hy, IH.
Qed.

Lemma takeWhile_all {A} (f : A -> bool) (l : list A) :
  Forall (fun y => f y = true) l -> takeWhile f l = l.
Proof.
  intros Hl. induction Hl as [|y l Hy _ IH]; simpl; [reflexivity|].
  now rewrite Hy, IH.
Qed.

Lemma takeWhile_app_all {A} (f : A -> bool) (l r : list A) :
  Forall (fun y => f y = true) l ->
  takeWhile f (l ++ r) = (l ++ takeWhile f r)%list.
Proof.
  induction 1 as [|y l Hy _ IH]; simpl; [reflexivity|]. now rewrite Hy, IH.
Qed.

(** ** UTF-8 decoding, trimming and the first line of a stream *)

Lemma first_cases b :
  In (utf8.first b)
     [utf8.as_; utf8.xx; utf8.s1; utf8.s2; utf8.s3; utf8.s4; utf8.s5; utf8.s6; utf8.s7].
Proof.
  unfold utf8.first.
  repeat match goal with
         | |- context [if ?c then _ else _] => destruct c
         end; simpl; tauto.
Qed.

Ltac split_ifs :=
  repeat match goal with
         | |- context [if ?c then _ else _] => destruct c
         end.

Lemma DecodeRune_ascii (c : ascii) (t : list ascii) :
  (byte_val c < 128)%Z -> utf8.DecodeRune (c :: t) = (byte_val c, 1%nat).
Proof.
  intro H. unfold utf8.DecodeRune, utf8.first.
  apply Z.ltb_lt in H. change 0x80%Z with 128%Z. rewrite H. reflexivity.
Qed.

Section Trimming.

Local Open Scope list_scope.

Local Arguments byte_val : simpl never.
Local Arguments utf8.rune2 : simpl never.
Local Arguments utf8.rune3 : simpl never.
Local Arguments utf8.rune4 : simpl never.
Local Arguments utf8.is_cont : simpl never.
Local Arguments utf8.rejected : simpl never.

(** An ASCII byte is not a continuation byte, and no first byte accepts it
    as its second byte. *)
Lemma is_cont_ascii b : (b < 128)%Z -> utf8.is_cont b = false.
Proof.
  intro H. unfold utf8.is_cont. change utf8.locb with 128%Z.
  apply andb_false_iff. left. apply Z.leb_gt. exact H.
Qed.

Lemma rejected_ascii accept b :
  (b < 128)%Z ->
  In accept [utf8.acceptRanges 0; utf8.acceptRanges 1; utf8.acceptRanges 2;
             utf8.acceptRanges 3; utf8.acceptRanges 4] ->
  utf8.rejected accept b = true.
Proof.
  intros Hb H. unfold utf8.rejected. apply orb_true_iff. left. apply Z.ltb_lt.
  cbn in H. intuition subst; cbn; unfold utf8.locb; lia.
Qed.

Lemma DecodeRune_app_ascii p c :
  (byte_val c < 128)%Z ->
  p <> [] -> utf8.DecodeRune (p ++ [c]) = utf8.DecodeRune p.
Proof.
  intros Hc Hp.
  destruct p as [|c0 t]; [congruence|].
  unfold utf8.DecodeRune. cbn [app].
  generalize (first_cases (byte_val c0)).
  generalize (utf8.first (byte_val c0)) as x. intros x Hx.
  cbn [In] in Hx.
  pose proof (is_cont_ascii _ Hc) as Hcont.
  pose proof (fun accept => rejected_ascii accept _ Hc) as Hrej.
  destruct t as [|c1 [|c2 [|c3 t]]]; cbn [app];
  repeat (destruct Hx as [<-|Hx];
          [simpl; rewrite ?Hcont, ?Hrej by (simpl; tauto); simpl;
           split_ifs; reflexivity|]); contradiction.
Qed.

Lemma DecodeRune_size p :
  p <> [] -> (1 <= snd (utf8.DecodeRune p) <= length p)%nat.
Proof.
  intro Hp.
  destruct p as [|c0 t]; [congruence|].
  unfold utf8.DecodeRune.
  generalize (first_cases (byte_val c0)).
  generalize (utf8.first (byte_val c0)) as x. intros x Hx.
  cbn [In] in Hx.
  destruct t as [|c1 [|c2 [|c3 t]]];
  repeat (destruct Hx as [<-|Hx]; [simpl; split_ifs; simpl; lia|]); contradiction.
Qed.

Section Trim_index.

Variable f : Z -> bool.

Lemma skipn_app_le {A} (n : nat) (l m : list A) :
  (n <= length l)%nat -> skipn n (l ++ m) = skipn n l ++ m.
Proof.
  intro H. rewrite skipn_app.
  replace (n - length l)%nat with 0%nat by lia. reflexivity.
Qed.

Lemma firstn_app_le {A} (n : nat) (l m : list A) :
  (n <= length l)%nat -> firstn n (l ++ m) = firstn n l.
Proof.
  intro H. rewrite firstn_app.
  replace (n - length l)%nat with 0%nat by lia. simpl. apply app_nil_r.
Qed.

Lemma indexFunc_from_S truth k c t i :
  strings.indexFunc_from (S k) f truth (c :: t) i =
  if Bool.eqb (f (fst (utf8.DecodeRune (c :: t)))) truth then i
  else strings.indexFunc_from k f truth
         (skipn (snd (utf8.DecodeRune (c :: t))) (c :: t))
         (i + Z.of_nat (snd (utf8.DecodeRune (c :: t)))).
Proof.
  cbn [strings.indexFunc_from]. now destruct (utf8.DecodeRune (c :: t)).
Qed.

Lemma indexFunc_from_bound truth fuel :
  forall p i r,
    strings.indexFunc_from fuel f truth p i = r ->
    r = (-1)%Z \/ (i <= r < i + Z.of_nat (length p))%Z.
Proof.
  induction fuel as [|k IH]; intros p i r H.
  - simpl in H. now left.
  - cbn [strings.indexFunc_from] in H. destruct p as [|c t]; [now left|].
    pose proof (DecodeRune_size (c :: t)) as Hs.
    destruct (utf8.DecodeRune (c :: t)) as [r0 size]. cbn [snd] in Hs.
    specialize (Hs ltac:(discriminate)).
    destruct (Bool.eqb (f r0) truth).
    + right. subst r. simpl length. lia.
    + apply IH in H. destruct H as [H|H]; [now left|right].
      rewrite length_skipn in H. lia.
Qed.

Lemma scan_start_le p lim fuel :
  forall start, (utf8.scan_start p lim start fuel <= start)%Z.
Proof.
  induction fuel as [|k IH]; intro start; simpl.
  - lia.
  - destruct (start <? lim)%Z; [lia|].
    destruct (utf8.RuneStart _); [lia|].
    specialize (IH (start - 1)%Z). lia.
Qed.

Lemma DecodeLastRune_size p :
  p <> [] -> (1 <= snd (utf8.DecodeLastRune p))%nat.
Proof.
  intro Hp. unfold utf8.DecodeLastRune.
  assert (He : (1 <= Z.of_nat (length p))%Z).
  { destruct p; [congruence|]. simpl length. lia. }
  destruct (Z.of_nat (length p) =? 0)%Z eqn:E0; [apply Z.eqb_eq in E0; lia|].
  destruct (_ <? utf8.RuneSelf)%Z; [simpl; lia|].
  pose proof (scan_start_le p (Z.max 0 (Z.of_nat (length p) - utf8.UTFMax)) 4
                            (Z.of_nat (length p) - 2)) as Hsc.
  set (st := utf8.scan_start _ _ _ _) in *.
  set (start := if (st <? 0)%Z then 0%Z else st).
  assert (Hstart : (start < Z.of_nat (length p))%Z).
  { subst start. destruct (st <? 0)%Z; lia. }
  destruct (utf8.DecodeRune _) as [r size].
  destruct (start + Z.of_nat size =? Z.of_nat (length p))%Z eqn:E; simpl.
  - apply Z.eqb_eq in E. lia.
  - lia.
Qed.

Lemma lastIndexFunc_from_prefix truth (q m : list ascii) fuel :
  forall i,
    (i <= Z.of_nat (length q))%Z ->
    strings.lastIndexFunc_from fuel f truth (q ++ m) i
    = strings.lastIndexFunc_from fuel f truth q i.
Proof.
  induction fuel as [|k IH]; intros i Hi; [reflexivity|].
  cbn [strings.lastIndexFunc_from].
  destruct (i <=? 0)%Z; [reflexivity|].
  rewrite firstn_app_le by lia.
  destruct (utf8.DecodeLastRune _) as [r size].
  destruct (Bool.eqb (f r) truth); [reflexivity|].
  apply IH. lia.
Qed.

Lemma lastIndexFunc_from_bound truth q fuel :
  forall i r,
    (i <= Z.of_nat (length q))%Z ->
    strings.lastIndexFunc_from fuel f truth q i = r ->
    r = (-1)%Z \/ (r < i)%Z.
Proof.
  induction fuel as [|k IH]; intros i r Hi H.
  - simpl in H. now left.
  - cbn [strings.lastIndexFunc_from] in H.
    destruct (i <=? 0)%Z eqn:E; [now left|]. apply Z.leb_gt in E.
    pose proof (DecodeLastRune_size (firstn (Z.to_nat i) q)) as Hs.
    destruct (utf8.DecodeLastRune _) as [r0 size]. cbn [snd] in Hs.
    assert (Hne : firstn (Z.to_nat i) q <> []).
    { intro Hnil. apply (f_equal (@length _)) in Hnil.
      rewrite length_firstn in Hnil. simpl in Hnil. lia. }
    specialize (Hs Hne).
    destruct (Bool.eqb (f r0) truth).
    + right. lia.
    + apply IH in H; [|lia]. destruct H; [now left|right; lia].
Qed.

End Trim_index.

(** An ASCII byte that satisfies [f], appended to a string, is trimmed
    away. *)
Lemma indexFunc_from_app_one f c fuel :
  (byte_val c < 128)%Z -> f (byte_val c) = true ->
  forall p i,
    (length p <= fuel)%nat ->
    strings.indexFunc_from (S fuel) f false (p ++ [c]) i
    = strings.indexFunc_from fuel f false p i.
Proof.
  intros Hc Hf.
  induction fuel as [|k IH]; intros p i Hlen.
  - destruct p; [|simpl in Hlen; lia].
    cbn [app strings.indexFunc_from]. rewrite DecodeRune_ascii by exact Hc.
    rewrite Hf. reflexivity.
  - destruct p as [|c0 t].
    + cbn [app]. cbn [strings.indexFunc_from]. rewrite DecodeRune_ascii by exact Hc.
      rewrite Hf. reflexivity.
    + cbn [app]. rewrite (indexFunc_from_S f false (S k)), (indexFunc_from_S f false k).
      change (c0 :: t ++ [c]) with ((c0 :: t) ++ [c]).
      rewrite DecodeRune_app_ascii by (exact Hc || discriminate).
      pose proof (DecodeRune_size (c0 :: t) ltac:(discriminate)) as Hs.
      destruct (utf8.DecodeRune (c0 :: t)) as [r size]. cbn [fst snd] in *.
      destruct (Bool.eqb (f r) false); [reflexivity|].
      rewrite skipn_app_le by lia.
      apply IH. rewrite length_skipn. lia.
Qed.

Lemma indexFunc_app_one f c p :
  (byte_val c < 128)%Z -> f (byte_val c) = true ->
  strings.indexFunc (p ++ [c]) f false = strings.indexFunc p f false.
Proof.
  intros Hc Hf.
  unfold strings.indexFunc. rewrite length_app, Nat.add_comm. cbn [length Nat.add].
  now apply indexFunc_from_app_one.
Qed.

Lemma TrimLeftFunc_app_one f c p :
  (byte_val c < 128)%Z -> f (byte_val c) = true ->
  strings.TrimLeftFunc (p ++ [c]) f =
  if (strings.indexFunc p f false =? -1)%Z then []
  else strings.TrimLeftFunc p f ++ [c].
Proof.
  intros Hc Hf.
  unfold strings.TrimLeftFunc. rewrite indexFunc_app_one by assumption.
  destruct (strings.indexFunc p f false =? -1)%Z eqn:E; [reflexivity|].
  apply Z.eqb_neq in E.
  destruct (indexFunc_from_bound f false (length p) p 0 _ eq_refl) as [H|H].
  - unfold strings.indexFunc in E. contradiction.
  - unfold strings.indexFunc. apply skipn_app_le. lia.
Qed.

Lemma DecodeLastRune_app_one c q :
  (byte_val c < 128)%Z ->
  utf8.DecodeLastRune (q ++ [c]) = (byte_val c, 1%nat).
Proof.
  intro Hc.
  unfold utf8.DecodeLastRune. rewrite length_app. cbn [length].
  destruct (Z.of_nat (length q + 1) =? 0)%Z eqn:E0; [apply Z.eqb_eq in E0; lia|].
  replace (Z.to_nat (Z.of_nat (length q + 1) - 1)) with (length q) by lia.
  rewrite nth_middle. change utf8.RuneSelf with 128%Z.
  apply Z.ltb_lt in Hc. now rewrite Hc.
Qed.

Lemma lastIndexFunc_app_one f c q :
  (byte_val c < 128)%Z -> f (byte_val c) = true ->
  strings.lastIndexFunc (q ++ [c]) f false = strings.lastIndexFunc q f false.
Proof.
  intros Hc Hf.
  unfold strings.lastIndexFunc. rewrite length_app, Nat.add_comm. cbn [length Nat.add].
  cbn [strings.lastIndexFunc_from].
  destruct (Z.of_nat (S (length q)) <=? 0)%Z eqn:E; [apply Z.leb_le in E; lia|].
  replace (Z.to_nat (Z.of_nat (S (length q)))) with (length (q ++ [c]))
    by (rewrite length_app; simpl; lia).
  rewrite firstn_all, DecodeLastRune_app_one by exact Hc. rewrite Hf. cbn [Bool.eqb].
  replace (Z.of_nat (S (length q)) - Z.of_nat 1)%Z with (Z.of_nat (length q)) by lia.
  apply lastIndexFunc_from_prefix. lia.
Qed.

Lemma TrimRightFunc_app_one f c q :
  (byte_val c < 128)%Z -> f (byte_val c) = true ->
  strings.TrimRightFunc (q ++ [c]) f = strings.TrimRightFunc q f.
Proof.
  intros Hc Hf.
  unfold strings.TrimRightFunc. rewrite lastIndexFunc_app_one by assumption.
  destruct (lastIndexFunc_from_bound f false q (length q) (Z.of_nat (length q)) _
              (Z.le_refl _) eq_refl) as [H|H];
    fold (strings.lastIndexFunc q f false) in H;
    set (r := strings.lastIndexFunc q f false) in *.
  - rewrite H. reflexivity.
  - destruct (0 <=? r)%Z eqn:E0.
    + apply Z.leb_le in E0. cbn [andb].
      rewrite app_nth1 by lia.
      destruct (utf8.RuneSelf <=? _)%Z.
      * rewrite skipn_app_le by lia.
        assert (Hne : skipn (Z.to_nat r) q <> []).
        { intro Hnil. apply (f_equal (@length _)) in Hnil.
          rewrite length_skipn in Hnil. simpl in Hnil. lia. }
        rewrite DecodeRune_app_ascii by assumption.
        pose proof (DecodeRune_size _ Hne) as Hs. rewrite length_skipn in Hs.
        apply firstn_app_le. lia.
      * apply firstn_app_le. lia.
    + cbn [andb]. apply Z.leb_gt in E0.
      replace (Z.to_nat (r + 1)) with 0%nat by lia. reflexivity.
Qed.

Lemma TrimFunc_app_one f c p :
  (byte_val c < 128)%Z -> f (byte_val c) = true ->
  strings.TrimFunc (p ++ [c]) f = strings.TrimFunc p f.
Proof.
  intros Hc Hf.
  unfold strings.TrimFunc. rewrite TrimLeftFunc_app_one by assumption.
  destruct (strings.indexFunc p f false =? -1)%Z eqn:E.
  - unfold strings.TrimLeftFunc. now rewrite E.
  - now apply TrimRightFunc_app_one.
Qed.

Lemma TrimFunc_dropCR p :
  strings.TrimFunc (bufio.dropCR p) unicode.IsSpace = strings.TrimFunc p unicode.IsSpace.
Proof.
  unfold bufio.dropCR.
  destruct (rev p) as [|c r] eqn:E; [reflexivity|].
  destruct (Ascii.eqb_spec c bufio.CR) as [->|]; [|reflexivity].
  apply (f_equal (@rev _)) in E. rewrite rev_involutive in E. subst p.
  cbn [rev]. symmetry. apply TrimFunc_app_one; [cbv; reflexivity|reflexivity].
Qed.

End Trimming.

Lemma TrimSpace_dropCR (l : list ascii) :
  strings.TrimSpace (str (bufio.dropCR l)) = strings.TrimSpace (str l).
Proof.
  unfold strings.TrimSpace. now rewrite !bytes_str, TrimFunc_dropCR.
Qed.

Lemma no_LF_Forall (l : list ascii) :
  ~ In bufio.LF l ->
  Forall (fun c => negb (Ascii.eqb c bufio.LF) = true) l.
Proof.
  intro H. apply Forall_forall. intros c Hc.
  destruct (Ascii.eqb_spec c bufio.LF) as [->|]; [contradiction|reflexivity].
Qed.

(** The first line of the output is what [Scan] delivers, up to a
    carriage return that [TrimSpace] removes anyway. *)
Lemma Scan_first_line (line rest : string) :
  ~ In bufio.LF (bytes line) ->
  exists text, bufio.Scan (line ++ nl ++ rest) = Some text
               /\ strings.TrimSpace text = strings.TrimSpace line.
Proof.
  intro H. unfold bufio.Scan.
  rewrite bytes_app. change (bytes (nl ++ rest)) with (bufio.LF :: bytes rest).
  destruct (bytes line ++ bufio.LF :: bytes rest)%list eqn:E.
  - now destruct (bytes line).
  - rewrite <- E. eexists. split; [reflexivity|].
    rewrite takeWhile_app_stop.
    + now rewrite TrimSpace_dropCR, str_bytes.
    + now apply no_LF_Forall.
    + reflexivity.
Qed.

Lemma Scan_last_line (line : string) :
  line <> "" -> ~ In bufio.LF (bytes line) ->
  exists text, bufio.Scan line = Some text
               /\ strings.TrimSpace text = strings.TrimSpace line.
Proof.
  intros Hne H. unfold bufio.Scan.
  destruct (bytes line) eqn:E.
  - destruct line; [congruence|discriminate].
  - rewrite <- E in *. eexists. split; [reflexivity|].
    rewrite takeWhile_all by now apply no_LF_Forall.
    now rewrite TrimSpace_dropCR, str_bytes.
Qed.

(** ** The characters of a generated branch name *)

Section Branch_chars.

Local Open Scope list_scope.

Lemma byte_val_ascii_of_Z (v : Z) :
  (0 <= v < 256)%Z -> byte_val (ascii_of_Z v) = v.
Proof.
  intro H. unfold byte_val, ascii_of_Z.
  rewrite N_ascii_embedding by lia. lia.
Qed.

Lemma branch_char_digit (d : Z) :
  (0 <= d < 10)%Z -> branch_char (ascii_of_Z (48 + d)) = true.
Proof.
  intro H. unfold branch_char.
  rewrite byte_val_ascii_of_Z by lia.
  unfold is_alnum. change (byte_val "0") with 48%Z. change (byte_val "9") with 57%Z.
  replace (48 <=? 48 + d)%Z with true by (symmetry; apply Z.leb_le; lia).
  replace (48 + d <=? 57)%Z with true by (symmetry; apply Z.leb_le; lia).
  now rewrite !orb_true_r.
Qed.

Lemma decimal_branch_chars fuel :
  forall u acc,
    Forall (fun c => branch_char c = true) acc ->
    Forall (fun c => branch_char c = true) (decimal fuel u acc).
Proof.
  induction fuel as [|k IH]; intros u acc Hacc; simpl; [exact Hacc|].
  assert (Hd : branch_char (ascii_of_Z (48 + u mod 10)) = true).
  { apply branch_char_digit. apply Z.mod_pos_bound. lia. }
  destruct (u / 10 =? 0)%Z.
  - now constructor.
  - apply IH. now constructor.
Qed.

Lemma appendInt_branch_chars x width :
  Forall (fun c => branch_char c = true) (time.appendInt x width).
Proof.
  unfold time.appendInt. apply Forall_app. split.
  - destruct (x <? 0)%Z; repeat constructor.
  - apply Forall_app. split.
    + apply Forall_forall. intros c Hc. apply repeat_spec in Hc. now subst.
    + apply decimal_branch_chars. constructor.
Qed.

Lemma Format_branch_chars t : branch_name_ok (time.Format_06_01_02 t).
Proof.
  unfold branch_name_ok, time.Format_06_01_02. rewrite bytes_str.
  apply Forall_app; split; [apply appendInt_branch_chars|].
  constructor; [reflexivity|].
  apply Forall_app; split; [apply appendInt_branch_chars|].
  constructor; [reflexivity|].
  apply appendInt_branch_chars.
Qed.

Lemma sanitize_range r : (0 <= sanitize r <= 127)%Z.
Proof.
  unfold sanitize, is_alnum.
  change (byte_val "a") with 97%Z. change (byte_val "z") with 122%Z.
  change (byte_val "A") with 65%Z. change (byte_val "Z") with 90%Z.
  change (byte_val "0") with 48%Z. change (byte_val "9") with 57%Z.
  change (byte_val "-") with 45%Z.
  destruct (97 <=? r)%Z eqn:E1, (r <=? 122)%Z eqn:E2, (65 <=? r)%Z eqn:E3,
           (r <=? 90)%Z eqn:E4, (48 <=? r)%Z eqn:E5, (r <=? 57)%Z eqn:E6;
    cbn [andb orb]; lia.
Qed.

Lemma EncodeRune_ascii v :
  (0 <= v <= 127)%Z -> utf8.EncodeRune v = [ascii_of_Z v].
Proof.
  intro H. unfold utf8.EncodeRune, utf8.rune1Max.
  replace (0 <=? v)%Z with true by (symmetry; apply Z.leb_le; lia).
  replace (v <=? 127)%Z with true by (symmetry; apply Z.leb_le; lia).
  reflexivity.
Qed.

Lemma branch_char_sanitize r : branch_char (ascii_of_Z (sanitize r)) = true.
Proof.
  pose proof (sanitize_range r) as Hr.
  unfold branch_char. rewrite byte_val_ascii_of_Z by lia.
  unfold sanitize. destruct (is_alnum r) eqn:E.
  - now rewrite E.
  - reflexivity.
Qed.

(** [strings.Map sanitize] writes one byte for every rune of its argument. *)
Lemma Map_sanitize (s : string) :
  strings.Map sanitize s
  = str (map (fun r => ascii_of_Z (sanitize r)) (utf8.runes (bytes s))).
Proof.
  unfold strings.Map. f_equal.
  induction (utf8.runes (bytes s)) as [|r l IH]; [reflexivity|].
  cbn [map concat]. rewrite IH.
  pose proof (sanitize_range r) as Hr.
  destruct (sanitize r <? 0)%Z eqn:E; [apply Z.ltb_lt in E; lia|].
  now rewrite EncodeRune_ascii by lia.
Qed.

Lemma Map_sanitize_branch_chars s : branch_name_ok (strings.Map sanitize s).
Proof.
  unfold branch_name_ok. rewrite Map_sanitize, bytes_str.
  apply Forall_forall. intros c Hc. apply in_map_iff in Hc.
  destruct Hc as (r & <- & _). apply branch_char_sanitize.
Qed.

End Branch_chars.

Lemma generateBranchName_ok now filename :
  branch_name_ok (generateBranchName now filename).
Proof.
  unfold generateBranchName, branch_name_ok.
  rewrite !bytes_app. apply Forall_app. split.
  - apply Map_sanitize_branch_chars.
  - apply Forall_app. split.
    + repeat constructor.
    + apply Format_branch_chars.
Qed.

(** ** The loops have fuel enough *)

Section Fuel.

Local Open Scope list_scope.

(** More fuel than the length of the string does not change the runes. *)
Lemma runes_fuel_enough (n : nat) :
  forall m p,
    (length p <= n)%nat -> (length p <= m)%nat ->
    utf8.runes_fuel n p = utf8.runes_fuel m p.
Proof.
  induction n as [|n IH]; intros m p Hn Hm.
  - destruct p; [|simpl in Hn; lia]. now destruct m.
  - destruct p as [|c t]; [now destruct m|].
    destruct m as [|m]; [simpl in Hm; lia|].
    cbn [utf8.runes_fuel].
    pose proof (DecodeRune_size (c :: t) ltac:(discriminate)) as Hs.
    destruct (utf8.DecodeRune (c :: t)) as [r size]. cbn [snd] in Hs.
    f_equal. apply IH; rewrite length_skipn; lia.
Qed.

Lemma indexFunc_from_enough (f : Z -> bool) (truth : bool) (n : nat) :
  forall m p i,
    (length p <= n)%nat -> (length p <= m)%nat ->
    strings.indexFunc_from n f truth p i = strings.indexFunc_from m f truth p i.
Proof.
  induction n as [|n IH]; intros m p i Hn Hm.
  - destruct p; [|simpl in Hn; lia]. now destruct m.
  - destruct p as [|c t]; [now destruct m|].
    destruct m as [|m]; [simpl in Hm; lia|].
    rewrite !indexFunc_from_S.
    pose proof (DecodeRune_size (c :: t) ltac:(discriminate)) as Hs.
    destruct (utf8.DecodeRune (c :: t)) as [r size]. cbn [fst snd] in *.
    destruct (Bool.eqb (f r) truth); [reflexivity|].
    apply IH; rewrite length_skipn; lia.
Qed.

Lemma lastIndexFunc_from_enough (f : Z -> bool) (truth : bool) (s : list ascii)
      (n : nat) :
  forall m i,
    (i <= Z.of_nat (length s))%Z ->
    (i <= Z.of_nat n)%Z -> (i <= Z.of_nat m)%Z ->
    strings.lastIndexFunc_from n f truth s i
    = strings.lastIndexFunc_from m f truth s i.
Proof.
  induction n as [|n IH]; intros m i Hi Hn Hm.
  - cbn [strings.lastIndexFunc_from]. destruct m; [reflexivity|].
    cbn [strings.lastIndexFunc_from].
    destruct (i <=? 0)%Z eqn:E; [reflexivity|]. apply Z.leb_gt in E. lia.
  - cbn [strings.lastIndexFunc_from].
    destruct (i <=? 0)%Z eqn:E.
    + destruct m; cbn [strings.lastIndexFunc_from]; [reflexivity|now rewrite E].
    + apply Z.leb_gt in E. destruct m as [|m]; [lia|].
      cbn [strings.lastIndexFunc_from].
      replace (i <=? 0)%Z with false by (symmetry; apply Z.leb_gt; lia).
      pose proof (DecodeLastRune_size (firstn (Z.to_nat i) s)) as Hs.
      destruct (utf8.DecodeLastRune _) as [r size]. cbn [snd] in Hs.
      assert (Hne : firstn (Z.to_nat i) s <> []).
      { intro Hnil. apply (f_equal (@length _)) in Hnil.
        rewrite length_firstn in Hnil. simpl in Hnil. lia. }
      specialize (Hs Hne).
      destruct (Bool.eqb (f r) truth); [reflexivity|].
      apply IH; lia.
Qed.

Lemma decimal_digit_value (d : Z) :
  (0 <= d < 10)%Z -> (byte_val (ascii_of_Z (48 + d)) - 48 = d)%Z.
Proof. intro H. rewrite byte_val_ascii_of_Z by lia. lia. Qed.

Lemma decimal_spec (fuel : nat) :
  forall u acc,
    (0 <= u)%Z -> (Z.log2 u < Z.of_nat fuel)%Z ->
    decimal_value (decimal fuel u acc)
    = (u * 10 ^ Z.of_nat (length acc) + decimal_value acc)%Z.
Proof.
  induction fuel as [|k IH]; intros u acc Hu Hfuel.
  - pose proof (Z.log2_nonneg u). lia.
  - cbn [decimal].
    assert (Hd : (0 <= u mod 10 < 10)%Z) by (apply Z.mod_pos_bound; lia).
    assert (Hdiv : (u = 10 * (u / 10) + u mod 10)%Z) by (apply Z.div_mod; lia).
    destruct (u / 10 =? 0)%Z eqn:E.
    + apply Z.eqb_eq in E. cbn [decimal_value].
      rewrite decimal_digit_value by exact Hd. nia.
    + apply Z.eqb_neq in E.
      assert (Hq : (0 < u / 10)%Z).
      { pose proof (Z.div_pos u 10 Hu ltac:(lia)). lia. }
      rewrite IH.
      * cbn [decimal_value length]. rewrite decimal_digit_value by exact Hd.
        rewrite Nat2Z.inj_succ, Z.pow_succ_r by lia. nia.
      * lia.
      * assert (Hu2 : (0 < u)%Z) by lia.
        pose proof (Z.log2_spec u Hu2) as (_ & Hup).
        pose proof (Z.log2_nonneg u) as Hl0.
        rewrite Z.pow_succ_r in Hup by exact Hl0.
        assert (Hlt : (u / 10 < 2 ^ Z.log2 u)%Z).
        { apply Z.div_lt_upper_bound; lia. }
        apply (Z.log2_lt_pow2 _ _ Hq) in Hlt. lia.
Qed.

(** [digits u] is the decimal form of [u]: the fuel of [decimal] is enough. *)
Lemma digits_value (u : Z) : (0 <= u)%Z -> decimal_value (digits u) = u.
Proof.
  intro Hu. unfold digits. rewrite decimal_spec.
  - cbn. lia.
  - exact Hu.
  - pose proof (Z.log2_nonneg u). lia.
Qed.

End Fuel.

(** ** Trimming: the ends of what is kept *)

Section Trim_ends.

Local Open Scope list_scope.

Local Arguments byte_val : simpl never.
Local Arguments utf8.rune2 : simpl never.
Local Arguments utf8.rune3 : simpl never.
Local Arguments utf8.rune4 : simpl never.
Local Arguments utf8.is_cont : simpl never.
Local Arguments utf8.rejected : simpl never.

Variable f : Z -> bool.



Lemma firstn_snoc (n : nat) (q : list ascii) :
  (n < length q)%nat -> firstn (S n) q = firstn n q ++ [nth n q zero].
Proof.
  revert q. induction n as [|n IH]; intros [|a q] H; simpl in H; try lia.
  - reflexivity.
  - cbn [firstn nth app]. rewrite <- IH by lia. reflexivity.
Qed.

Lemma rev_firstn_last (n : nat) (q : list ascii) c r :
  rev (firstn n q) = c :: r ->
  (1 <= n)%nat /\ c = nth (Nat.min n (length q) - 1) q zero.
Proof.
  intro H.
  assert (Hn : (1 <= Nat.min n (length q))%nat).
  { destruct n; [discriminate|]. destruct q; [discriminate|]. simpl. lia. }
  split; [lia|].
  assert (E : firstn n q = firstn (Nat.min n (length q)) q).
  { destruct (Nat.le_ge_cases n (length q)).
    - now rewrite Nat.min_l.
    - rewrite Nat.min_r by assumption. rewrite !firstn_all2 by lia. reflexivity. }
  rewrite E in H.
  destruct (Nat.min n (length q)) as [|m] eqn:Em; [lia|].
  rewrite firstn_snoc in H by lia.
  rewrite rev_app_distr in H. cbn in H. injection H as <- _.
  now replace (S m - 1)%nat with m by lia.
Qed.

(** Where the forward scan stops, the rune does not satisfy [f]. *)
Lemma indexFunc_from_stops fuel :
  forall p i r,
    strings.indexFunc_from fuel f false p i = r ->
    r = (-1)%Z
    \/ exists n, r = (i + Z.of_nat n)%Z /\ (n < length p)%nat
                 /\ f (fst (utf8.DecodeRune (skipn n p))) = false.
Proof.
  induction fuel as [|k IH]; intros p i r H.
  - now left.
  - destruct p as [|c t]; [now left|].
    rewrite indexFunc_from_S in H.
    pose proof (DecodeRune_size (c :: t) ltac:(discriminate)) as Hs.
    destruct (f (fst (utf8.DecodeRune (c :: t)))) eqn:Ef; cbn [Bool.eqb] in H.
    + apply IH in H. destruct H as [H|(n & -> & Hn & Hf)]; [now left|right].
      rewrite length_skipn in Hn. rewrite skipn_skipn in Hf.
      exists (n + snd (utf8.DecodeRune (c :: t)))%nat.
      split; [lia|]. split; [lia|exact Hf].
    + right. exists 0%nat. split; [lia|]. split; [simpl; lia|].
      exact Ef.
Qed.

(** Where the backward scan stops, the rune does not satisfy [f]. *)
Lemma lastIndexFunc_from_stops q fuel :
  forall i r,
    (i <= Z.of_nat (length q))%Z ->
    strings.lastIndexFunc_from fuel f false q i = r ->
    r = (-1)%Z
    \/ exists i0,
        (0 < i0 <= i)%Z
        /\ r = (i0 - Z.of_nat (snd (utf8.DecodeLastRune (firstn (Z.to_nat i0) q))))%Z
        /\ f (fst (utf8.DecodeLastRune (firstn (Z.to_nat i0) q))) = false.
Proof.
  induction fuel as [|k IH]; intros i r Hi H.
  - now left.
  - cbn [strings.lastIndexFunc_from] in H.
    destruct (i <=? 0)%Z eqn:E; [now left|]. apply Z.leb_gt in E.
    pose proof (DecodeLastRune_size (firstn (Z.to_nat i) q)) as Hs.
    destruct (utf8.DecodeLastRune (firstn (Z.to_nat i) q)) as [r0 size] eqn:Ed.
    cbn [snd] in Hs.
    assert (Hne : firstn (Z.to_nat i) q <> []).
    { intro Hnil. apply (f_equal (@length _)) in Hnil.
      rewrite length_firstn in Hnil. simpl in Hnil. lia. }
    specialize (Hs Hne).
    destruct (f r0) eqn:Ef; cbn [Bool.eqb] in H.
    + apply IH in H; [|lia].
      destruct H as [H|(i0 & Hi0 & Hr & Hf)]; [now left|right].
      exists i0. split; [lia|]. now split.
    + right. exists i. rewrite Ed. cbn [fst snd]. split; [lia|]. now split.
Qed.

(** What [DecodeLastRune] returns, by the last byte of the string. *)
Lemma DecodeLastRune_cases (p : list ascii) :
  p <> [] ->
  let b := byte_val (nth (length p - 1) p zero) in
  ((b < 128)%Z /\ utf8.DecodeLastRune p = (b, 1%nat))
  \/ ((128 <= b)%Z
      /\ (snd (utf8.DecodeLastRune p) = 1%nat
          \/ exists start,
              (start + snd (utf8.DecodeLastRune p) = length p)%nat
              /\ utf8.DecodeRune (skipn start p) = utf8.DecodeLastRune p)).
Proof.
  intros Hp b. unfold utf8.DecodeLastRune.
  assert (He : (1 <= Z.of_nat (length p))%Z).
  { destruct p; [congruence|]. simpl length. lia. }
  destruct (Z.of_nat (length p) =? 0)%Z eqn:E0; [apply Z.eqb_eq in E0; lia|].
  replace (Z.to_nat (Z.of_nat (length p) - 1)) with (length p - 1)%nat by lia.
  fold b. change utf8.RuneSelf with 128%Z.
  destruct (b <? 128)%Z eqn:Eb.
  - left. apply Z.ltb_lt in Eb. now split.
  - right. apply Z.ltb_ge in Eb. split; [exact Eb|].
    set (st := utf8.scan_start _ _ _ _).
    set (start := if (st <? 0)%Z then 0%Z else st).
    assert (Hstart : (0 <= start)%Z).
    { subst start. destruct (st <? 0)%Z eqn:E; [lia|]. apply Z.ltb_ge in E. lia. }
    destruct (utf8.DecodeRune (skipn (Z.to_nat start) p)) as [r size] eqn:Ed.
    destruct (start + Z.of_nat size =? Z.of_nat (length p))%Z eqn:E; cbn [negb snd].
    + right. apply Z.eqb_eq in E. exists (Z.to_nat start). split; [lia|exact Ed].
    + now left.
Qed.

(** The last byte of an encoding of more than one byte is not ASCII. *)
Lemma DecodeRune_last_byte (p : list ascii) :
  (2 <= snd (utf8.DecodeRune p))%nat ->
  (128 <= byte_val (nth (snd (utf8.DecodeRune p) - 1) p zero))%Z.
Proof.
  destruct p as [|c0 t]; [simpl; lia|].
  unfold utf8.DecodeRune.
  generalize (first_cases (byte_val c0)).
  generalize (utf8.first (byte_val c0)) as x. intros x Hx.
  cbn [In] in Hx.
  assert (Hrej : forall i b, utf8.rejected (utf8.acceptRanges i) b = false ->
                             (128 <= b)%Z).
  { intros i b. unfold utf8.rejected, utf8.acceptRanges.
    change utf8.locb with 128%Z. change utf8.hicb with 191%Z.
    repeat match goal with
           | |- context [if ?c then _ else _] => destruct c
           end; cbn [fst snd]; intro H;
      apply orb_false_iff in H; destruct H as (H & _);
        apply Z.ltb_ge in H; lia. }
  assert (Hcont : forall b, utf8.is_cont b = true -> (128 <= b)%Z).
  { intros b. unfold utf8.is_cont. change utf8.locb with 128%Z. intro H.
    apply andb_true_iff in H. destruct H as (H & _). apply Z.leb_le in H. exact H. }
  destruct t as [|c1 [|c2 [|c3 t]]];
    repeat (destruct Hx as [<-|Hx];
            [simpl;
             repeat match goal with
                    | |- context [utf8.rejected ?a ?b] =>
                      let E := fresh "E" in
                      destruct (utf8.rejected a b) eqn:E;
                      [|apply Hrej in E]
                    | |- context [utf8.is_cont ?b] =>
                      let E := fresh "E" in
                      destruct (utf8.is_cont b) eqn:E;
                      [apply Hcont in E|]
                    end; simpl; try lia; try assumption|]);
    try contradiction.
Qed.

End Trim_ends.

Lemma nth_skipn_add {A} (d : A) (m n : nat) (l : list A) :
  nth n (skipn m l) d = nth (m + n) l d.
Proof.
  revert l. induction m as [|m IH]; intro l; [reflexivity|].
  destruct l as [|a l]; [now destruct n|]. cbn [skipn Nat.add nth]. apply IH.
Qed.

Lemma nth_firstn_lt {A} (d : A) (k n : nat) (l : list A) :
  (k < n)%nat -> nth k (firstn n l) d = nth k l d.
Proof.
  revert k l. induction n as [|n IH]; intros k l H; [lia|].
  destruct l as [|a l]; [reflexivity|].
  destruct k as [|k]; [reflexivity|]. cbn [firstn nth]. apply IH. lia.
Qed.

Lemma skipn_nth_cons {A} (d : A) (m : nat) (l : list A) :
  (m < length l)%nat -> skipn m l = nth m l d :: skipn (S m) l.
Proof.
  revert l. induction m as [|m IH]; intros [|a l] H; simpl in H; try lia.
  - reflexivity.
  - cbn [skipn nth]. rewrite IH by lia. reflexivity.
Qed.

Section Trimmed_ends.

Local Open Scope list_scope.

Variable f : Z -> bool.

(** What [TrimFunc] returns does not begin with an ASCII byte that
    satisfies [f]. *)
Lemma TrimFunc_first (s : list ascii) c t :
  strings.TrimFunc s f = c :: t -> (byte_val c < 128)%Z -> f (byte_val c) = false.
Proof.
  unfold strings.TrimFunc, strings.TrimRightFunc.
  set (q := strings.TrimLeftFunc s f).
  set (n := Z.to_nat _). intros H Hc.
  assert (Hq : exists q', q = c :: q').
  { destruct q as [|a q']; [now destruct n|].
    destruct n; [discriminate|]. cbn [firstn] in H. injection H as -> _.
    now exists q'. }
  destruct Hq as (q' & Hq). subst q. unfold strings.TrimLeftFunc in Hq.
  destruct (indexFunc_from_stops f (length s) s 0 _ eq_refl) as [E|(k & E & Hk & Hf)];
    fold (strings.indexFunc s f false) in E; rewrite E in Hq.
  - discriminate.
  - destruct (0 + Z.of_nat k =? -1)%Z eqn:E1; [apply Z.eqb_eq in E1; lia|].
    replace (Z.to_nat (0 + Z.of_nat k)) with k in Hq by lia.
    rewrite Hq, DecodeRune_ascii in Hf by exact Hc. exact Hf.
Qed.

(** What [TrimRightFunc] returns does not end with an ASCII byte that
    satisfies [f]. *)
Lemma TrimRightFunc_last (q : list ascii) c r :
  rev (strings.TrimRightFunc q f) = c :: r ->
  (byte_val c < 128)%Z -> f (byte_val c) = false.
Proof.
  unfold strings.TrimRightFunc. change utf8.RuneSelf with 128%Z.
  set (r0 := strings.lastIndexFunc q f false).
  intros H Hc.
  destruct (lastIndexFunc_from_stops f q (length q) (Z.of_nat (length q)) r0
              (Z.le_refl _) eq_refl) as [E|(i0 & Hi0 & Hr0 & Hf)].
  { rewrite E in H. discriminate. }
  set (p := firstn (Z.to_nat i0) q) in *.
  assert (Hlen : length p = Z.to_nat i0).
  { subst p. rewrite length_firstn. lia. }
  assert (Hp : p <> []).
  { intro Hnil. rewrite Hnil in Hlen. simpl in Hlen. lia. }
  pose proof (DecodeLastRune_size p Hp) as Hsize.
  destruct (0 <=? r0)%Z eqn:E0; cbn [andb] in H.
  2:{ apply Z.leb_gt in E0.
      replace (Z.to_nat (r0 + 1)) with 0%nat in H by lia. discriminate. }
  apply Z.leb_le in E0.
  assert (Hr0len : (Z.to_nat r0 < length q)%nat) by lia.
  destruct (128 <=? byte_val (nth (Z.to_nat r0) q zero))%Z eqn:Eb.
  - (* the rune at [r0] is not ASCII: the result ends with its last byte *)
    exfalso. apply Z.leb_le in Eb.
    assert (Hne : skipn (Z.to_nat r0) q <> []).
    { intro Hnil. apply (f_equal (@length _)) in Hnil.
      rewrite length_skipn in Hnil. simpl in Hnil. lia. }
    pose proof (DecodeRune_size _ Hne) as Hw. rewrite length_skipn in Hw.
    set (wid := snd (utf8.DecodeRune (skipn (Z.to_nat r0) q))) in *.
    apply rev_firstn_last in H. destruct H as (_ & Hlast).
    replace (Nat.min (Z.to_nat (r0 + Z.of_nat wid)) (length q))
      with (Z.to_nat r0 + wid)%nat in Hlast by lia.
    destruct (Nat.eq_dec wid 1) as [E1|E1].
    + rewrite E1 in Hlast.
      replace (Z.to_nat r0 + 1 - 1)%nat with (Z.to_nat r0) in Hlast by lia.
      subst c. lia.
    + pose proof (DecodeRune_last_byte (skipn (Z.to_nat r0) q)) as Hb.
      fold wid in Hb. specialize (Hb ltac:(lia)).
      rewrite nth_skipn_add in Hb.
      replace (Z.to_nat r0 + (wid - 1))%nat with (Z.to_nat r0 + wid - 1)%nat
        in Hb by lia.
      subst c. lia.
  - (* the byte at [r0] is ASCII: it is the rune that the scan stopped at *)
    apply Z.leb_gt in Eb.
    apply rev_firstn_last in H. destruct H as (_ & Hlast).
    replace (Nat.min (Z.to_nat (r0 + 1)) (length q) - 1)%nat
      with (Z.to_nat r0) in Hlast by lia.
    assert (Hnth : nth (length p - 1) p zero = nth (Z.to_nat i0 - 1) q zero).
    { subst p. rewrite Hlen. apply nth_firstn_lt. lia. }
    destruct (DecodeLastRune_cases p Hp) as [(Hb & Hd)|(Hb & [Hone|(start & Hst & Hd)])];
      cbv zeta in *; rewrite Hnth in Hb.
    + rewrite Hnth in Hd. rewrite Hd in Hf, Hr0. cbn [fst snd] in Hf, Hr0.
      replace (Z.to_nat r0) with (Z.to_nat i0 - 1)%nat in Hlast by lia.
      now subst c.
    + exfalso. rewrite Hone in Hr0.
      replace (Z.to_nat r0) with (Z.to_nat i0 - 1)%nat in Eb by lia. lia.
    + exfalso.
      assert (Hs : start = Z.to_nat r0) by lia.
      assert (Hsk : skipn start p = nth (Z.to_nat r0) q zero :: skipn (S start) p).
      { rewrite (skipn_nth_cons zero) by lia. f_equal.
        subst p start. apply nth_firstn_lt. lia. }
      rewrite Hsk, DecodeRune_ascii in Hd by exact Eb.
      rewrite <- Hd in Hst. cbn [snd] in Hst.
      replace (Z.to_nat r0) with (Z.to_nat i0 - 1)%nat in Eb by lia. lia.
Qed.

Lemma TrimFunc_last (s : list ascii) c r :
  rev (strings.TrimFunc s f) = c :: r ->
  (byte_val c < 128)%Z -> f (byte_val c) = false.
Proof. unfold strings.TrimFunc. apply TrimRightFunc_last. Qed.



End Trimmed_ends.

Lemma TrimSpace_ends (s : string) :
  (forall c t, bytes (strings.TrimSpace s) = c :: t -> ascii_space c = false)
  /\ (forall c r, rev (bytes (strings.TrimSpace s)) = c :: r -> ascii_space c = false).
Proof.
  unfold strings.TrimSpace. rewrite bytes_str. split.
  - intros c t H. unfold ascii_space.
    destruct (byte_val c <? 128)%Z eqn:E; [|reflexivity]. apply Z.ltb_lt in E.
    cbn [andb]. exact (TrimFunc_first _ _ _ _ H E).
  - intros c r H. unfold ascii_space.
    destruct (byte_val c <? 128)%Z eqn:E; [|reflexivity]. apply Z.ltb_lt in E.
    cbn [andb]. exact (TrimFunc_last _ _ _ _ H E).
Qed.


Lemma indexFunc_from_all (f : Z -> bool) (p : list ascii) :
  Forall (fun c => (byte_val c < 128)%Z /\ f (byte_val c) = true) p ->
  forall fuel i, strings.indexFunc_from fuel f false p i = (-1)%Z.
Proof.
  induction 1 as [|c p (Hc & Hf) _ IH]; intros fuel i.
  - now destruct fuel.
  - destruct fuel as [|fuel]; [reflexivity|].
    rewrite indexFunc_from_S, DecodeRune_ascii by exact Hc.
    cbn [fst snd skipn]. rewrite Hf. cbn [Bool.eqb]. apply IH.
Qed.

Lemma TrimSpace_white (s : string) :
  Forall (fun c => ascii_space c = true) (bytes s) -> strings.TrimSpace s = "".
Proof.
  intro H. unfold strings.TrimSpace, strings.TrimFunc.
  assert (E : strings.TrimLeftFunc (bytes s) unicode.IsSpace = []).
  { unfold strings.TrimLeftFunc, strings.indexFunc.
    rewrite indexFunc_from_all; [reflexivity|].
    eapply Forall_impl; [|exact H].
    intros c Hc. unfold ascii_space in Hc. apply andb_true_iff in Hc.
    destruct Hc as (Hc & Hsp). apply Z.ltb_lt in Hc. now split. }
  rewrite E. reflexivity.
Qed.

(** ** Trimming: white space around a string *)

Section Trim_padding.

Local Open Scope list_scope.

Variable f : Z -> bool.

(** The index that the forward scan returns moves with the index it starts
    from. *)
Lemma indexFunc_from_offset truth fuel :
  forall p,
    (forall i, strings.indexFunc_from fuel f truth p i = (-1)%Z)
    \/ (exists n, forall i,
           strings.indexFunc_from fuel f truth p i = (i + Z.of_nat n)%Z).
Proof.
  induction fuel as [|k IH]; intro p; [now left|].
  destruct p as [|c t]; [now left|].
  destruct (Bool.eqb (f (fst (utf8.DecodeRune (c :: t)))) truth) eqn:E.
  - right. exists 0%nat. intro i. rewrite indexFunc_from_S, E. lia.
  - destruct (IH (skipn (snd (utf8.DecodeRune (c :: t))) (c :: t))) as [H|(n & H)].
    + left. intro i. rewrite indexFunc_from_S, E. apply H.
    + right. exists (snd (utf8.DecodeRune (c :: t)) + n)%nat. intro i.
      rewrite indexFunc_from_S, E, H. lia.
Qed.

Lemma TrimLeftFunc_cons_one c p :
  (byte_val c < 128)%Z -> f (byte_val c) = true ->
  strings.TrimLeftFunc (c :: p) f = strings.TrimLeftFunc p f.
Proof.
  intros Hc Hf. unfold strings.TrimLeftFunc, strings.indexFunc. cbn [length].
  rewrite indexFunc_from_S, DecodeRune_ascii by exact Hc.
  cbn [fst snd skipn]. rewrite Hf. cbn [Bool.eqb].
  destruct (indexFunc_from_offset false (length p) p) as [H|(n & H)].
  - now rewrite !H.
  - rewrite !H.
    destruct (0 + Z.of_nat 1 + Z.of_nat n =? -1)%Z eqn:E1;
      [apply Z.eqb_eq in E1; lia|].
    destruct (0 + Z.of_nat n =? -1)%Z eqn:E2; [apply Z.eqb_eq in E2; lia|].
    replace (Z.to_nat (0 + Z.of_nat 1 + Z.of_nat n)) with (S n) by lia.
    replace (Z.to_nat (0 + Z.of_nat n)) with n by lia.
    reflexivity.
Qed.

(** ASCII bytes that satisfy [f], before or after a string, are trimmed
    away. *)
Lemma TrimFunc_white_app ws p :
  Forall (fun c => (byte_val c < 128)%Z /\ f (byte_val c) = true) ws ->
  strings.TrimFunc (ws ++ p) f = strings.TrimFunc p f.
Proof.
  induction 1 as [|c ws (Hc & Hf) _ IH]; [reflexivity|].
  cbn [app]. unfold strings.TrimFunc in *.
  now rewrite TrimLeftFunc_cons_one.
Qed.

Lemma TrimFunc_app_white ws :
  Forall (fun c => (byte_val c < 128)%Z /\ f (byte_val c) = true) ws ->
  forall p, strings.TrimFunc (p ++ ws) f = strings.TrimFunc p f.
Proof.
  induction 1 as [|c ws (Hc & Hf) _ IH]; intro p.
  - now rewrite app_nil_r.
  - change (p ++ c :: ws) with (p ++ [c] ++ ws). rewrite app_assoc, IH.
    now apply TrimFunc_app_one.
Qed.

Lemma lastIndexFunc_stops_at_once (s : list ascii) :
  s <> [] ->
  f (fst (utf8.DecodeLastRune s)) = false ->
  strings.lastIndexFunc s f false
  = (Z.of_nat (length s) - Z.of_nat (snd (utf8.DecodeLastRune s)))%Z.
Proof.
  intros Hne Hf. unfold strings.lastIndexFunc.
  assert (Hfirst : firstn (Z.to_nat (Z.of_nat (length s))) s = s)
    by (rewrite Nat2Z.id; apply firstn_all).
  destruct s as [|c t]; [congruence|].
  set (s := c :: t) in *. change (length s) with (S (length t)) at 1.
  cbn [strings.lastIndexFunc_from].
  destruct (Z.of_nat (length s) <=? 0)%Z eqn:E;
    [apply Z.leb_le in E; subst s; simpl length in E; lia|].
  rewrite Hfirst.
  destruct (utf8.DecodeLastRune s) as [r size]. cbn [fst snd] in *.
  now rewrite Hf.
Qed.

(** A string that neither begins nor ends with a rune that satisfies [f]
    is left as it is. *)
Lemma TrimFunc_unpadded (s : list ascii) :
  s <> [] ->
  f (fst (utf8.DecodeRune s)) = false ->
  f (fst (utf8.DecodeLastRune s)) = false ->
  strings.TrimFunc s f = s.
Proof.
  intros Hne Hf0 Hf1.
  assert (Hleft : strings.TrimLeftFunc s f = s).
  { unfold strings.TrimLeftFunc, strings.indexFunc.
    destruct s as [|c t]; [congruence|].
    cbn [length]. rewrite indexFunc_from_S, Hf0. reflexivity. }
  unfold strings.TrimFunc. rewrite Hleft.
  assert (Hlen : (1 <= length s)%nat).
  { destruct s; [congruence|]. simpl. lia. }
  unfold strings.TrimRightFunc.
  rewrite (lastIndexFunc_stops_at_once s Hne Hf1).
  change utf8.RuneSelf with 128%Z.
  pose proof (DecodeLastRune_size s Hne) as Hsize.
  set (size := snd (utf8.DecodeLastRune s)) in *.
  assert (Hend : forall n, Z.to_nat n = length s -> firstn (Z.to_nat n) s = s).
  { intros n ->. apply firstn_all. }
  destruct (DecodeLastRune_cases s Hne) as [(Hb & Hd)|(Hb & [Hone|(start & Hst & Hd)])];
    cbv zeta in *.
  - (* the last byte is ASCII *)
    assert (E : size = 1%nat) by (subst size; now rewrite Hd). rewrite E.
    replace (Z.to_nat (Z.of_nat (length s) - Z.of_nat 1)) with (length s - 1)%nat by lia.
    destruct (128 <=? _)%Z eqn:Eb; [apply Z.leb_le in Eb; lia|].
    rewrite andb_false_r. apply Hend. lia.
  - (* the last byte is not part of an encoding *)
    fold size in Hone. rewrite Hone.
    replace (Z.to_nat (Z.of_nat (length s) - Z.of_nat 1)) with (length s - 1)%nat by lia.
    destruct (0 <=? Z.of_nat (length s) - Z.of_nat 1)%Z eqn:E0;
      [|apply Z.leb_gt in E0; lia].
    destruct (128 <=? _)%Z eqn:Eb; cbn [andb]; [|apply Hend; lia].
    assert (Hsk : skipn (length s - 1) s <> []).
    { intro Hnil. apply (f_equal (@length _)) in Hnil.
      rewrite length_skipn in Hnil. simpl in Hnil. lia. }
    pose proof (DecodeRune_size _ Hsk) as Hw. rewrite length_skipn in Hw.
    apply Hend. lia.
  - (* the last rune is an encoding of [size] bytes *)
    fold size in Hst.
    replace (Z.to_nat (Z.of_nat (length s) - Z.of_nat size)) with start by lia.
    destruct (0 <=? Z.of_nat (length s) - Z.of_nat size)%Z eqn:E0;
      [|apply Z.leb_gt in E0; lia].
    destruct (128 <=? _)%Z eqn:Eb; cbn [andb].
    + rewrite Hd. fold size. apply Hend. lia.
    + apply Z.leb_gt in Eb.
      rewrite (skipn_nth_cons zero) in Hd by lia.
      rewrite DecodeRune_ascii in Hd by exact Eb.
      assert (E : size = 1%nat) by (subst size; now rewrite <- Hd).
      apply Hend. lia.
Qed.

(** A string with ASCII bytes that satisfy [f] around a core that neither
    begins nor ends with a rune that satisfies [f] is trimmed to the
    core. *)
Lemma TrimFunc_padded (ws1 core ws2 : list ascii) :
  Forall (fun c => (byte_val c < 128)%Z /\ f (byte_val c) = true) ws1 ->
  Forall (fun c => (byte_val c < 128)%Z /\ f (byte_val c) = true) ws2 ->
  core = [] \/ (f (fst (utf8.DecodeRune core)) = false
                /\ f (fst (utf8.DecodeLastRune core)) = false) ->
  strings.TrimFunc (ws1 ++ core ++ ws2) f = core.
Proof.
  intros H1 H2 Hcore.
  rewrite app_assoc, TrimFunc_app_white, TrimFunc_white_app by assumption.
  destruct Hcore as [->|(Hf0 & Hf1)]; [reflexivity|].
  destruct core as [|c t]; [reflexivity|].
  apply TrimFunc_unpadded; [discriminate|assumption|assumption].
Qed.

End Trim_padding.

Lemma ascii_white_space_spec (c : ascii) :
  In c ascii_white_space ->
  (byte_val c < 128)%Z /\ unicode.IsSpace (byte_val c) = true.
Proof.
  cbn [ascii_white_space In]. intuition subst; split; reflexivity.
Qed.

(** [TrimSpace] on a line with ASCII white space around a core that has no
    white space at its ends. *)
Lemma TrimSpace_padded (ws1 core ws2 : string) :
  ascii_white ws1 -> ascii_white ws2 -> unpadded (bytes core) ->
  strings.TrimSpace (ws1 ++ core ++ ws2) = core.
Proof.
  intros H1 H2 Hcore. unfold strings.TrimSpace.
  rewrite !bytes_app, TrimFunc_padded.
  - apply str_bytes.
  - eapply Forall_impl; [|exact H1]. apply ascii_white_space_spec.
  - eapply Forall_impl; [|exact H2]. apply ascii_white_space_spec.
  - exact Hcore.
Qed.

(** ** Trimming: the encodings that the scans step over *)

Section Encodings.

Local Open Scope list_scope.

Local Arguments byte_val : simpl never.
Local Arguments utf8.rune2 : simpl never.
Local Arguments utf8.rune3 : simpl never.
Local Arguments utf8.rune4 : simpl never.
Local Arguments utf8.is_cont : simpl never.
Local Arguments utf8.rejected : simpl never.

Lemma first_as b : utf8.first b = utf8.as_ -> (b < 128)%Z.
Proof.
  unfold utf8.first. destruct (b <? 0x80)%Z eqn:E; [intros _; now apply Z.ltb_lt in E|].
  split_ifs; discriminate.
Qed.

(** A byte that is no continuation byte is rejected as the second byte of
    every encoding. *)
Lemma rejected_not_cont accept b :
  utf8.is_cont b = false ->
  In accept [utf8.acceptRanges 0; utf8.acceptRanges 1; utf8.acceptRanges 2;
             utf8.acceptRanges 3; utf8.acceptRanges 4] ->
  utf8.rejected accept b = true.
Proof.
  unfold utf8.is_cont, utf8.rejected. change utf8.locb with 128%Z.
  change utf8.hicb with 191%Z. intros Hb H.
  apply andb_false_iff in Hb. apply orb_true_iff.
  cbn in H. unfold utf8.locb, utf8.hicb in H.
  destruct Hb as [Hb|Hb]; [apply Z.leb_gt in Hb; left|apply Z.leb_gt in Hb; right];
    apply Z.ltb_lt; intuition subst; cbn; lia.
Qed.

(** What [DecodeRune] returns is the error rune with width 1, an ASCII
    byte with width 1, or a rune with a width of two bytes or more. *)
Lemma DecodeRune_valid c t :
  utf8.DecodeRune (c :: t) = (utf8.RuneError, 1%nat)
  \/ ((byte_val c < 128)%Z /\ utf8.DecodeRune (c :: t) = (byte_val c, 1%nat))
  \/ ((128 <= byte_val c)%Z /\ (2 <= snd (utf8.DecodeRune (c :: t)))%nat).
Proof.
  destruct (Z.lt_ge_cases (byte_val c) 128) as [H|H].
  { right. left. split; [exact H|now apply DecodeRune_ascii]. }
  pose proof (first_cases (byte_val c)) as Hx.
  pose proof (first_as (byte_val c)) as Has.
  unfold utf8.DecodeRune.
  remember (utf8.first (byte_val c)) as x eqn:Ex.
  cbn [In] in Hx.
  destruct Hx as [<-|Hx]; [specialize (Has eq_refl); lia|].
  clear Has Ex.
  destruct t as [|c1 [|c2 [|c3 t]]];
    repeat (destruct Hx as [<-|Hx];
            [simpl; split_ifs; simpl; (now left) || (right; right; split; [exact H|lia])|]);
    contradiction.
Qed.

(** An encoding of two bytes or more is decoded in the same way whatever
    follows it. *)
Lemma DecodeRune_prefix p rest :
  (2 <= snd (utf8.DecodeRune p))%nat ->
  utf8.DecodeRune (firstn (snd (utf8.DecodeRune p)) p ++ rest) = utf8.DecodeRune p.
Proof.
  destruct p as [|c0 t]; [simpl; lia|].
  pose proof (first_cases (byte_val c0)) as Hx.
  destruct (utf8.DecodeRune (c0 :: t)) as [r n] eqn:Ed. cbn [snd]. intro Hn.
  unfold utf8.DecodeRune in Ed.
  remember (utf8.first (byte_val c0)) as x eqn:Ex.
  cbn [In] in Hx.
  destruct t as [|c1 [|c2 [|c3 t]]];
    repeat (destruct Hx as [<-|Hx];
            [simpl in Ed;
             repeat match type of Ed with
                    | context [if ?c then _ else _] => destruct c eqn:?
                    end;
             injection Ed as <- <-; try lia;
             cbn [firstn app]; unfold utf8.DecodeRune; rewrite <- Ex; simpl;
             repeat match goal with
                    | H : ?c = _ |- context [?c] => rewrite H
                    end; reflexivity|]);
    contradiction.
Qed.

(** A byte that is followed by the end of the string, or by a byte that is
    no continuation byte, is decoded with width 1. *)
Lemma DecodeRune_lone c rest :
  rest = [] \/ (exists c1 t, rest = c1 :: t /\ utf8.is_cont (byte_val c1) = false) ->
  snd (utf8.DecodeRune (c :: rest)) = 1%nat.
Proof.
  intro Hrest.
  unfold utf8.DecodeRune.
  generalize (first_cases (byte_val c)).
  generalize (utf8.first (byte_val c)) as x. intros x Hx.
  cbn [In] in Hx.
  destruct Hrest as [->|(c1 & t & -> & Hc1)].
  - repeat (destruct Hx as [<-|Hx]; [simpl; split_ifs; reflexivity|]); contradiction.
  - pose proof (fun accept => rejected_not_cont accept _ Hc1) as Hrej.
    repeat (destruct Hx as [<-|Hx];
            [simpl; rewrite ?Hrej by (simpl; tauto); simpl; split_ifs; reflexivity|]);
      contradiction.
Qed.

(** An encoding of two bytes or more does not begin with a continuation
    byte. *)
Lemma DecodeRune_head c t :
  (2 <= snd (utf8.DecodeRune (c :: t)))%nat -> utf8.is_cont (byte_val c) = false.
Proof.
  intro H. destruct (utf8.is_cont (byte_val c)) eqn:E; [exfalso|reflexivity].
  unfold utf8.is_cont in E. change utf8.locb with 128%Z in E.
  change utf8.hicb with 191%Z in E.
  apply andb_true_iff in E. destruct E as (E1 & E2).
  apply Z.leb_le in E1, E2.
  unfold utf8.DecodeRune, utf8.first in H.
  change 0x80%Z with 128%Z in H. change 0xC2%Z with 194%Z in H.
  replace (byte_val c <? 128)%Z with false in H by (symmetry; apply Z.ltb_ge; lia).
  replace (byte_val c <? 194)%Z with true in H by (symmetry; apply Z.ltb_lt; lia).
  simpl in H. lia.
Qed.

(** What [DecodeLastRune] returns, by the last byte of the string: an
    ASCII byte, the error rune with width 1, or what [DecodeRune] returns
    where the last encoding starts. *)
Lemma DecodeLastRune_shape (p : list ascii) :
  p <> [] ->
  let b := byte_val (nth (length p - 1) p zero) in
  ((b < 128)%Z /\ utf8.DecodeLastRune p = (b, 1%nat))
  \/ ((128 <= b)%Z
      /\ (utf8.DecodeLastRune p = (utf8.RuneError, 1%nat)
          \/ exists start,
              (start + snd (utf8.DecodeLastRune p) = length p)%nat
              /\ utf8.DecodeRune (skipn start p) = utf8.DecodeLastRune p)).
Proof.
  intros Hp b. unfold utf8.DecodeLastRune.
  assert (He : (1 <= Z.of_nat (length p))%Z).
  { destruct p; [congruence|]. simpl length. lia. }
  destruct (Z.of_nat (length p) =? 0)%Z eqn:E0; [apply Z.eqb_eq in E0; lia|].
  replace (Z.to_nat (Z.of_nat (length p) - 1)) with (length p - 1)%nat by lia.
  fold b. change utf8.RuneSelf with 128%Z.
  destruct (b <? 128)%Z eqn:Eb.
  - left. apply Z.ltb_lt in Eb. now split.
  - right. apply Z.ltb_ge in Eb. split; [exact Eb|].
    set (st := utf8.scan_start _ _ _ _).
    set (start := if (st <? 0)%Z then 0%Z else st).
    assert (Hstart : (0 <= start)%Z).
    { subst start. destruct (st <? 0)%Z eqn:E; [lia|]. apply Z.ltb_ge in E. lia. }
    destruct (utf8.DecodeRune (skipn (Z.to_nat start) p)) as [r size] eqn:Ed.
    destruct (start + Z.of_nat size =? Z.of_nat (length p))%Z eqn:E; cbn [negb snd].
    + right. apply Z.eqb_eq in E. exists (Z.to_nat start). split; [lia|exact Ed].
    + now left.
Qed.

End Encodings.

(** ** Trimming: what is removed is white space *)

Section Trim_white.

Local Open Scope list_scope.

Variable f : Z -> bool.
Hypothesis f_RuneError : f utf8.RuneError = false.

Lemma runes_cons (p : list ascii) :
  p <> [] ->
  utf8.runes p
  = fst (utf8.DecodeRune p) :: utf8.runes (skipn (snd (utf8.DecodeRune p)) p).
Proof.
  intro Hp. destruct p as [|c t]; [congruence|].
  unfold utf8.runes. cbn [length utf8.runes_fuel].
  pose proof (DecodeRune_size (c :: t) ltac:(discriminate)) as Hs.
  destruct (utf8.DecodeRune (c :: t)) as [r size]. cbn [fst snd] in *.
  f_equal. apply runes_fuel_enough; rewrite length_skipn; simpl length; lia.
Qed.

Lemma firstn_add {A} (a b : nat) (l : list A) :
  firstn (a + b) l = firstn a l ++ firstn b (skipn a l).
Proof.
  revert l. induction a as [|a IH]; intro l; [reflexivity|].
  destruct l as [|x l]; [now rewrite !firstn_nil|].
  cbn [Nat.add firstn skipn app]. now rewrite IH.
Qed.

Lemma skipn_firstn_app {A} (a n : nat) (l : list A) :
  (a <= n)%nat -> skipn a l = skipn a (firstn n l) ++ skipn n l.
Proof.
  intro H. rewrite <- (firstn_skipn n l) at 1.
  destruct (Nat.le_ge_cases n (length l)) as [Hn|Hn].
  - apply skipn_app_le. rewrite length_firstn. lia.
  - rewrite (skipn_all2 l) by lia. rewrite !app_nil_r. reflexivity.
Qed.

(** A rune that satisfies [f] is decoded in the same way whatever follows
    its encoding: the runes of what follows are the other runes. *)
Lemma runes_chunk (p rest : list ascii) :
  p <> [] ->
  f (fst (utf8.DecodeRune p)) = true ->
  utf8.runes (firstn (snd (utf8.DecodeRune p)) p ++ rest)
  = fst (utf8.DecodeRune p) :: utf8.runes rest.
Proof.
  intros Hp Hf. destruct p as [|c t]; [congruence|].
  pose proof (DecodeRune_size (c :: t) ltac:(discriminate)) as Hs.
  destruct (DecodeRune_valid c t) as [E|[(Hc & E)|(Hc & Hn)]].
  - rewrite E in Hf. cbn [fst] in Hf. congruence.
  - rewrite E. cbn [fst snd firstn app].
    rewrite runes_cons by discriminate.
    rewrite DecodeRune_ascii by exact Hc. reflexivity.
  - rewrite runes_cons.
    + rewrite DecodeRune_prefix by exact Hn. f_equal.
      rewrite skipn_app, skipn_all2 by (rewrite length_firstn; lia).
      rewrite length_firstn.
      replace (snd (utf8.DecodeRune (c :: t))
               - Nat.min (snd (utf8.DecodeRune (c :: t))) (length (c :: t)))%nat
        with 0%nat by lia.
      reflexivity.
    + destruct (snd (utf8.DecodeRune (c :: t))); [lia|discriminate].
Qed.

(** White space does not begin with a continuation byte. *)
Lemma all_f_head c t : all_runes f (c :: t) -> utf8.is_cont (byte_val c) = false.
Proof.
  unfold all_runes. rewrite runes_cons by discriminate. intro H.
  apply Forall_inv in H.
  destruct (DecodeRune_valid c t) as [E|[(Hc & E)|(Hc & Hn)]].
  - rewrite E in H. cbn [fst] in H. congruence.
  - now apply is_cont_ascii.
  - now apply DecodeRune_head in Hn.
Qed.

(** The forward scan steps over runes that satisfy [f] only. *)
Lemma indexFunc_from_white fuel :
  forall p i,
    (length p <= fuel)%nat ->
    (strings.indexFunc_from fuel f false p i = (-1)%Z /\ all_runes f p)
    \/ exists n,
        (n < length p)%nat
        /\ strings.indexFunc_from fuel f false p i = (i + Z.of_nat n)%Z
        /\ all_runes f (firstn n p)
        /\ f (fst (utf8.DecodeRune (skipn n p))) = false.
Proof.
  induction fuel as [|k IH]; intros p i Hlen.
  - destruct p; [|simpl in Hlen; lia]. left. split; [reflexivity|constructor].
  - destruct p as [|c t]; [left; split; [reflexivity|constructor]|].
    rewrite indexFunc_from_S.
    pose proof (DecodeRune_size (c :: t) ltac:(discriminate)) as Hs.
    destruct (f (fst (utf8.DecodeRune (c :: t)))) eqn:Ef; cbn [Bool.eqb].
    + destruct (IH (skipn (snd (utf8.DecodeRune (c :: t))) (c :: t))
                   (i + Z.of_nat (snd (utf8.DecodeRune (c :: t))))%Z)
        as [(Hr & Hw)|(n & Hn & Hr & Hw & Hstop)].
      { rewrite length_skipn. simpl length in *. lia. }
      * left. split; [exact Hr|]. unfold all_runes.
        rewrite runes_cons by discriminate. now constructor.
      * right. exists (snd (utf8.DecodeRune (c :: t)) + n)%nat.
        rewrite length_skipn in Hn. split; [lia|]. split; [rewrite Hr; lia|]. split.
        -- unfold all_runes. rewrite firstn_add, runes_chunk by (discriminate || exact Ef).
           now constructor.
        -- rewrite skipn_skipn in Hstop.
           now rewrite (Nat.add_comm (snd _) n).
    + right. exists 0%nat. split; [simpl; lia|]. split; [lia|].
      split; [constructor|exact Ef].
Qed.

(** The backward scan steps over runes that satisfy [f] only. *)
Lemma lastIndexFunc_from_white q fuel :
  forall i,
    (0 <= i <= Z.of_nat (length q))%Z -> (Z.to_nat i <= fuel)%nat ->
    all_runes f (skipn (Z.to_nat i) q) ->
    (strings.lastIndexFunc_from fuel f false q i = (-1)%Z /\ all_runes f q)
    \/ exists i0,
        (0 < i0 <= i)%Z
        /\ strings.lastIndexFunc_from fuel f false q i
           = (i0 - Z.of_nat (snd (utf8.DecodeLastRune (firstn (Z.to_nat i0) q))))%Z
        /\ f (fst (utf8.DecodeLastRune (firstn (Z.to_nat i0) q))) = false
        /\ all_runes f (skipn (Z.to_nat i0) q).
Proof.
  induction fuel as [|k IH]; intros i Hi Hfuel Hw.
  - left. split; [reflexivity|].
    replace (Z.to_nat i) with 0%nat in Hw by lia. exact Hw.
  - cbn [strings.lastIndexFunc_from].
    destruct (i <=? 0)%Z eqn:E.
    { apply Z.leb_le in E. left. split; [reflexivity|].
      replace (Z.to_nat i) with 0%nat in Hw by lia. exact Hw. }
    apply Z.leb_gt in E.
    set (p := firstn (Z.to_nat i) q) in *.
    assert (Hlen : length p = Z.to_nat i).
    { subst p. rewrite length_firstn. lia. }
    assert (Hp : p <> []).
    { intro Hnil. rewrite Hnil in Hlen. simpl in Hlen. lia. }
    pose proof (DecodeLastRune_size p Hp) as Hsize.
    destruct (f (fst (utf8.DecodeLastRune p))) eqn:Ef.
    2:{ right. exists i. fold p. split; [lia|].
        destruct (utf8.DecodeLastRune p) as [r0 size]. cbn [fst snd] in *.
        rewrite Ef. cbn [Bool.eqb]. repeat split; auto. }
    assert (Hstep :
              (Z.of_nat (snd (utf8.DecodeLastRune p)) <= i)%Z
              /\ all_runes f
                   (skipn (Z.to_nat (i - Z.of_nat (snd (utf8.DecodeLastRune p)))) q)).
    { destruct (DecodeLastRune_shape p Hp)
        as [(Hb & Hd)|(Hb & [Hd|(start & Hst & Hd)])]; cbv zeta in *.
      - rewrite Hd in *. cbn [fst snd] in *. split; [lia|].
        replace (Z.to_nat (i - Z.of_nat 1)) with (length p - 1)%nat by lia.
        rewrite (skipn_nth_cons zero) by lia.
        replace (S (length p - 1)) with (Z.to_nat i) by lia.
        replace (nth (length p - 1) q zero) with (nth (length p - 1) p zero)
          by (subst p; apply nth_firstn_lt; lia).
        unfold all_runes. rewrite runes_cons by discriminate.
        rewrite DecodeRune_ascii by exact Hb. cbn [fst snd skipn].
        now constructor.
      - rewrite Hd in Ef. cbn [fst] in Ef. congruence.
      - split; [lia|].
        replace (Z.to_nat (i - Z.of_nat (snd (utf8.DecodeLastRune p)))) with start by lia.
        rewrite (skipn_firstn_app start (Z.to_nat i)) by lia. fold p.
        assert (Hchunk : length (skipn start p) = snd (utf8.DecodeLastRune p)).
        { rewrite length_skipn. lia. }
        assert (Hne : skipn start p <> []).
        { intro Hnil. rewrite Hnil in Hchunk. simpl in Hchunk. lia. }
        rewrite <- Hd in Ef.
        pose proof (runes_chunk (skipn start p) (skipn (Z.to_nat i) q) Hne Ef) as Hr.
        rewrite Hd in Hr at 1. rewrite <- Hchunk in Hr at 1.
        rewrite firstn_all in Hr.
        unfold all_runes. rewrite Hr. now constructor. }
    destruct Hstep as (Hle & Hw').
    destruct (utf8.DecodeLastRune p) as [r0 size]. cbn [fst snd] in *.
    rewrite Ef. cbn [Bool.eqb].
    destruct (IH (i - Z.of_nat size)%Z) as [(Hr & Hall)|(i0 & Hi0 & Hr & Hf & Hrest)];
      [lia|lia|exact Hw'| |].
    + left. now split.
    + right. exists i0. split; [lia|]. now repeat split.
Qed.

(** The first rune of a prefix: it satisfies [f] only if the first rune of
    the string does. *)
Lemma DecodeRune_firstn (m : nat) (q : list ascii) :
  f (fst (utf8.DecodeRune q)) = false ->
  f (fst (utf8.DecodeRune (firstn m q))) = false.
Proof.
  intro Hq.
  destruct (firstn m q) as [|c t] eqn:E; [exact f_RuneError|].
  destruct (DecodeRune_valid c t) as [Ed|[(Hc & Ed)|(Hc & Hn)]].
  - rewrite Ed. exact f_RuneError.
  - rewrite Ed. cbn [fst].
    destruct q as [|c' q']; [now destruct m|].
    destruct m; [discriminate|]. cbn [firstn] in E. injection E as -> _.
    now rewrite DecodeRune_ascii in Hq by exact Hc.
  - pose proof (DecodeRune_prefix (c :: t) (skipn (snd (utf8.DecodeRune (c :: t))) q) Hn)
      as Hpre.
    pose proof (DecodeRune_size (c :: t) ltac:(discriminate)) as Hs.
    assert (Hm : (length (c :: t) <= m)%nat).
    { rewrite <- E. rewrite length_firstn. lia. }
    set (w := snd (utf8.DecodeRune (c :: t))) in *.
    assert (Hw : firstn w (c :: t) = firstn w q).
    { rewrite <- E, firstn_firstn. f_equal. lia. }
    rewrite Hw, firstn_skipn in Hpre. now rewrite <- Hpre.
Qed.

(** [TrimFunc] removes runes that satisfy [f] at both ends, and what it
    returns neither begins nor ends with such a rune. *)
Lemma TrimFunc_trimmed (s : list ascii) :
  exists pre post,
    s = pre ++ strings.TrimFunc s f ++ post
    /\ all_runes f pre /\ all_runes f post
    /\ (strings.TrimFunc s f = []
        \/ (f (fst (utf8.DecodeRune (strings.TrimFunc s f))) = false
            /\ f (fst (utf8.DecodeLastRune (strings.TrimFunc s f))) = false)).
Proof.
  unfold strings.TrimFunc.
  destruct (indexFunc_from_white (length s) s 0 (Nat.le_refl _))
    as [(Hr & Hw)|(n & Hn & Hr & Hw & Hstop)];
    fold (strings.indexFunc s f false) in Hr.
  { exists s, []. unfold strings.TrimLeftFunc. rewrite Hr. cbn.
    rewrite app_nil_r. repeat split; auto. constructor. }
  assert (Hleft : strings.TrimLeftFunc s f = skipn n s).
  { unfold strings.TrimLeftFunc. rewrite Hr.
    destruct (0 + Z.of_nat n =? -1)%Z eqn:E; [apply Z.eqb_eq in E; lia|].
    now replace (Z.to_nat (0 + Z.of_nat n)) with n by lia. }
  rewrite Hleft. set (q := skipn n s) in *.
  assert (Hs : s = firstn n s ++ q) by (symmetry; apply firstn_skipn).
  destruct (lastIndexFunc_from_white q (length q) (Z.of_nat (length q)))
    as [(Hl & Hall)|(i0 & Hi0 & Hl & Hf & Hrest)];
    fold (strings.lastIndexFunc q f false) in *.
  { lia. }
  { lia. }
  { rewrite Nat2Z.id, skipn_all. constructor. }
  { exists (firstn n s), q. unfold strings.TrimRightFunc. rewrite Hl. cbn.
    repeat split; auto. }
  set (p := firstn (Z.to_nat i0) q) in *.
  assert (Hlen : length p = Z.to_nat i0).
  { subst p. rewrite length_firstn. lia. }
  assert (Hp : p <> []).
  { intro Hnil. rewrite Hnil in Hlen. simpl in Hlen. lia. }
  assert (Hnth : nth (length p - 1) p zero = nth (Z.to_nat i0 - 1) q zero).
  { subst p. rewrite Hlen. apply nth_firstn_lt. lia. }
  assert (Hlone : forall c, snd (utf8.DecodeRune (c :: skipn (Z.to_nat i0) q)) = 1%nat).
  { intro c. apply DecodeRune_lone.
    destruct (skipn (Z.to_nat i0) q) as [|c1 t] eqn:E; [now left|right].
    exists c1, t. split; [reflexivity|]. now apply all_f_head in Hrest. }
  assert (Hright : strings.TrimRightFunc q f = p).
  { unfold strings.TrimRightFunc. rewrite Hl. change utf8.RuneSelf with 128%Z.
    pose proof (DecodeLastRune_size p Hp) as Hsize.
    assert (Hend : forall j, Z.to_nat j = Z.to_nat i0 -> firstn (Z.to_nat j) q = p).
    { intros j ->. reflexivity. }
    destruct (DecodeLastRune_shape p Hp)
      as [(Hb & Hd)|(Hb & [Hd|(start & Hst & Hd)])]; cbv zeta in *;
      rewrite Hnth in Hb.
    - rewrite Hd. cbn [snd].
      replace (Z.to_nat (i0 - Z.of_nat 1)) with (Z.to_nat i0 - 1)%nat by lia.
      destruct (128 <=? _)%Z eqn:Eb; [apply Z.leb_le in Eb; lia|].
      rewrite andb_false_r. apply Hend. lia.
    - rewrite Hd. cbn [snd].
      replace (Z.to_nat (i0 - Z.of_nat 1)) with (Z.to_nat i0 - 1)%nat by lia.
      destruct (0 <=? i0 - Z.of_nat 1)%Z eqn:E0; [|apply Z.leb_gt in E0; lia].
      destruct (128 <=? _)%Z eqn:Eb; cbn [andb]; [|apply Hend; lia].
      rewrite (skipn_nth_cons zero) by lia.
      replace (S (Z.to_nat i0 - 1)) with (Z.to_nat i0) by lia.
      rewrite Hlone. apply Hend. lia.
    - set (size := snd (utf8.DecodeLastRune p)) in *.
      replace (Z.to_nat (i0 - Z.of_nat size)) with start by lia.
      destruct (0 <=? i0 - Z.of_nat size)%Z eqn:E0; [|apply Z.leb_gt in E0; lia].
      assert (Hchunk : length (skipn start p) = size).
      { rewrite length_skipn. lia. }
      assert (Hsk : skipn start q = skipn start p ++ skipn (Z.to_nat i0) q).
      { subst p. apply skipn_firstn_app. lia. }
      assert (Hhd : skipn start p = nth start q zero :: skipn (S start) p).
      { rewrite (skipn_nth_cons zero) by lia. f_equal.
        subst p. apply nth_firstn_lt. lia. }
      destruct (128 <=? _)%Z eqn:Eb; cbn [andb].
      + rewrite Hsk.
        destruct (Nat.eq_dec size 1) as [E1|E1].
        * assert (Hone : skipn start p = [nth start q zero]).
          { rewrite Hhd. f_equal. apply length_zero_iff_nil.
            rewrite length_skipn. lia. }
          rewrite Hone. cbn [app]. rewrite Hlone. apply Hend. lia.
        * pose proof (DecodeRune_prefix (skipn start p) (skipn (Z.to_nat i0) q)) as Hpre.
          rewrite Hd in Hpre. fold size in Hpre. rewrite <- Hchunk in Hpre at 2.
          rewrite firstn_all in Hpre. rewrite Hpre by lia. fold size.
          apply Hend. lia.
      + apply Z.leb_gt in Eb.
        rewrite Hhd, DecodeRune_ascii in Hd by exact Eb.
        assert (E : size = 1%nat) by (subst size; now rewrite <- Hd).
        apply Hend. lia. }
  rewrite Hright.
  exists (firstn n s), (skipn (Z.to_nat i0) q).
  split; [|split; [exact Hw|split; [exact Hrest|]]].
  - subst p. now rewrite firstn_skipn.
  - right. split; [|exact Hf]. subst p. now apply DecodeRune_firstn.
Qed.

End Trim_white.

(** [TrimSpace] trims the surrounding white space of every line. *)
Lemma TrimSpace_trimmed (line : string) : trimmed line (strings.TrimSpace line).
Proof.
  destruct (TrimFunc_trimmed unicode.IsSpace eq_refl (bytes line))
    as (pre & post & Hs & Hpre & Hpost & Hends).
  exists pre, post. unfold strings.TrimSpace. rewrite bytes_str.
  repeat split; assumption.
Qed.


(** ** Paths that are already clean *)

Section Paths.

Local Open Scope list_scope.

Import filepath.

Lemma list_ascii_eqb_spec a b : reflect (a = b) (list_ascii_eqb a b).
Proof.
  unfold list_ascii_eqb. destruct (String.eqb_spec (str a) (str b)) as [H|H].
  - left. apply (f_equal bytes) in H. now rewrite !bytes_str in H.
  - right. intros ->. now apply H.
Qed.

Lemma list_ascii_eqb_refl a : list_ascii_eqb a a = true.
Proof. now destruct (list_ascii_eqb_spec a a). Qed.

Lemma list_ascii_eqb_neq a b : a <> b -> list_ascii_eqb a b = false.
Proof. now destruct (list_ascii_eqb_spec a b). Qed.

Lemma split_no_sep e :
  Forall (fun c => IsPathSeparator c = false) e -> split e = [e].
Proof.
  induction 1 as [|c e Hc _ IH]; [reflexivity|].
  cbn [split]. now rewrite Hc, IH.
Qed.

Lemma split_app_sep e p :
  Forall (fun c => IsPathSeparator c = false) e ->
  split (e ++ Separator :: p) = e :: split p.
Proof.
  induction 1 as [|c e Hc _ IH]; cbn [app split].
  - reflexivity.
  - now rewrite Hc, IH.
Qed.

Lemma split_join es :
  es <> [] -> Forall elem_ok es -> split (join es) = es.
Proof.
  intros Hne Hall. induction Hall as [|e es He Hes IH]; [congruence|].
  destruct es as [|e' es'].
  - cbn [join]. apply split_no_sep, He.
  - change (join (e :: e' :: es')) with (e ++ Separator :: join (e' :: es')).
    rewrite split_app_sep by apply He. f_equal. apply IH. discriminate.
Qed.

Lemma join_app_one es e :
  es <> [] -> join (es ++ [e]) = join es ++ Separator :: e.
Proof.
  induction es as [|x es IH]; [congruence|]. intros _.
  destruct es as [|y es'].
  - reflexivity.
  - change (join ((x :: y :: es') ++ [e]))
      with (x ++ Separator :: join ((y :: es') ++ [e])).
    rewrite IH by discriminate.
    change (join (x :: y :: es')) with (x ++ Separator :: join (y :: es')).
    now rewrite <- app_assoc.
Qed.

Lemma join_app es fs :
  es <> [] -> fs <> [] -> join (es ++ fs) = join es ++ Separator :: join fs.
Proof.
  induction es as [|x es IH]; [congruence|]. intros _ Hfs.
  destruct es as [|y es'].
  - cbn [app]. destruct fs; [congruence|reflexivity].
  - change (join ((x :: y :: es') ++ fs))
      with (x ++ Separator :: join ((y :: es') ++ fs)).
    rewrite IH by (discriminate || assumption).
    change (join (x :: y :: es')) with (x ++ Separator :: join (y :: es')).
    now rewrite <- app_assoc.
Qed.

Lemma clean_step_ok rooted out e :
  elem_ok e -> clean_step rooted out e = e :: out.
Proof.
  intros (H1 & H2 & H3 & _). unfold clean_step.
  now rewrite !list_ascii_eqb_neq by assumption.
Qed.

Lemma fold_clean_ok rooted es :
  Forall elem_ok es ->
  forall out, fold_left (clean_step rooted) es out = rev es ++ out.
Proof.
  induction 1 as [|e es He _ IH]; intro out; [reflexivity|].
  cbn [fold_left rev]. rewrite clean_step_ok by assumption.
  now rewrite IH, <- app_assoc.
Qed.

Lemma clean_elems_ok rooted es :
  Forall elem_ok es -> clean_elems rooted es = es.
Proof.
  intro H. unfold clean_elems. rewrite fold_clean_ok by assumption.
  now rewrite app_nil_r, rev_involutive.
Qed.

(** The elements, possibly empty, that [Clean] reads from the runs of
    separators in front of the elements of a cleaned path. *)
Lemma clean_elems_skip_empty rooted es :
  clean_elems rooted ([] :: es) = clean_elems rooted es.
Proof. reflexivity. Qed.

Lemma Clean_rooted es :
  Forall elem_ok es -> Clean_bytes (rooted_path es) = rooted_path es.
Proof.
  intro H. unfold Clean_bytes, rooted_path.
  cbn [is_rooted]. change (IsPathSeparator Separator) with true. cbv iota.
  f_equal. f_equal.
  change (split (Separator :: join es)) with ([] :: split (join es)).
  rewrite clean_elems_skip_empty.
  destruct es as [|e es].
  - reflexivity.
  - rewrite split_join by (discriminate || assumption).
    now apply clean_elems_ok.
Qed.

Lemma Clean_rooted_join es fs :
  Forall elem_ok es -> Forall elem_ok fs -> fs <> [] ->
  Clean_bytes (rooted_path es ++ Separator :: join fs) = rooted_path (es ++ fs).
Proof.
  intros Hes Hfs Hne. destruct es as [|e es].
  - unfold rooted_path at 1. cbn [join app].
    unfold Clean_bytes. cbn [is_rooted]. change (IsPathSeparator Separator) with true.
    cbv iota. unfold rooted_path. f_equal. f_equal.
    change (split (Separator :: Separator :: join fs)) with ([] :: [] :: split (join fs)).
    rewrite !clean_elems_skip_empty, split_join by assumption.
    now apply clean_elems_ok.
  - replace (rooted_path (e :: es) ++ Separator :: join fs)
      with (rooted_path ((e :: es) ++ fs)).
    + apply Clean_rooted. now apply Forall_app.
    + unfold rooted_path. rewrite join_app by (discriminate || assumption).
      reflexivity.
Qed.

Lemma rel_elems_rooted es :
  Forall elem_ok es -> rel_elems (rooted_path es) = es.
Proof.
  intro H. unfold rel_elems, rooted_path.
  change (split (Separator :: join es)) with ([] :: split (join es)).
  cbn [filter]. rewrite list_ascii_eqb_refl. cbn [negb].
  destruct es as [|e es]; [reflexivity|].
  rewrite split_join by (discriminate || assumption).
  apply forallb_filter_id. apply forallb_forall. intros x Hx.
  rewrite Forall_forall in H. destruct (H x Hx) as (Hne & _).
  now rewrite list_ascii_eqb_neq.
Qed.

Lemma strip_common_prefix ds ns :
  strip_common ds (ds ++ ns) = ([], ns).
Proof.
  induction ds as [|d ds IH]; cbn [app strip_common].
  - now destruct ns.
  - now rewrite list_ascii_eqb_refl.
Qed.

Lemma join_length_app es fs :
  es <> [] -> fs <> [] -> (length (join es) < length (join (es ++ fs)))%nat.
Proof.
  intros H1 H2. rewrite join_app by assumption.
  rewrite length_app. simpl. lia.
Qed.

Lemma join_nonempty fs :
  fs <> [] -> Forall elem_ok fs -> join fs <> [].
Proof.
  intros Hne Hall. destruct Hall as [|e fs (He & _) _]; [congruence|].
  destruct fs; cbn [join]; [assumption|].
  destruct e; [congruence|discriminate].
Qed.

Lemma rooted_path_neq ds ns :
  Forall elem_ok ns -> ns <> [] -> rooted_path (ds ++ ns) <> rooted_path ds.
Proof.
  intros Hns Hne Heq. apply (f_equal (@length _)) in Heq.
  unfold rooted_path in Heq. cbn [length] in Heq.
  destruct ds as [|d ds].
  - cbn [app join length] in Heq.
    pose proof (join_nonempty ns Hne Hns) as H.
    destruct (join ns); [congruence|discriminate].
  - pose proof (join_length_app (d :: ds) ns ltac:(discriminate) Hne). lia.
Qed.

End Paths.

(** ** Paths as strings *)

Lemma bytes_concat (ns : list string) :
  bytes (String.concat "/" ns) = filepath.join (map bytes ns).
Proof.
  induction ns as [|n ns IH]; [reflexivity|].
  destruct ns as [|m ns]; [reflexivity|].
  change (String.concat "/" (n :: m :: ns))
    with (n ++ "/" ++ String.concat "/" (m :: ns)).
  rewrite !bytes_app, IH. reflexivity.
Qed.

Lemma bytes_abs_path (ds : list string) :
  bytes (abs_path ds) = rooted_path (map bytes ds).
Proof.
  unfold abs_path, rooted_path. rewrite bytes_app, bytes_concat. reflexivity.
Qed.

Lemma valid_names_elems (ns : list string) :
  Forall valid_name ns -> Forall elem_ok (map bytes ns).
Proof. intro H. apply Forall_map. exact H. Qed.

Lemma abs_path_not_empty ds : String.eqb (abs_path ds) "" = false.
Proof. reflexivity. Qed.

Lemma map_bytes_nonempty (ns : list string) : ns <> [] -> map bytes ns <> [].
Proof. now destruct ns. Qed.

(** [filepath.Join] under a clean absolute path appends the elements. *)
Lemma Join_abs_path (ds ns : list string) :
  Forall valid_name ds -> Forall valid_name ns -> ns <> [] ->
  filepath.Join (abs_path ds) (rel_path ns) = abs_path (ds ++ ns).
Proof.
  intros Hds Hns Hne. unfold filepath.Join. rewrite abs_path_not_empty.
  unfold filepath.Clean, rel_path.
  rewrite !bytes_app, bytes_abs_path, bytes_concat.
  change (bytes "/") with [filepath.Separator]. cbn [app].
  rewrite Clean_rooted_join
    by (auto using valid_names_elems, map_bytes_nonempty).
  rewrite <- map_app, <- bytes_abs_path. apply str_bytes.
Qed.

Lemma Join_abs_name (ds : list string) (name : string) :
  Forall valid_name ds -> valid_name name ->
  filepath.Join (abs_path ds) name = abs_path (ds ++ [name]).
Proof.
  intros Hds Hn. apply (Join_abs_path ds [name]); auto. discriminate.
Qed.

(** [filepath.Rel] of a path below a clean absolute base. *)
Lemma Rel_abs_path (ds ns : list string) :
  Forall valid_name ds -> Forall valid_name ns ->
  filepath.Rel (abs_path ds) (abs_path (ds ++ ns)) = inl (render ns).
Proof.
  intros Hds Hns. unfold filepath.Rel.
  rewrite !bytes_abs_path, map_app.
  rewrite !Clean_rooted
    by (try apply Forall_app; auto using valid_names_elems).
  destruct ns as [|n ns].
  - cbn [map]. rewrite app_nil_r, list_ascii_eqb_refl. reflexivity.
  - rewrite list_ascii_eqb_neq
      by (apply rooted_path_neq; [now apply valid_names_elems|discriminate]).
    rewrite (list_ascii_eqb_neq (rooted_path (map bytes ds)) filepath.dot)
      by discriminate.
    cbn [filepath.is_rooted rooted_path Bool.eqb negb].
    change (filepath.IsPathSeparator filepath.Separator) with true.
    cbn [Bool.eqb negb].
    fold (rooted_path (map bytes ds)).
    fold (rooted_path (map bytes ds ++ map bytes (n :: ns))).
    rewrite !rel_elems_rooted
      by (try apply Forall_app; auto using valid_names_elems).
    rewrite strip_common_prefix.
    unfold render, rel_path. rewrite <- bytes_concat, str_bytes. reflexivity.
Qed.

(** The last element of a path is its base name. *)
Lemma Base_rel_path (ns : list string) (name : string) :
  valid_name name ->
  filepath.Base (rel_path (ns ++ [name])) = name.
Proof.
  intros (Hne & _ & _ & Hsep). unfold filepath.Base.
  assert (Hb : bytes (rel_path (ns ++ [name])) =
               (match ns with
                | [] => []
                | _ => filepath.join (map bytes ns) ++ [filepath.Separator]
                end ++ bytes name)%list).
  { unfold rel_path. rewrite bytes_concat, map_app. cbn [map].
    destruct ns as [|n ns]; [reflexivity|].
    rewrite join_app_one by discriminate. now rewrite <- app_assoc. }
  destruct (String.eqb_spec (rel_path (ns ++ [name])) "") as [E|_].
  { apply (f_equal bytes) in E. rewrite Hb in E.
    apply app_eq_nil in E. destruct E as [_ E]. contradiction. }
  rewrite Hb, rev_app_distr.
  assert (Hrev : Forall (fun c => negb (filepath.IsPathSeparator c) = true)
                        (rev (bytes name))).
  { apply Forall_rev. eapply Forall_impl; [|exact Hsep].
    intros c Hc. now rewrite Hc. }
  assert (Hdrop : forall r, dropWhile filepath.IsPathSeparator (rev (bytes name) ++ r)
                            = (rev (bytes name) ++ r)%list).
  { intro r. destruct (rev (bytes name)) as [|c l] eqn:E.
    - apply (f_equal (@rev _)) in E. rewrite rev_involutive in E. contradiction.
    - cbn [app dropWhile]. inversion Hrev as [|? ? Hc _]; subst.
      now destruct (filepath.IsPathSeparator c). }
  rewrite Hdrop.
  assert (Htake : takeWhile (fun c => negb (filepath.IsPathSeparator c))
                            (rev (bytes name) ++
                             rev match ns with
                                 | [] => []
                                 | _ :: _ => filepath.join (map bytes ns) ++ [filepath.Separator]
                                 end) = rev (bytes name)).
  { rewrite takeWhile_app_all by exact Hrev.
    destruct ns as [|n ns]; cbn [rev takeWhile].
    - apply app_nil_r.
    - rewrite rev_app_distr. cbn [rev app takeWhile].
      change (filepath.IsPathSeparator filepath.Separator) with true.
      cbn [negb]. apply app_nil_r. }
  rewrite Htake, rev_involutive.
  destruct (bytes name) eqn:E; [contradiction|]. rewrite <- E. apply str_bytes.
Qed.

(** ** The roots that [main] resolves are clean absolute paths *)

Section Abs_paths.

Local Open Scope list_scope.

Import filepath.

Lemma split_elems_no_sep (p : list ascii) :
  Forall (Forall (fun c => IsPathSeparator c = false)) (split p).
Proof.
  induction p as [|c t IH]; cbn [split].
  - repeat constructor.
  - destruct (IsPathSeparator c) eqn:E.
    + constructor; [constructor|exact IH].
    + destruct (split t) as [|e es].
      * repeat constructor. exact E.
      * inversion IH; subst. constructor; [now constructor|assumption].
Qed.

Lemma clean_step_rooted_ok (out : list (list ascii)) (e : list ascii) :
  Forall elem_ok out ->
  Forall (fun c => IsPathSeparator c = false) e ->
  Forall elem_ok (clean_step true out e).
Proof.
  intros Hout He. unfold clean_step.
  destruct (list_ascii_eqb_spec e []) as [->|H1]; [exact Hout|].
  destruct (list_ascii_eqb_spec e dot) as [->|H2]; [exact Hout|].
  cbn [orb].
  destruct (list_ascii_eqb_spec e dotdot) as [->|H3].
  - destruct out as [|top rest]; [constructor|].
    inversion Hout as [|? ? (_ & _ & Htop & _) Hrest]; subst.
    now rewrite list_ascii_eqb_neq.
  - constructor; [|exact Hout]. repeat split; assumption.
Qed.

Lemma fold_clean_rooted_ok (es : list (list ascii)) :
  Forall (Forall (fun c => IsPathSeparator c = false)) es ->
  forall out, Forall elem_ok out ->
              Forall elem_ok (fold_left (clean_step true) es out).
Proof.
  induction 1 as [|e es He _ IH]; intros out Hout; [exact Hout|].
  cbn [fold_left]. apply IH. now apply clean_step_rooted_ok.
Qed.

Lemma Clean_rooted_form (p : list ascii) :
  is_rooted p = true ->
  exists es, Forall elem_ok es /\ Clean_bytes p = rooted_path es.
Proof.
  intro Hr. exists (clean_elems true (split p)). split.
  - unfold clean_elems. apply Forall_rev.
    apply fold_clean_rooted_ok; [apply split_elems_no_sep|constructor].
  - unfold Clean_bytes. destruct p as [|c q]; [discriminate|].
    now rewrite Hr.
Qed.

End Abs_paths.

Lemma Clean_abs_form (s : string) :
  filepath.IsAbs s = true ->
  exists ds, Forall valid_name ds /\ filepath.Clean s = abs_path ds.
Proof.
  intro Habs. destruct (Clean_rooted_form (bytes s) Habs) as (es & Hes & E).
  exists (map str es). split.
  - apply Forall_map. eapply Forall_impl; [|exact Hes].
    intros e He. unfold valid_name. now rewrite bytes_str.
  - apply bytes_inj. unfold filepath.Clean.
    rewrite bytes_str, bytes_abs_path, E, map_map.
    f_equal. rewrite <- (map_id es) at 1. apply map_ext. intro e.
    now rewrite bytes_str.
Qed.

(** The result of [filepath.Abs], with an absolute working directory, is a
    clean absolute path. *)
Lemma Abs_form env (path a : string) :
  (forall wd, os_Getwd env = inl wd -> filepath.IsAbs wd = true) ->
  Abs env path = inl a ->
  exists ds, Forall valid_name ds /\ a = abs_path ds.
Proof.
  intros Hwd. unfold Abs.
  destruct (filepath.IsAbs path) eqn:E.
  - intro H. injection H as <-. now apply Clean_abs_form.
  - destruct (os_Getwd env) as [wd|err]; [|discriminate].
    intro H. injection H as <-.
    specialize (Hwd wd eq_refl). unfold filepath.Join.
    destruct wd as [|c wd]; [discriminate|]. cbn [String.eqb].
    apply Clean_abs_form. exact Hwd.
Qed.

(** ** The Name Deriver *)

Section Deriver_refinement.

Local Open Scope list_scope.

Lemma str_app (a b : list ascii) : str (a ++ b) = (str a ++ str b)%string.
Proof.
  apply bytes_inj. now rewrite bytes_app, !bytes_str.
Qed.

Lemma takeWhile_dropWhile {A} (f : A -> bool) (l : list A) :
  takeWhile f l ++ dropWhile f l = l.
Proof.
  induction l as [|x l IH]; cbn; [reflexivity|].
  destruct (f x); cbn; [now rewrite IH|reflexivity].
Qed.

Lemma dropWhile_existsb (l : list ascii) :
  existsb is_dot l = true ->
  exists b, dropWhile not_dot l = "."%char :: b.
Proof.
  induction l as [|x l IH]; cbn; [discriminate|].
  unfold not_dot. destruct (is_dot x) eqn:E; cbn.
  - intros _. exists l. f_equal. unfold is_dot in E. now apply Ascii.eqb_eq in E.
  - exact IH.
Qed.

Lemma existsb_rev {A} (f : A -> bool) (l : list A) :
  existsb f (rev l) = existsb f l.
Proof.
  induction l as [|x l IH]; [reflexivity|].
  cbn [rev]. rewrite existsb_app, IH. cbn. now rewrite orb_false_r, orb_comm.
Qed.

(** The loop of [Ext] finds the last dot of the last element. *)
Lemma ext_scan_spec (r : list ascii) :
  forall acc,
    filepath.ext_scan r acc =
    if existsb is_dot (takeWhile not_sep r)
    then "."%char :: rev (takeWhile not_dot (takeWhile not_sep r)) ++ acc
    else [].
Proof.
  induction r as [|c r IH]; intro acc; [reflexivity|].
  cbn [filepath.ext_scan takeWhile].
  assert (Hns : not_sep c = negb (filepath.IsPathSeparator c)) by reflexivity.
  assert (Hnd : not_dot c = negb (Ascii.eqb c "."%char)) by reflexivity.
  assert (Hd : is_dot c = Ascii.eqb c "."%char) by reflexivity.
  rewrite Hns.
  destruct (filepath.IsPathSeparator c); [reflexivity|].
  cbn [negb existsb takeWhile]. rewrite Hnd, Hd.
  destruct (Ascii.eqb_spec c "."%char) as [->|Hc]; cbn [negb orb rev app].
  - reflexivity.
  - rewrite IH. destruct (existsb is_dot (takeWhile not_sep r)); [|reflexivity].
    now rewrite <- app_assoc.
Qed.

Lemma TrimSuffix_bytes (e x : list ascii) (pre : list ascii) :
  e = pre ++ x ->
  strings.TrimSuffix (str e) (str x) = str pre.
Proof.
  intros ->. unfold strings.TrimSuffix, strings.HasSuffix.
  rewrite !bytes_str, length_app.
  replace (length x <=? length pre + length x)%nat with true
    by (symmetry; apply Nat.leb_le; lia).
  replace (length pre + length x - length x)%nat with (length pre) by lia.
  rewrite skipn_app, skipn_all, Nat.sub_diag. cbn [skipn app andb].
  unfold list_ascii_eqb. rewrite String.eqb_refl.
  rewrite firstn_app, firstn_all, Nat.sub_diag. cbn [firstn].
  now rewrite app_nil_r.
Qed.

Lemma Base_names_a_file (f : string) :
  names_a_file f -> filepath.Base f = str (strip_directories (bytes f)).
Proof.
  unfold names_a_file, filepath.Base, strip_directories. intro H.
  destruct (String.eqb_spec f "") as [->|_]; [destruct H|].
  destruct (rev (bytes f)) as [|c r]; [destruct H|].
  change (fun c0 : ascii => negb (filepath.IsPathSeparator c0)) with not_sep.
  cbn [dropWhile]. rewrite H.
  assert (Hc : not_sep c = true) by (unfold not_sep; now rewrite H).
  cbn [takeWhile]. rewrite Hc. cbn [rev].
  destruct (rev (takeWhile not_sep r) ++ [c]) eqn:E; [|reflexivity].
  apply app_eq_nil in E. destruct E. discriminate.
Qed.

Lemma stem_names_a_file (f : string) :
  names_a_file f ->
  strings.TrimSuffix (filepath.Base f) (filepath.Ext f)
  = str (strip_extension (strip_directories (bytes f))).
Proof.
  intro H. rewrite Base_names_a_file by exact H.
  unfold filepath.Ext. rewrite ext_scan_spec, app_nil_r.
  unfold strip_extension, strip_directories.
  set (w := takeWhile not_sep (rev (bytes f))).
  rewrite existsb_rev, rev_involutive.
  destruct (existsb is_dot w) eqn:E.
  - destruct (dropWhile_existsb w E) as (b & Hb). rewrite Hb. cbn [tl].
    apply TrimSuffix_bytes.
    rewrite <- (takeWhile_dropWhile not_dot w) at 1. rewrite Hb.
    rewrite rev_app_distr. cbn [rev]. now rewrite <- app_assoc.
  - apply (TrimSuffix_bytes _ [] (rev w)). now rewrite app_nil_r.
Qed.

Lemma dash_non_alnum_sanitize (r : Z) :
  ascii_of_Z (sanitize r) = dash_non_alnum r.
Proof. unfold sanitize, dash_non_alnum. now destruct (is_alnum r). Qed.

Lemma appendInt_two_digits (n : Z) :
  (0 <= n < 100)%Z -> time.appendInt n 2 = two_digits n.
Proof.
  intro H.
  assert (Hall : forallb (fun k => list_ascii_eqb (time.appendInt (Z.of_nat k) 2)
                                                  (two_digits (Z.of_nat k)))
                         (seq 0 100) = true) by (vm_compute; reflexivity).
  rewrite forallb_forall in Hall.
  specialize (Hall (Z.to_nat n)). rewrite Z2Nat.id in Hall by lia.
  apply (reflect_iff _ _ (list_ascii_eqb_spec _ _)). apply Hall.
  apply in_seq. lia.
Qed.

Lemma Format_YY_MM_DD (t : Time) :
  time.valid t -> time.Format_06_01_02 t = str (YY_MM_DD t).
Proof.
  intros (Hy & Hm & Hd). unfold time.Format_06_01_02, YY_MM_DD.
  rewrite Z.abs_eq by exact Hy.
  rewrite !appendInt_two_digits; try lia; [reflexivity|].
  apply Z.mod_pos_bound. lia.
Qed.

End Deriver_refinement.

(** ** The order of a listing *)

Lemma ascii_compare_N (a b : ascii) :
  Ascii.compare a b = N.compare (N_of_ascii a) (N_of_ascii b).
Proof. reflexivity. Qed.

Lemma ascii_compare_refl (a : ascii) : Ascii.compare a a = Eq.
Proof. rewrite ascii_compare_N. apply N.compare_refl. Qed.

Lemma string_compare_lt_trans (a : string) :
  forall b c,
    String.compare a b = Lt -> String.compare b c = Lt -> String.compare a c = Lt.
Proof.
  induction a as [|x a IH]; intros [|y b] [|z c]; cbn [String.compare]; try congruence.
  rewrite !ascii_compare_N.
  destruct (N.compare_spec (N_of_ascii x) (N_of_ascii y)) as [E1|L1|G1];
    destruct (N.compare_spec (N_of_ascii y) (N_of_ascii z)) as [E2|L2|G2];
    try congruence; intros H1 H2.
  - rewrite E1, E2 at 1. rewrite <- E2 at 1. rewrite E2, N.compare_refl.
    now apply (IH b c).
  - rewrite E1. now apply N.compare_lt_iff in L2 as ->.
  - rewrite <- E2. now apply N.compare_lt_iff in L1 as ->.
  - assert (L : (N_of_ascii x < N_of_ascii z)%N) by lia.
    now apply N.compare_lt_iff in L as ->.
Qed.

Lemma string_leb_trans (a b c : string) :
  String.leb a b = true -> String.leb b c = true -> String.leb a c = true.
Proof.
  unfold String.leb.
  destruct (String.compare a b) eqn:E1; [| |discriminate];
    destruct (String.compare b c) eqn:E2; try discriminate; intros _ _.
  - pose proof (String.compare_eq_iff _ _ E1) as ->. now rewrite E2.
  - pose proof (String.compare_eq_iff _ _ E1) as ->. now rewrite E2.
  - pose proof (String.compare_eq_iff _ _ E2) as <-. now rewrite E1.
  - now rewrite (string_compare_lt_trans _ _ _ E1 E2).
Qed.

Lemma string_leb_false (a b : string) :
  String.leb a b = false -> String.leb b a = true.
Proof.
  intro H. destruct (String.leb_total a b) as [E|E]; congruence.
Qed.

(** Inserting two entries with different names gives the same listing in
    either order. *)
Lemma insert_entry_comm (a b : string * Node) (l : list (string * Node)) :
  fst a <> fst b ->
  insert_entry a (insert_entry b l) = insert_entry b (insert_entry a l).
Proof.
  intro Hne. induction l as [|x t IH].
  - cbn [insert_entry].
    destruct (String.leb (fst a) (fst b)) eqn:Eab,
             (String.leb (fst b) (fst a)) eqn:Eba; try reflexivity.
    + exfalso. apply Hne. now apply String.leb_antisym.
    + apply string_leb_false in Eab. congruence.
  - cbn [insert_entry].
    destruct (String.leb (fst b) (fst x)) eqn:Ebx,
             (String.leb (fst a) (fst x)) eqn:Eax; cbn [insert_entry].
    + rewrite Ebx, Eax.
      destruct (String.leb (fst a) (fst b)) eqn:Eab,
               (String.leb (fst b) (fst a)) eqn:Eba; try reflexivity.
      * exfalso. apply Hne. now apply String.leb_antisym.
      * apply string_leb_false in Eab. congruence.
    + rewrite Ebx, Eax.
      destruct (String.leb (fst a) (fst b)) eqn:Eab; [|reflexivity].
      rewrite (string_leb_trans _ _ _ Eab Ebx) in Eax. discriminate.
    + rewrite Ebx, Eax.
      destruct (String.leb (fst b) (fst a)) eqn:Eba; [|reflexivity].
      rewrite (string_leb_trans _ _ _ Eba Eax) in Ebx. discriminate.
    + rewrite Ebx, Eax. now rewrite IH.
Qed.

Lemma sort_entries_canonical (l1 l2 : list (string * Node)) :
  Permutation l1 l2 -> NoDup (map fst l1) -> sort_entries l1 = sort_entries l2.
Proof.
  induction 1 as [|x l l' _ IH|x y l|l l' l'' H1 IH1 H2 IH2]; intro Hnd.
  - reflexivity.
  - cbn [sort_entries fold_right] in *. cbn [map] in Hnd.
    apply NoDup_cons_iff in Hnd. destruct Hnd as [_ Hnd].
    fold (sort_entries l). fold (sort_entries l'). now rewrite IH.
  - cbn [sort_entries fold_right]. apply insert_entry_comm.
    cbn [map] in Hnd. apply NoDup_cons_iff in Hnd. destruct Hnd as [Hnotin _].
    intro E. apply Hnotin. left. now symmetry.
  - rewrite IH1 by assumption. apply IH2.
    eapply Permutation_NoDup; [apply Permutation_map, H1|assumption].
Qed.

Lemma insert_entry_perm e l : Permutation (insert_entry e l) (e :: l).
Proof.
  induction l as [|x t IH]; simpl; [reflexivity|].
  destruct (String.leb (fst e) (fst x)); [reflexivity|].
  rewrite IH. apply perm_swap.
Qed.

Lemma sort_entries_perm l : Permutation (sort_entries l) l.
Proof.
  induction l as [|x t IH]; simpl; [reflexivity|].
  rewrite insert_entry_perm. now constructor.
Qed.

Lemma map_fst_sorted (f : Node -> Node) (entries : list (string * Node)) :
  map fst (map (fun e => (fst e, f (snd e))) entries) = map fst entries.
Proof. rewrite map_map. reflexivity. Qed.



(** ** The file enumerator: errors *)




(** ** The file enumerator on readable trees *)

Lemma wf_tree_dir_inv rd entries :
  wf_tree (NDir rd entries) ->
  rd = None /\ NoDup (map fst entries)
  /\ Forall (fun e => valid_name (fst e)) entries
  /\ Forall (fun e => wf_tree (snd e)) entries.
Proof. intro H. inversion H; subst. auto. Qed.

Lemma walk_wf_tree (ds : list string) (t : Node) :
  Forall valid_name ds -> wf_tree t ->
  forall ns files,
    Forall valid_name ns ->
    walk (findFiles_fn (abs_path ds)) (abs_path (ds ++ ns)) t files
    = ((files ++ map render (list_files ns t))%list, None).
Proof.
  intros Hds.
  induction t as [e|m|rd entries IH] using Node_tree_ind; intros Hwf ns files Hns.
  - inversion Hwf.
  - cbn [walk findFiles_fn list_files map IsDir negb].
    now rewrite Rel_abs_path.
  - apply wf_tree_dir_inv in Hwf. destruct Hwf as (-> & _ & Hnames & Hsub).
    cbn [walk findFiles_fn IsDir negb list_files].
    revert files.
    induction entries as [|[name child] entries IHe]; intro files.
    + cbn [flat_map map]. now rewrite app_nil_r.
    + inversion IH as [|? ? IHc IHrest]; subst.
      inversion Hnames as [|? ? Hname Hnames']; subst.
      inversion Hsub as [|? ? Hchild Hsub']; subst.
      cbn [fst snd] in *.
      rewrite Join_abs_name by (try apply Forall_app; auto).
      rewrite <- app_assoc.
      rewrite IHc by (try apply Forall_app; auto).
      rewrite IHe by assumption.
      cbn [flat_map fst snd]. now rewrite map_app, app_assoc.
Qed.

Lemma wf_sort_tree t : wf_tree t -> wf_tree (sort_tree t).
Proof.
  induction t as [e|m|rd entries IH] using Node_tree_ind; intro Hwf;
    [exact Hwf|exact Hwf|].
  apply wf_tree_dir_inv in Hwf. destruct Hwf as (-> & Hnd & Hnames & Hsub).
  cbn [sort_tree].
  set (l := map (fun e => (fst e, sort_tree (snd e))) entries).
  assert (Hp : Permutation l (sort_entries l)) by (symmetry; apply sort_entries_perm).
  constructor.
  - eapply Permutation_NoDup; [apply Permutation_map, Hp|].
    subst l. now rewrite map_fst_sorted.
  - eapply Permutation_Forall; [exact Hp|].
    subst l. apply Forall_map. exact Hnames.
  - eapply Permutation_Forall; [exact Hp|].
    subst l. apply Forall_map. cbn [snd].
    rewrite Forall_forall in *. intros x Hx. apply IH; auto.
Qed.

(** The enumeration of a readable tree under a clean absolute root. *)
Lemma findFiles_wf env (ds : list string) :
  Forall valid_name ds -> wf_tree (lstat env (abs_path ds)) ->
  findFiles env (abs_path ds)
  = (map render (list_files [] (sort_tree (lstat env (abs_path ds)))), None).
Proof.
  intros Hds Hwf. unfold findFiles, Walk.
  pose proof (walk_wf_tree ds _ Hds (wf_sort_tree _ Hwf) [] [] (Forall_nil _)) as H.
  rewrite app_nil_r in H. exact H.
Qed.

Lemma list_files_at_path t :
  forall prefix p,
    In p (list_files prefix t) <->
    exists ns m, at_path t ns (NFile m) /\ p = (prefix ++ ns)%list.
Proof.
  induction t as [e|m|rd entries IH] using Node_tree_ind; intros prefix p.
  - split; [intros []|]. intros (ns & m & H & _). inversion H.
  - cbn [list_files In]. split.
    + intros [<-|[]]. exists [], m. split; [constructor|now rewrite app_nil_r].
    + intros (ns & m' & H & ->). inversion H; subst. left. now rewrite app_nil_r.
  - cbn [list_files]. rewrite in_flat_map. split.
    + intros ([name child] & Hin & Hp). cbn [fst snd] in Hp.
      rewrite Forall_forall in IH. apply (IH _ Hin) in Hp.
      destruct Hp as (ns & m & Hat & ->).
      exists (name :: ns), m. split.
      * econstructor; eassumption.
      * now rewrite <- app_assoc.
    + intros (ns & m & Hat & ->).
      inversion Hat as [|? ? name child ns' ? Hin Hsub]; subst.
      exists (name, child). split; [assumption|].
      rewrite Forall_forall in IH. apply (IH _ Hin). cbn [fst snd].
      exists ns', m. split; [assumption|]. now rewrite <- app_assoc.
Qed.

Lemma at_path_sort_tree t :
  forall ns m, at_path (sort_tree t) ns (NFile m) <-> at_path t ns (NFile m).
Proof.
  induction t as [e|m0|rd entries IH] using Node_tree_ind; intros ns m;
    [reflexivity|reflexivity|].
  cbn [sort_tree]. rewrite Forall_forall in IH. split.
  - intro H. inversion H as [|? ? name child ns' ? Hin Hsub]; subst.
    apply (Permutation_in _ (sort_entries_perm _)) in Hin.
    apply in_map_iff in Hin. destruct Hin as ([name' child'] & E & Hin).
    cbn [fst snd] in E. injection E as -> <-.
    econstructor; [eassumption|]. apply (IH _ Hin). assumption.
  - intro H. inversion H as [|? ? name child ns' ? Hin Hsub]; subst.
    apply at_below with (child := sort_tree child).
    + apply (Permutation_in _ (Permutation_sym (sort_entries_perm _))).
      apply in_map_iff. exists (name, child). split; [reflexivity|assumption].
    + apply (IH _ Hin). assumption.
Qed.

Lemma at_path_valid t ns n :
  wf_tree t -> at_path t ns n -> Forall valid_name ns.
Proof.
  intros Hwf Hat. induction Hat as [|rd entries name child ns n Hin _ IH].
  - constructor.
  - apply wf_tree_dir_inv in Hwf. destruct Hwf as (_ & _ & Hnames & Hsub).
    rewrite Forall_forall in Hnames, Hsub.
    constructor.
    + apply (Hnames _ Hin).
    + apply IH, (Hsub _ Hin).
Qed.

Lemma map_bytes_inj (p q : list string) : map bytes p = map bytes q -> p = q.
Proof.
  revert q. induction p as [|a p IH]; intros [|b q] H; try discriminate.
  - reflexivity.
  - injection H as Ha Hp. apply bytes_inj in Ha. subst. f_equal. now apply IH.
Qed.

Lemma render_inj (p q : list string) :
  Forall valid_name p -> Forall valid_name q -> render p = render q -> p = q.
Proof.
  assert (Hdot : forall n ns, Forall valid_name (n :: ns) ->
                              "." <> rel_path (n :: ns)).
  { intros n ns Hv E. apply (f_equal bytes) in E. unfold rel_path in E.
    rewrite bytes_concat in E. apply (f_equal filepath.split) in E.
    rewrite split_join in E
      by (try apply valid_names_elems; (discriminate || assumption)).
    cbn in E. injection E as E _.
    inversion Hv as [|? ? (_ & Hnd & _) _]; subst. now apply Hnd. }
  intros Hp Hq E. destruct p as [|a p], q as [|b q].
  - reflexivity.
  - cbn [render] in E. now apply Hdot in E.
  - cbn [render] in E. symmetry in E. now apply Hdot in E.
  - cbn [render] in E. unfold rel_path in E.
    apply (f_equal bytes) in E. rewrite !bytes_concat in E.
    apply (f_equal filepath.split) in E.
    rewrite !split_join in E
      by (try apply valid_names_elems; (discriminate || assumption)).
    now apply map_bytes_inj.
Qed.

Lemma list_files_NoDup t :
  wf_tree t -> forall prefix, NoDup (list_files prefix t).
Proof.
  induction t as [e|m|rd entries IH] using Node_tree_ind; intros Hwf prefix.
  - constructor.
  - repeat constructor. intros [].
  - apply wf_tree_dir_inv in Hwf. destruct Hwf as (_ & Hnd & _ & Hsub).
    cbn [list_files].
    induction entries as [|[name child] entries IHe]; [constructor|].
    inversion IH as [|? ? IHc IHrest]; subst.
    inversion Hsub as [|? ? Hchild Hsub']; subst.
    cbn [map fst] in Hnd. apply NoDup_cons_iff in Hnd. destruct Hnd as [Hnotin Hnd].
    cbn [flat_map fst snd] in *. apply NoDup_app.
    + now apply IHc.
    + now apply IHe.
    + intros p Hp1 Hp2.
      apply list_files_at_path in Hp1. destruct Hp1 as (ns1 & m1 & _ & E1).
      apply in_flat_map in Hp2. destruct Hp2 as ([name' child'] & Hin & Hp2).
      apply list_files_at_path in Hp2. destruct Hp2 as (ns2 & m2 & _ & E2).
      cbn [fst] in E2. subst p. rewrite <- !app_assoc in E2.
      apply app_inv_head in E2. injection E2 as -> _.
      apply Hnotin. apply in_map_iff. now exists (name', child').
Qed.

Lemma findFiles_NoDup (t : Node) :
  wf_tree t -> NoDup (map render (list_files [] t)).
Proof.
  intro Hwf. apply NoDup_map_NoDup_ForallPairs.
  - intros p q Hp Hq E.
    apply list_files_at_path in Hp, Hq.
    destruct Hp as (ns1 & m1 & H1 & ->), Hq as (ns2 & m2 & H2 & ->).
    cbn [app] in *.
    apply render_inj; eauto using at_path_valid.
  - now apply list_files_NoDup.
Qed.

Lemma sort_tree_relisted t1 :
  wf_tree t1 -> forall t2, relisted t1 t2 -> sort_tree t1 = sort_tree t2.
Proof.
  induction t1 as [e|m|rd entries IH] using Node_tree_ind; intros Hwf t2 Hrel.
  - inversion Hrel; subst. reflexivity.
  - inversion Hrel; subst. reflexivity.
  - inversion Hrel as [| |? ? es es2 Hperm Hall]; subst.
    apply wf_tree_dir_inv in Hwf. destruct Hwf as (_ & Hnd & _ & Hsub).
    cbn [sort_tree]. f_equal.
    set (st := fun e : string * Node => (fst e, sort_tree (snd e))).
    assert (Hes : map st es = map st es2).
    { assert (Hin : forall a, In a es -> In a entries)
        by (intros a Ha; eapply Permutation_in; [symmetry; exact Hperm|exact Ha]).
      clear Hperm Hrel.
      induction Hall as [|a b es es2 (Hfst & Hab) _ IHall]; [reflexivity|].
      cbn [map]. f_equal.
      - unfold st. rewrite Hfst. f_equal.
        rewrite Forall_forall in IH, Hsub.
        apply IH; [apply Hin; now left|apply Hsub, Hin; now left|exact Hab].
      - apply IHall. intros x Hx. apply Hin. now right. }
    rewrite <- Hes. apply sort_entries_canonical.
    + now apply Permutation_map.
    + unfold st. now rewrite map_fst_sorted.
Qed.

Lemma NoDup_map_fst_eq {A B} (l : list (A * B)) a b1 b2 :
  NoDup (map fst l) -> In (a, b1) l -> In (a, b2) l -> b1 = b2.
Proof.
  induction l as [|[x y] l IH]; intros Hnd H1 H2; [destruct H1|].
  cbn [map fst] in Hnd. apply NoDup_cons_iff in Hnd. destruct Hnd as [Hnotin Hnd].
  destruct H1 as [E1|H1], H2 as [E2|H2].
  - congruence.
  - injection E1 as -> ->. exfalso. apply Hnotin.
    apply in_map_iff. now exists (a, b2).
  - injection E2 as -> ->. exfalso. apply Hnotin.
    apply in_map_iff. now exists (a, b1).
  - now apply IH.
Qed.

Lemma at_path_functional t ns n1 :
  wf_tree t -> at_path t ns n1 -> forall n2, at_path t ns n2 -> n1 = n2.
Proof.
  intros Hwf H1. induction H1 as [|rd entries name child ns n Hin _ IH]; intros n2 H2.
  - now inversion H2.
  - inversion H2 as [|? ? ? child' ? ? Hin' H2']; subst.
    apply wf_tree_dir_inv in Hwf. destruct Hwf as (_ & Hnd & _ & Hsub).
    assert (child' = child) by (eapply NoDup_map_fst_eq; eassumption). subst.
    rewrite Forall_forall in Hsub. apply IH; [apply (Hsub _ Hin)|assumption].
Qed.

(** ** The file enumerator: what is listed before an error *)





(** ** The workflow orchestrator *)

Lemma runs_app (l1 l2 : list Event) : runs (l1 ++ l2) = (runs l1 + runs l2)%nat.
Proof. unfold runs. now rewrite filter_app, length_app. Qed.

Lemma runs_snoc_run (log : list Event) name args :
  runs (log ++ [Run name args]) = S (runs log).
Proof. rewrite runs_app. unfold runs at 2. simpl. lia. Qed.

Lemma Main_gitOperations_pipeline env branch target log :
  Main.gitOperations env branch target log =
  match os_Chdir env target with
  | Some err =>
    (Return (Some (Errorf "failed to change to target directory" err)),
     (log ++ [Chdir target])%list)
  | None =>
    pipeline env (workflow branch (Main.pr_body env) "failed to create pr")
             (log ++ [Chdir target])%list
  end.
Proof.
  unfold Main.gitOperations, bind, emit. cbn beta iota.
  destruct (os_Chdir env target); reflexivity.
Qed.

Lemma Part000_gitOperations_pipeline env branch target log :
  Part000.gitOperations env branch target log =
  match os_Chdir env target with
  | Some err =>
    (Return (Some (Errorf "failed to change to target directory" err)),
     (log ++ [Chdir target])%list)
  | None =>
    pipeline env (workflow branch Part000.pr_body "failed to create PR")
             (log ++ [Chdir target])%list
  end.
Proof.
  unfold Part000.gitOperations, bind, emit. cbn beta iota.
  destruct (os_Chdir env target); reflexivity.
Qed.

Lemma pipeline_fail_fast env steps :
  forall log k e,
    first_failure env (runs log) steps k e ->
    exists s, nth_error steps (k - 1) = Some s /\
    pipeline env steps log =
    (Return (Some (Errorf (step_label s) e)),
     (log ++ map step_event (firstn k steps))%list).
Proof.
  induction steps as [|[[name args] label] rest IH]; intros log k e (Hk & Hok & s & Hs & Hfail).
  - simpl in Hk. lia.
  - destruct k as [|k]; [lia|].
    replace (S k - 1)%nat with k in * by lia.
    destruct k as [|k].
    + simpl in Hs. injection Hs as <-. exists (name, args, label). split; [reflexivity|].
      simpl in Hfail. rewrite Nat.add_0_r in Hfail.
      cbn [pipeline]. unfold bind, runCommand. fold (runs log). rewrite Hfail.
      reflexivity.
    + assert (H0 : cmd_Run env (runs log) name args = None).
      { specialize (Hok 0%nat (name, args, label)). simpl in Hok.
        rewrite Nat.add_0_r in Hok. apply Hok; [lia|reflexivity]. }
      destruct (IH (log ++ [Run name args])%list (S k) e) as (s' & Hs' & Hp).
      { rewrite runs_snoc_run.
        split; [simpl in Hk |- *; lia|]. split.
        - intros i s0 Hi Hn. specialize (Hok (S i) s0).
          replace (S (runs log) + i)%nat with (runs log + S i)%nat by lia.
          apply Hok; [lia|exact Hn].
        - exists s. split.
          + replace (S k - 1)%nat with k by lia. exact Hs.
          + replace (S (runs log) + (S k - 1))%nat with (runs log + S k)%nat by lia.
            exact Hfail. }
      exists s'. split.
      * replace (S k - 1)%nat with k in Hs' by lia. exact Hs'.
      * cbn [pipeline]. unfold bind at 1. unfold runCommand at 1. fold (runs log).
        rewrite H0. rewrite Hp. cbn [firstn map step_event].
        now rewrite <- app_assoc.
Qed.

Lemma pipeline_success env steps :
  forall log,
    all_succeed env (runs log) steps ->
    pipeline env steps log = (Return None, (log ++ map step_event steps)%list).
Proof.
  induction steps as [|[[name args] label] rest IH]; intros log Hall.
  - simpl. unfold ret. now rewrite app_nil_r.
  - assert (H0 : cmd_Run env (runs log) name args = None).
    { specialize (Hall 0%nat (name, args, label)). simpl in Hall.
      rewrite Nat.add_0_r in Hall. now apply Hall. }
    cbn [pipeline]. unfold bind at 1. unfold runCommand at 1. fold (runs log).
    rewrite H0, IH.
    + cbn [map step_event]. now rewrite <- app_assoc.
    + intros i s Hn. rewrite runs_snoc_run.
      replace (S (runs log) + i)%nat with (runs log + S i)%nat by lia.
      now apply Hall.
Qed.

Lemma first_failure_nth env n0 steps k e s :
  first_failure env n0 steps k e ->
  nth_error steps (k - 1) = Some s ->
  failing_label steps k = step_label s.
Proof.
  intros _ Hs. unfold failing_label.
  now rewrite (nth_error_nth _ _ _ Hs).
Qed.

Lemma Main_gitOperations_success env branch target log :
  os_Chdir env target = None -> runs log = 0%nat ->
  all_succeed env 0 (Main_workflow env branch) ->
  Main.gitOperations env branch target log =
  (Return None, (log ++ full_run target branch (Main.pr_body env))%list).
Proof.
  intros Hcd Hlog Hall.
  assert (Hruns : runs (log ++ [Chdir target]) = 0%nat)
    by (rewrite runs_app, Hlog; reflexivity).
  rewrite Main_gitOperations_pipeline, Hcd. fold (Main_workflow env branch).
  rewrite pipeline_success by now rewrite Hruns.
  now rewrite <- app_assoc.
Qed.

Lemma Part000_gitOperations_success env branch target log :
  os_Chdir env target = None -> runs log = 0%nat ->
  all_succeed env 0 (Part000_workflow branch) ->
  Part000.gitOperations env branch target log =
  (Return None, (log ++ full_run target branch Part000.pr_body)%list).
Proof.
  intros Hcd Hlog Hall.
  assert (Hruns : runs (log ++ [Chdir target]) = 0%nat)
    by (rewrite runs_app, Hlog; reflexivity).
  rewrite Part000_gitOperations_pipeline, Hcd. fold (Part000_workflow branch).
  rewrite pipeline_success by now rewrite Hruns.
  now rewrite <- app_assoc.
Qed.

Lemma pipeline_keeps env steps :
  forall log e, In e log -> In e (snd (pipeline env steps log)).
Proof.
  induction steps as [|[[name args] label] rest IH]; intros log e Hin.
  - exact Hin.
  - cbn [pipeline]. unfold bind, runCommand.
    destruct (cmd_Run env _ name args).
    + cbn. apply in_or_app. now left.
    + apply IH. apply in_or_app. now left.
Qed.

Lemma Main_gitOperations_keeps env branch target log e :
  In e log -> In e (snd (Main.gitOperations env branch target log)).
Proof.
  intro Hin. rewrite Main_gitOperations_pipeline.
  destruct (os_Chdir env target).
  - cbn. apply in_or_app. now left.
  - apply pipeline_keeps. apply in_or_app. now left.
Qed.

(** Every run of the pipeline performs a prefix of its steps. *)
Lemma pipeline_prefix env steps :
  forall log,
    exists k r,
      (k <= length steps)%nat
      /\ pipeline env steps log
         = (Return r, (log ++ map step_event (firstn k steps))%list)
      /\ (r = None -> k = length steps /\ all_succeed env (runs log) steps)
      /\ (forall err, r = Some err ->
            exists s e, nth_error steps (k - 1) = Some s
                        /\ (1 <= k)%nat
                        /\ step_result env (runs log + (k - 1)) s = Some e
                        /\ err = Errorf (step_label s) e).
Proof.
  induction steps as [|[[name args] label] rest IH]; intro log.
  - exists 0%nat, None. cbn. unfold ret. rewrite app_nil_r.
    repeat split; try lia.
    + intros i s Hn. now destruct i.
    + discriminate.
  - cbn [pipeline]. unfold bind at 1. unfold runCommand at 1. fold (runs log).
    destruct (cmd_Run env (runs log) name args) as [e|] eqn:E.
    + exists 1%nat, (Some (Errorf label e)). cbn [length firstn map step_event].
      repeat split; try lia; try discriminate.
      intros err Herr. injection Herr as <-.
      exists (name, args, label), e. cbn. rewrite Nat.add_0_r.
      repeat split; auto.
    + destruct (IH (log ++ [Run name args])%list) as (k & r & Hk & Hp & Hnone & Hsome).
      exists (S k), r. rewrite Hp. cbn [length firstn map step_event].
      rewrite <- app_assoc. cbn [app].
      split; [lia|]. split; [reflexivity|]. split.
      * intro Hr. destruct (Hnone Hr) as (-> & Hall). split; [reflexivity|].
        intros i s Hn. destruct i as [|i].
        -- cbn in Hn. injection Hn as <-. cbn. now rewrite Nat.add_0_r.
        -- cbn in Hn. specialize (Hall i s Hn). rewrite runs_snoc_run in Hall.
           now replace (runs log + S i)%nat with (S (runs log) + i)%nat by lia.
      * intros err Herr. destruct (Hsome err Herr) as (s & e & Hs & Hk1 & Hres & ->).
        exists s, e. rewrite runs_snoc_run in Hres.
        replace (S k - 1)%nat with (S (k - 1)) by lia.
        repeat split; auto; try lia.
        now replace (runs log + S (k - 1))%nat with (S (runs log) + (k - 1))%nat by lia.
Qed.

Lemma Main_gitOperations_cases env branch target log :
  exists k r,
    (k <= 6)%nat
    /\ Main.gitOperations env branch target log
       = (Return r,
          (log ++ Chdir target
               :: map step_event (firstn k (Main_workflow env branch)))%list)
    /\ (r = None ->
        k = 6%nat /\ os_Chdir env target = None
        /\ all_succeed env (runs log) (Main_workflow env branch)).
Proof.
  rewrite Main_gitOperations_pipeline. fold (Main_workflow env branch).
  destruct (os_Chdir env target) as [e|].
  - exists 0%nat. eexists. split; [lia|]. split; [reflexivity|]. discriminate.
  - destruct (pipeline_prefix env (Main_workflow env branch) (log ++ [Chdir target]))
      as (k & r & Hk & Hp & Hnone & _).
    exists k, r. split; [exact Hk|]. split.
    + rewrite Hp. now rewrite <- app_assoc.
    + intro Hr. destruct (Hnone Hr) as (-> & Hall). repeat split.
      rewrite runs_app, Nat.add_0_r in Hall. exact Hall.
Qed.

Lemma Part000_gitOperations_cases env branch target log :
  exists k r,
    (k <= 6)%nat
    /\ Part000.gitOperations env branch target log
       = (Return r,
          (log ++ Chdir target
               :: map step_event (firstn k (Part000_workflow branch)))%list)
    /\ (r = None ->
        k = 6%nat /\ os_Chdir env target = None
        /\ all_succeed env (runs log) (Part000_workflow branch)).
Proof.
  rewrite Part000_gitOperations_pipeline. fold (Part000_workflow branch).
  destruct (os_Chdir env target) as [e|].
  - exists 0%nat. eexists. split; [lia|]. split; [reflexivity|]. discriminate.
  - destruct (pipeline_prefix env (Part000_workflow branch) (log ++ [Chdir target]))
      as (k & r & Hk & Hp & Hnone & _).
    exists k, r. split; [exact Hk|]. split.
    + rewrite Hp. now rewrite <- app_assoc.
    + intro Hr. destruct (Hnone Hr) as (-> & Hall). repeat split.
      rewrite runs_app, Nat.add_0_r in Hall. exact Hall.
Qed.

Lemma In_firstn {A} (x : A) n (l : list A) : In x (firstn n l) -> In x l.
Proof.
  revert l. induction n as [|n IH]; intros [|a l] H; cbn in *; try contradiction.
  destruct H as [H|H]; [now left|right; now apply IH].
Qed.

Lemma step_event_is_run (steps : list Step) e :
  In e (map step_event steps) -> exists name args, e = Run name args.
Proof.
  intro H. apply in_map_iff in H. destruct H as ([[name args] label] & <- & _).
  now exists name, args.
Qed.

(** ** The selector bridge *)

Lemma selectFileWithFzf_started env files log :
  fzf_started (fzf env files) ->
  selectFileWithFzf env files log =
  (Return
     (match cmd_Wait (wait (fzf env files)) with
      | Some (ExitError st) =>
        if (ExitCode st =? 130)%Z then ("", Some cancelled)
        else ("", Some (Errorf "fzf failed" (ExitError st)))
      | Some err => ("", Some (Errorf "fzf failed" err))
      | None =>
        (strings.TrimSpace
           match bufio.Scan (stdout (fzf env files)) with
           | Some text => text
           | None => ""
           end, None)
      end),
   (log ++ fzf_events files)%list).
Proof.
  intros (Hin & Hout & Hstart).
  unfold selectFileWithFzf, fzf_events. rewrite Hin, Hout, Hstart.
  unfold bind, emit, ret. rewrite <- app_assoc. cbn [app].
  destruct (cmd_Wait (wait (fzf env files))) as [[t|st|t]|]; try reflexivity.
  now destruct (ExitCode st =? 130)%Z.
Qed.

(** What [Scan] delivers of the output is its first line, up to a carriage
    return that [TrimSpace] removes anyway. *)
Lemma Scan_line (out line : string) :
  first_line out line ->
  strings.TrimSpace match bufio.Scan out with
                    | Some text => text
                    | None => ""
                    end
  = strings.TrimSpace line.
Proof.
  intros (Hnl & [->|(rest & ->)]).
  - destruct line as [|c line'] eqn:E; [reflexivity|]. rewrite <- E in *.
    destruct (Scan_last_line line) as (text & -> & ->); [subst; discriminate|exact Hnl|].
    reflexivity.
  - destruct (Scan_first_line line rest Hnl) as (text & -> & ->). reflexivity.
Qed.

(** ** A complete run of [main] *)

Lemma copyFile_success env src dst log :
  copy_succeeds env src dst ->
  copyFile env src dst log = (Return None, (log ++ copy_events src dst)%list).
Proof.
  intros (H1 & H2 & H3 & H4). unfold copyFile, copy_events, bind, emit, ret.
  rewrite H1, H2, H3, H4. now rewrite <- !app_assoc.
Qed.

Lemma length_eqb_0 {A} (l : list A) : l <> [] -> (length l =? 0)%nat = false.
Proof. now destruct l. Qed.

(** [main] up to the call of [gitOperations]. *)
Lemma Main_main_reaches_workflow env absS absT files sel :
  reaches_workflow env absS absT files sel (Main.destPath absT sel) ->
  Main.main env [] =
  (err <- Main.gitOperations env (Main.finalBranchName env sel) absT ;;
   match err with
   | Some err =>
     Printf ("error in git operations: " ++ Error err ++ nl) ;;; os_Exit 1%Z
   | None => Println "successfully completed all operations! 🎉"
   end)
    (log_before_workflow "copying" "performing git operations..." absS files sel
                         (Main.destPath absT sel)).
Proof.
  intros ((Hs & Hstat & HabsS & HabsT & Hcmd) & Hfiles & Hne & (Hsel & Hnonempty) & Hcopy).
  unfold Main.main. rewrite Hs, Hstat, HabsS, HabsT, Hcmd, Hfiles.
  rewrite (length_eqb_0 _ Hne).
  unfold bind at 1. rewrite Hsel, Hnonempty.
  unfold bind at 1. unfold Printf at 1. unfold emit at 1.
  unfold bind at 1. rewrite copyFile_success by exact Hcopy.
  unfold bind at 1. unfold Printf at 1. unfold emit at 1.
  unfold log_before_workflow. rewrite <- !app_assoc. reflexivity.
Qed.

Lemma Part000_main_reaches_workflow env absS absT files sel :
  reaches_workflow env absS absT files sel (Part000.destPath absT sel) ->
  Part000.main env [] =
  (err <- Part000.gitOperations env (Part000.finalBranchName env sel) absT ;;
   match err with
   | Some err =>
     Printf ("Error in git operations: " ++ Error err ++ nl) ;;; os_Exit 1%Z
   | None => Println "Successfully completed all operations!"
   end)
    (log_before_workflow "Copying" "Performing git operations..." absS files sel
                         (Part000.destPath absT sel)).
Proof.
  intros ((Hs & Hstat & HabsS & HabsT & Hcmd) & Hfiles & Hne & (Hsel & Hnonempty) & Hcopy).
  unfold Part000.main. rewrite Hs, Hstat, HabsS, HabsT, Hcmd, Hfiles.
  rewrite (length_eqb_0 _ Hne).
  unfold bind at 1. rewrite Hsel, Hnonempty.
  unfold bind at 1. unfold Printf at 1. unfold emit at 1.
  unfold bind at 1. rewrite copyFile_success by exact Hcopy.
  unfold bind at 1. unfold Printf at 1. unfold emit at 1.
  unfold log_before_workflow. rewrite <- !app_assoc. reflexivity.
Qed.

Lemma runs_log_before_workflow c p absS files sel dst :
  runs (log_before_workflow c p absS files sel dst) = 0%nat.
Proof.
  unfold log_before_workflow, fzf_events, copy_events. reflexivity.
Qed.

(** A run of [main] in which every step succeeds. *)
Lemma Main_main_full_run env absS absT files sel :
  reaches_workflow env absS absT files sel (Main.destPath absT sel) ->
  os_Chdir env absT = None ->
  all_succeed env 0 (Main_workflow env (Main.finalBranchName env sel)) ->
  Main.main env [] =
  (Return tt,
   (log_before_workflow "copying" "performing git operations..." absS files sel
                        (Main.destPath absT sel)
    ++ full_run absT (Main.finalBranchName env sel) (Main.pr_body env)
    ++ [Print ("successfully completed all operations! 🎉" ++ nl)])%list).
Proof.
  intros Hr Hcd Hall. rewrite (Main_main_reaches_workflow _ _ _ _ _ Hr).
  unfold bind. rewrite Main_gitOperations_success
    by (auto using runs_log_before_workflow).
  unfold Println, emit. now rewrite <- app_assoc.
Qed.

Lemma Part000_main_full_run env absS absT files sel :
  reaches_workflow env absS absT files sel (Part000.destPath absT sel) ->
  os_Chdir env absT = None ->
  all_succeed env 0 (Part000_workflow (Part000.finalBranchName env sel)) ->
  Part000.main env [] =
  (Return tt,
   (log_before_workflow "Copying" "Performing git operations..." absS files sel
                        (Part000.destPath absT sel)
    ++ full_run absT (Part000.finalBranchName env sel) Part000.pr_body
    ++ [Print ("Successfully completed all operations!" ++ nl)])%list).
Proof.
  intros Hr Hcd Hall. rewrite (Part000_main_reaches_workflow _ _ _ _ _ Hr).
  unfold bind. rewrite Part000_gitOperations_success
    by (auto using runs_log_before_workflow).
  unfold Println, emit. now rewrite <- app_assoc.
Qed.

Lemma Main_main_keeps_copy env absS absT files sel e :
  reaches_workflow env absS absT files sel (Main.destPath absT sel) ->
  In e (copy_events (filepath.Join absS sel) (Main.destPath absT sel)) ->
  In e (snd (Main.main env [])).
Proof.
  intros Hr Hin. rewrite (Main_main_reaches_workflow _ _ _ _ _ Hr).
  unfold bind.
  pose proof (Main_gitOperations_keeps env (Main.finalBranchName env sel) absT
                (log_before_workflow "copying" "performing git operations..."
                                     absS files sel (Main.destPath absT sel)) e) as Hk.
  destruct (Main.gitOperations _ _ _ _) as [[[err|]|c] log'] eqn:E; cbn [snd] in *.
  - unfold Printf, emit, os_Exit. cbn. apply in_or_app. left. apply Hk.
    unfold log_before_workflow. apply in_or_app. right. right.
    apply in_or_app. now left.
  - unfold Println, emit. cbn. apply in_or_app. left. apply Hk.
    unfold log_before_workflow. apply in_or_app. right. right.
    apply in_or_app. now left.
  - apply Hk.
    unfold log_before_workflow. apply in_or_app. right. right.
    apply in_or_app. now left.
Qed.

Lemma nth_mod_In (l : list string) (r : nat) :
  l <> [] -> In (nth (r mod length l) l "") l.
Proof.
  intro H. apply nth_In. apply Nat.mod_upper_bound.
  destruct l; [congruence|discriminate].
Qed.

(** What a workflow with the body [body] asks [gh pr] for, and when. *)
Lemma workflow_CreatePR env branch target body pr log
      (res : Outcome (option error) * list Event) :
  res = match os_Chdir env target with
        | Some err =>
          (Return (Some (Errorf "failed to change to target directory" err)),
           (log ++ [Chdir target])%list)
        | None => pipeline env (workflow branch body pr) (log ++ [Chdir target])%list
        end ->
  runs log = 0%nat ->
  exists evs,
    snd res = (log ++ evs)%list
    /\ (forall args, In (Run "gh" ("pr" :: args)) evs ->
                     Run "gh" ("pr" :: args) = CreatePR branch body)
    /\ (reaches_CreatePR env branch target ->
        nth_error evs 5 = Some (CreatePR branch body)).
Proof.
  intros -> Hlog.
  assert (Hruns : runs (log ++ [Chdir target]) = 0%nat)
    by (rewrite runs_app, Hlog; reflexivity).
  destruct (os_Chdir env target) as [err|] eqn:Hcd.
  { exists [Chdir target]. split; [reflexivity|]. split.
    - intros args [H|[]]. discriminate.
    - intros (H & _). congruence. }
  destruct (pipeline_prefix env (workflow branch body pr) (log ++ [Chdir target]))
    as (k & r & Hk & Hp & Hnone & Hsome).
  rewrite Hp. cbn [snd]. rewrite <- app_assoc. cbn [app].
  eexists. split; [reflexivity|]. split.
  - intros args [H|H]; [discriminate|].
    rewrite <- firstn_map in H. apply In_firstn in H.
    cbn in H.
    repeat (destruct H as [H|H]; [try discriminate|]); try contradiction.
    rewrite <- H. reflexivity.
  - intros (_ & H0 & H1 & H2 & H3).
    assert (Hk5 : (5 <= k)%nat).
    { destruct r as [err|].
      - destruct (Hsome err eq_refl) as (s & e & Hs & Hk1 & Hres & _).
        rewrite Hruns in Hres. cbn in H0, H1, H2, H3.
        destruct k as [|[|[|[|[|k]]]]]; try lia;
          cbn in Hs; injection Hs as <-; cbn in Hres; congruence.
      - destruct (Hnone eq_refl) as (-> & _). cbn. lia. }
    destruct k as [|[|[|[|[|k]]]]]; try lia. reflexivity.
Qed.

(** ** Tactics for concrete names and trees *)

Ltac valid_names :=
  repeat (apply Forall_cons || apply Forall_nil);
  unfold valid_name, elem_ok; cbn;
  repeat split; try discriminate; repeat constructor.

Ltac wf_tree_tac :=
  cbn;
  repeat first
         [ apply wf_file
         | apply wf_dir;
           [ cbn; repeat constructor; cbn; intuition discriminate
           | valid_names
           | repeat (apply Forall_cons || apply Forall_nil); cbn ] ].

(** ** The claims of the specification *)

(** C1. The workflow is fail-fast.  When the change of directory succeeds
    and the [k]-th invocation of the command runner is the first that fails,
    with error [e], [gitOperations] invokes exactly the first [k] commands of
    the workflow, in order, and nothing after them, and returns the error
    whose text starts with the label of the [k]-th step; the labels of the
    steps are pairwise different.  When the change of directory itself fails,
    no command is invoked.  This holds for [src/main.go] and for the earlier
    variant. *)
Theorem C1_workflow_fail_fast :
  forall env branch target log,
    runs log = 0%nat ->
    (forall k e,
        os_Chdir env target = None ->
        first_failure env 0 (Main_workflow env branch) k e ->
        Main.gitOperations env branch target log =
        (Return (Some (Errorf (failing_label (Main_workflow env branch) k) e)),
         (log ++ Chdir target
              :: map step_event (firstn k (Main_workflow env branch)))%list))
    /\ (forall k e,
           os_Chdir env target = None ->
           first_failure env 0 (Part000_workflow branch) k e ->
           Part000.gitOperations env branch target log =
           (Return (Some (Errorf (failing_label (Part000_workflow branch) k) e)),
            (log ++ Chdir target
                 :: map step_event (firstn k (Part000_workflow branch)))%list))
    /\ (forall err,
           os_Chdir env target = Some err ->
           Main.gitOperations env branch target log =
           (Return (Some (Errorf "failed to change to target directory" err)),
            (log ++ [Chdir target])%list)
           /\ Part000.gitOperations env branch target log =
              (Return (Some (Errorf "failed to change to target directory" err)),
               (log ++ [Chdir target])%list))
    /\ NoDup ("failed to change to target directory"
                :: map step_label (Main_workflow env branch))
    /\ NoDup ("failed to change to target directory"
                :: map step_label (Part000_workflow branch)).
Proof.
  intros env branch target log Hlog.
  assert (Hruns : runs (log ++ [Chdir target]) = 0%nat).
  { rewrite runs_app, Hlog. reflexivity. }
  split; [|split; [|split; [|split]]].
  - intros k e Hcd Hff.
    rewrite Main_gitOperations_pipeline, Hcd.
    destruct (pipeline_fail_fast env (Main_workflow env branch)
                (log ++ [Chdir target])%list k e) as (s & Hs & Hp).
    { now rewrite Hruns. }
    unfold Main_workflow in Hp. rewrite Hp.
    fold (Main_workflow env branch).
    rewrite (first_failure_nth _ _ _ _ _ _ Hff Hs).
    now rewrite <- app_assoc.
  - intros k e Hcd Hff.
    rewrite Part000_gitOperations_pipeline, Hcd.
    destruct (pipeline_fail_fast env (Part000_workflow branch)
                (log ++ [Chdir target])%list k e) as (s & Hs & Hp).
    { now rewrite Hruns. }
    unfold Part000_workflow in Hp. rewrite Hp.
    fold (Part000_workflow branch).
    rewrite (first_failure_nth _ _ _ _ _ _ Hff Hs).
    now rewrite <- app_assoc.
  - intros err Hcd.
    rewrite Main_gitOperations_pipeline, Part000_gitOperations_pipeline, Hcd.
    split; reflexivity.
  - cbn. repeat constructor; cbn; intuition discriminate.
  - cbn. repeat constructor; cbn; intuition discriminate.
Qed.

(** The stub command runner that fails on its third invocation: the two
    invocations before it are observed, [git commit] is the last one. *)
Lemma C1_stub_fails_on_third :
  let env := with_runner sample_env (stub_runner 3 (errorString "boom")) in
  Main.gitOperations env "idea-24-03-05" "/target" [] =
  (Return (Some (errorString "failed to commit changes: boom")),
   [Chdir "/target";
    Run "git" ["checkout"; "-b"; "idea-24-03-05"];
    Run "git" ["add"; "."];
    Run "git" ["commit"; "-m"; "Add idea-24-03-05"]]).
Proof.
  intro env.
  destruct (C1_workflow_fail_fast env "idea-24-03-05" "/target" [] eq_refl)
    as (HM & _).
  rewrite (HM 3%nat (errorString "boom")); [reflexivity|reflexivity|].
  split; [cbn; lia|]. split.
  - intros i s Hi Hn.
    destruct i as [|[|i]]; [| |lia]; cbn in Hn; injection Hn as <-; reflexivity.
  - eexists. split; reflexivity.
Defined.

(** C2. On a fully successful run [gitOperations] changes to the target
    directory and then runs, in this order and with nothing else, the four
    git commands, [gh pr create] and [gh browse] as [full_run] lists them,
    and returns no error. *)
Theorem C2_workflow_order :
  forall env branch target log,
    os_Chdir env target = None ->
    runs log = 0%nat ->
    (all_succeed env 0 (Main_workflow env branch) ->
     Main.gitOperations env branch target log =
     (Return None,
      (log ++ full_run target branch (Main.pr_body env))%list))
    /\ (all_succeed env 0 (Part000_workflow branch) ->
        Part000.gitOperations env branch target log =
        (Return None,
         (log ++ full_run target branch Part000.pr_body)%list)).
Proof.
  intros env branch target log Hcd Hlog.
  assert (Hruns : runs (log ++ [Chdir target]) = 0%nat).
  { rewrite runs_app, Hlog. reflexivity. }
  split; intros Hall.
  - rewrite Main_gitOperations_pipeline, Hcd.
    fold (Main_workflow env branch).
    rewrite pipeline_success by now rewrite Hruns.
    now rewrite <- app_assoc.
  - rewrite Part000_gitOperations_pipeline, Hcd.
    fold (Part000_workflow branch).
    rewrite pipeline_success by now rewrite Hruns.
    now rewrite <- app_assoc.
Qed.

Lemma C2_sample_run :
  Main.gitOperations sample_env "idea-24-03-05" "/target" [] =
  (Return None,
   [Chdir "/target";
    Run "git" ["checkout"; "-b"; "idea-24-03-05"];
    Run "git" ["add"; "."];
    Run "git" ["commit"; "-m"; "Add idea-24-03-05"];
    Run "git" ["push"; "--set-upstream"; "origin"; "idea-24-03-05"];
    Run "gh" ["pr"; "create"; "--title"; "idea-24-03-05";
              "--body"; Main.pr_body sample_env];
    Run "gh" ["browse"]]).
Proof.
  destruct (C2_workflow_order sample_env "idea-24-03-05" "/target" []
              eq_refl eq_refl) as (HM & _).
  rewrite HM; [reflexivity|].
  intros i [[name args] label] _. reflexivity.
Defined.

(** C3. How [selectFileWithFzf] maps the end of the finder, for every list
    of candidates: exit status 130 gives the cancellation error and the empty
    string, whatever the finder printed; exit status 0 gives the first line
    of the output with the surrounding white space trimmed, and the empty
    string when nothing was printed; every other unsuccessful end, and a
    finder that cannot be started, gives an error that is not the
    cancellation error.  The trimmed line is what is left of the line when a
    stretch of white-space characters is taken away at each end so that none
    is left at either end; when the white space around the line is ASCII
    white space, it is the rest of the line.  The line is shorter than the
    buffer of the scanner. *)
Theorem C3_selector_outcomes :
  forall env files log,
    (* cancelled *)
    (forall st, fzf_started (fzf env files) ->
                wait (fzf env files) = inr st -> ExitCode st = 130%Z ->
                selectFileWithFzf env files log =
                (Return ("", Some cancelled), (log ++ fzf_events files)%list))
    (* a first line of output *)
    /\ (forall line,
           fzf_started (fzf env files) ->
           wait (fzf env files) = inr (Exited 0) ->
           first_line (stdout (fzf env files)) line ->
           (Z.of_nat (length (bytes line)) < bufio.MaxScanTokenSize)%Z ->
           exists sel,
             selectFileWithFzf env files log =
             (Return (sel, None), (log ++ fzf_events files)%list)
             /\ trimmed line sel
             /\ (forall ws1 core ws2,
                    line = ws1 ++ core ++ ws2 ->
                    ascii_white ws1 -> ascii_white ws2 ->
                    unpadded (bytes core) -> sel = core))
    (* no output *)
    /\ (fzf_started (fzf env files) ->
        wait (fzf env files) = inr (Exited 0) ->
        stdout (fzf env files) = "" ->
        selectFileWithFzf env files log =
        (Return ("", None), (log ++ fzf_events files)%list))
    (* any other exit status, or a signal *)
    /\ (forall st, fzf_started (fzf env files) ->
                   wait (fzf env files) = inr st ->
                   Success st = false -> ExitCode st <> 130%Z ->
                   selectFileWithFzf env files log =
                   (Return ("", Some (Errorf "fzf failed" (ExitError st))),
                    (log ++ fzf_events files)%list)
                   /\ Errorf "fzf failed" (ExitError st) <> cancelled)
    (* the binary is missing *)
    /\ (forall e, stdin_pipe (fzf env files) = None ->
                  stdout_pipe (fzf env files) = None ->
                  start (fzf env files) = Some e ->
                  selectFileWithFzf env files log =
                  (Return ("", Some (Errorf "failed to start fzf" e)),
                   (log ++ [Start "fzf" ["--height"; "40%"]])%list)
                  /\ Errorf "failed to start fzf" e <> cancelled).
Proof.
  intros env files log. split; [|split; [|split; [|split]]].
  - intros st Hs Hw Hc. rewrite selectFileWithFzf_started by exact Hs.
    rewrite Hw. unfold cmd_Wait.
    destruct (Success st) eqn:E.
    + destruct st as [c|s]; [|discriminate]. simpl in E, Hc.
      apply Z.eqb_eq in E. lia.
    + now rewrite Hc.
  - intros line Hs Hw Hline _. exists (strings.TrimSpace line). split; [|split].
    + rewrite selectFileWithFzf_started by exact Hs.
      rewrite Hw. cbn [cmd_Wait Success Z.eqb].
      now rewrite (Scan_line _ _ Hline).
    + apply TrimSpace_trimmed.
    + intros ws1 core ws2 -> H1 H2 Hcore. now apply TrimSpace_padded.
  - intros Hs Hw Hout. rewrite selectFileWithFzf_started by exact Hs.
    rewrite Hw, Hout. reflexivity.
  - intros st Hs Hw Hf Hc. split.
    + rewrite selectFileWithFzf_started by assumption.
      rewrite Hw. unfold cmd_Wait. rewrite Hf.
      apply Z.eqb_neq in Hc. now rewrite Hc.
    + unfold Errorf, cancelled. cbn. discriminate.
  - intros e H H0 H1. split.
    + unfold selectFileWithFzf. rewrite H, H0, H1. reflexivity.
    + unfold Errorf, cancelled. cbn. discriminate.
Qed.

(** Two runs of the finder on the same candidate: one that is cancelled,
    and one that prints the candidate with white space around it and a
    carriage return at the end of the line. *)
Lemma C3_sample_outcomes :
  selectFileWithFzf
    (with_fzf sample_env (fun _ => fzf_run ("notes/idea.md" ++ nl) (inr (Exited 130))))
    ["notes/idea.md"] []
  = (Return ("", Some (errorString "file selection cancelled")),
     [Start "fzf" ["--height"; "40%"]; Stdin ("notes/idea.md" ++ nl)])
  /\ selectFileWithFzf
       (with_fzf sample_env
                 (fun _ => fzf_run ("  notes/idea.md " ++ String bufio.CR nl)
                                   (inr (Exited 0))))
       ["notes/idea.md"] []
     = (Return ("notes/idea.md", None),
        [Start "fzf" ["--height"; "40%"]; Stdin ("notes/idea.md" ++ nl)]).
Proof.
  split.
  - destruct (C3_selector_outcomes
                (with_fzf sample_env
                          (fun _ => fzf_run ("notes/idea.md" ++ nl) (inr (Exited 130))))
                ["notes/idea.md"] []) as (H & _).
    apply (H (Exited 130)).
    + repeat split.
    + reflexivity.
    + reflexivity.
  - destruct (C3_selector_outcomes
                (with_fzf sample_env
                          (fun _ => fzf_run ("  notes/idea.md " ++ String bufio.CR nl)
                                            (inr (Exited 0))))
                ["notes/idea.md"] []) as (_ & H & _).
    destruct (H ("  notes/idea.md " ++ String bufio.CR "")) as (sel & Hrun & _ & Hcore).
    + repeat split.
    + reflexivity.
    + split; [cbn; intuition discriminate|]. right. now exists "".
    + reflexivity.
    + rewrite Hrun.
      rewrite (Hcore "  " "notes/idea.md" (" " ++ String bufio.CR "")).
      * reflexivity.
      * reflexivity.
      * repeat constructor; cbn; tauto.
      * repeat constructor; cbn; tauto.
      * right. split; reflexivity.
Defined.

(** C4. The Name Deriver is a function of the file name and the date.  For
    every string that names a file and every date of the calendar,
    [generateBranchName] returns what the specification describes: the file
    name without its directory components and without its extension, every
    character outside [A-Za-z0-9] replaced by a dash, followed by a dash and
    the date as YY-MM-DD.  For [My File v2.txt] on 2024-03-05 this is
    [My-File-v2-24-03-05]. *)
Theorem C4_name_deriver :
  (forall now filename,
      time.valid now -> names_a_file filename ->
      generateBranchName now filename = Deriver now filename)
  /\ generateBranchName {| Year := 2024; Month := 3; Day := 5 |} "My File v2.txt"
     = "My-File-v2-24-03-05".
Proof.
  split; [|reflexivity].
  intros now filename Hnow Hfile. unfold generateBranchName, Deriver.
  rewrite stem_names_a_file by exact Hfile.
  rewrite Map_sanitize, bytes_str, Format_YY_MM_DD by exact Hnow.
  rewrite str_app. f_equal. f_equal.
  apply map_ext. intro r. apply dash_non_alnum_sanitize.
Qed.

Lemma C4_example_by_the_specification :
  Deriver {| Year := 2024; Month := 3; Day := 5 |} "dir.d/My File v2.txt"
  = "My-File-v2-24-03-05".
Proof.
  destruct C4_name_deriver as (H & _).
  rewrite <- H.
  - reflexivity.
  - unfold time.valid. cbn. lia.
  - reflexivity.
Defined.

(** C5, as amended. A branch name that is derived from the file name and
    the date contains only ASCII letters, digits and dashes; a name given with
    [--branch] is used as it is, without any check.  Either way the name is
    computed once and every step of the workflow receives that same name. *)
Theorem C5_branch_name_invariant :
  forall env sel,
    (flag_branch env = "" ->
     Main.finalBranchName env sel = generateBranchName (time_Now env) sel
     /\ branch_name_ok (Main.finalBranchName env sel))
    /\ (flag_branch env <> "" -> Main.finalBranchName env sel = flag_branch env)
    /\ Part000.finalBranchName env sel = Main.finalBranchName env sel
    /\ (forall absS absT files,
           reaches_workflow env absS absT files sel (Main.destPath absT sel) ->
           os_Chdir env absT = None ->
           all_succeed env 0 (Main_workflow env (Main.finalBranchName env sel)) ->
           exists before after,
             snd (Main.main env []) =
             (before
                ++ full_run absT (Main.finalBranchName env sel) (Main.pr_body env)
                ++ after)%list
             /\ runs before = 0%nat /\ runs after = 0%nat).
Proof.
  intros env sel. split; [|split; [|split]].
  - intro E. unfold Main.finalBranchName. rewrite E. cbn [String.eqb].
    split; [reflexivity|apply generateBranchName_ok].
  - intro E. unfold Main.finalBranchName.
    apply String.eqb_neq in E. now rewrite E.
  - reflexivity.
  - intros absS absT files Hr Hcd Hall.
    rewrite (Main_main_full_run _ _ _ _ _ Hr Hcd Hall). cbn [snd].
    eexists. eexists. split; [reflexivity|].
    split; [apply runs_log_before_workflow|reflexivity].
Qed.

Lemma C5_sample_branch :
  Main.finalBranchName sample_env "notes/idea.md" = "idea-24-03-05"
  /\ branch_name_ok (Main.finalBranchName sample_env "notes/idea.md").
Proof.
  destruct (C5_branch_name_invariant sample_env "notes/idea.md") as (H & _).
  destruct (H eq_refl) as (E & Hok).
  split; [rewrite E; reflexivity|exact Hok].
Defined.

(** A branch name given on the command line reaches git unchanged, slash
    included. *)
Lemma C5_branch_flag_is_not_checked :
  let env := with_branch sample_env "feature/x" in
  Main.finalBranchName env "notes/idea.md" = "feature/x"
  /\ ~ branch_name_ok (Main.finalBranchName env "notes/idea.md")
  /\ In (Run "git" ["checkout"; "-b"; "feature/x"]) (snd (Main.main env [])).
Proof.
  intro env. split; [reflexivity|]. split.
  - intro H. change (Main.finalBranchName env "notes/idea.md") with "feature/x" in H.
    unfold branch_name_ok in H. rewrite Forall_forall in H.
    specialize (H "/"%char). cbn in H.
    assert (false = true) by (apply H; tauto). discriminate.
  - vm_compute. tauto.
Qed.

(** C6, as amended. [src/main.go] copies the selected file to the target
    root joined with the base name of the file only, so the directories of
    the selected path are dropped; the earlier variant joins the whole
    selected path under the target root.  In a run of [main] that reaches the
    copy, the file is created at that flattened destination. *)
Theorem C6_destination_is_flattened :
  forall ds ns name,
    Forall valid_name ds -> Forall valid_name ns -> valid_name name ->
    Main.destPath (abs_path ds) (rel_path (ns ++ [name])) = abs_path (ds ++ [name])
    /\ Part000.destPath (abs_path ds) (rel_path (ns ++ [name]))
       = abs_path (ds ++ ns ++ [name])
    /\ (forall env absS files,
           reaches_workflow env absS (abs_path ds) files (rel_path (ns ++ [name]))
                            (Main.destPath (abs_path ds) (rel_path (ns ++ [name]))) ->
           In (Create (abs_path (ds ++ [name]))) (snd (Main.main env []))).
Proof.
  intros ds ns name Hds Hns Hname.
  assert (HM : Main.destPath (abs_path ds) (rel_path (ns ++ [name]))
               = abs_path (ds ++ [name])).
  { unfold Main.destPath. rewrite Base_rel_path by assumption.
    now apply Join_abs_name. }
  split; [exact HM|]. split.
  - unfold Part000.destPath. apply Join_abs_path; auto.
    + apply Forall_app. auto.
    + intro E. apply app_eq_nil in E. destruct E. discriminate.
  - intros env absS files Hr.
    apply (Main_main_keeps_copy env absS (abs_path ds) files _ _ Hr).
    rewrite HM. unfold copy_events. cbn. auto.
Qed.

Lemma C6_sample_destinations :
  Main.destPath "/target" "notes/idea.md" = "/target/idea.md"
  /\ Part000.destPath "/target" "notes/idea.md" = "/target/notes/idea.md".
Proof.
  destruct (C6_destination_is_flattened ["target"] ["notes"] "idea.md")
    as (HM & HP & _).
  - valid_names.
  - valid_names.
  - unfold valid_name, elem_ok; cbn;
      repeat split; try discriminate; repeat constructor.
  - split; [exact HM|exact HP].
Defined.

(** In [src/main.go] the file [notes/idea.md] is not copied to
    [<target>/notes/idea.md]: it is created as [<target>/idea.md]. *)
Lemma C6_relative_path_not_preserved :
  Main.destPath "/target" "notes/idea.md" <> "/target/notes/idea.md"
  /\ In (Create "/target/idea.md") (snd (Main.main sample_env []))
  /\ ~ In (Create "/target/notes/idea.md") (snd (Main.main sample_env [])).
Proof.
  split; [|split].
  - vm_compute. discriminate.
  - vm_compute. tauto.
  - vm_compute. intuition discriminate.
Qed.

(** C7, as amended. In [src/main.go], whenever [gitOperations] asks [gh pr]
    for anything it asks for a pull request whose title is the branch name and
    whose body is [New finding! ] followed by the two tokens that
    [getRandomEmojis] returns, and it does so, as its fifth command, once the
    change of directory and the four git commands have succeeded.  The two
    tokens are a happy symbol and a bird symbol of the two fixed lists, each
    chosen by a draw of its own: the symbol at the index drawn.  The six happy
    symbols are distinct, so a uniform draw gives a uniform happy symbol.  In
    the earlier variant the title is the branch name and the body is a
    constant. *)
Theorem C7_pull_request_title_and_body :
  forall env branch target log,
    runs log = 0%nat ->
    let body := "New finding! " ++ fst (Main.getRandomEmojis env)
                                ++ snd (Main.getRandomEmojis env) in
    (exists evs,
        snd (Main.gitOperations env branch target log) = (log ++ evs)%list
        /\ (forall args, In (Run "gh" ("pr" :: args)) evs ->
                         Run "gh" ("pr" :: args) = CreatePR branch body)
        /\ (reaches_CreatePR env branch target ->
            nth_error evs 5 = Some (CreatePR branch body)))
    /\ In (fst (Main.getRandomEmojis env)) Main.happyEmojis
    /\ In (snd (Main.getRandomEmojis env)) Main.birdEmojis
    /\ (forall i j, (i < length Main.happyEmojis)%nat ->
                    (j < length Main.birdEmojis)%nat ->
                    Main.getRandomEmojis (with_draws env i j)
                    = (nth i Main.happyEmojis "", nth j Main.birdEmojis ""))
    /\ uniform_symbols Main.happyEmojis
    /\ (exists evs,
           snd (Part000.gitOperations env branch target log) = (log ++ evs)%list
           /\ (forall args, In (Run "gh" ("pr" :: args)) evs ->
                            Run "gh" ("pr" :: args)
                            = CreatePR branch "New finding! 🙂🦉")
           /\ (reaches_CreatePR env branch target ->
               nth_error evs 5 = Some (CreatePR branch "New finding! 🙂🦉"))).
Proof.
  intros env branch target log Hlog body.
  split; [|split; [|split; [|split; [|split]]]].
  - apply (workflow_CreatePR env branch target body "failed to create pr" log);
      [|exact Hlog].
    rewrite Main_gitOperations_pipeline. unfold Main.pr_body. subst body.
    now destruct (Main.getRandomEmojis env).
  - apply (nth_mod_In Main.happyEmojis). discriminate.
  - apply (nth_mod_In Main.birdEmojis). discriminate.
  - intros i j Hi Hj. unfold Main.getRandomEmojis, Main.rand_Intn, with_draws.
    cbn [rand_src with_rand Nat.eqb].
    now rewrite !Nat.mod_small by assumption.
  - intros s t Hs Ht. unfold weight.
    cbn [Main.happyEmojis In] in Hs, Ht.
    repeat (destruct Hs as [<-|Hs]; [|]); try contradiction;
      repeat (destruct Ht as [<-|Ht]; [|]); try contradiction; reflexivity.
  - apply (workflow_CreatePR env branch target _ "failed to create PR" log);
      [|exact Hlog].
    apply Part000_gitOperations_pipeline.
Qed.

(** A run of [src/main.go] that reaches the step: the fifth command creates
    the pull request named after the branch, with the symbols at the indices
    drawn. *)
Lemma C7_sample_pull_request :
  nth_error (snd (Main.gitOperations (with_draws sample_env 5 12)
                                     "idea-24-03-05" "/target" [])) 5
  = Some (CreatePR "idea-24-03-05" "New finding! 😎🕊️").
Proof.
  destruct (C7_pull_request_title_and_body (with_draws sample_env 5 12)
              "idea-24-03-05" "/target" [] eq_refl)
    as ((evs & Hsnd & _ & Hnth) & _).
  rewrite Hsnd. apply Hnth. repeat split.
Defined.

(** The bird is not drawn uniformly, and the earlier variant draws nothing.
    With the thirteen values of the draw for the bird, [gitOperations] of
    [src/main.go] creates the pull request with the eagle for two of them and
    with the penguin for one; [gitOperations] of the earlier variant creates
    it with the same two symbols whatever is drawn. *)
Lemma C7_birds_are_not_uniform :
  (forall j, (j < 13)%nat ->
             In (CreatePR "b" "New finding! 😊🦅")
                (snd (Main.gitOperations (with_draws sample_env 0 j) "b" "/target" []))
             <-> j = 2%nat \/ j = 9%nat)
  /\ (forall j, (j < 13)%nat ->
                In (CreatePR "b" "New finding! 😊🐧")
                   (snd (Main.gitOperations (with_draws sample_env 0 j) "b" "/target" []))
                <-> j = 0%nat)
  /\ ~ uniform_symbols Main.birdEmojis
  /\ (forall i j,
         In (CreatePR "b" "New finding! 🙂🦉")
            (snd (Part000.gitOperations (with_draws sample_env i j) "b" "/target" []))).
Proof.
  split; [|split; [|split]].
  - intros j Hj.
    do 13 (destruct j as [|j]; [vm_compute; intuition (discriminate || lia)|]). lia.
  - intros j Hj.
    do 13 (destruct j as [|j]; [vm_compute; intuition (discriminate || lia)|]). lia.
  - intro H. specialize (H "🦅" "🐧"). cbn [Main.birdEmojis In] in H.
    assert (E : weight Main.birdEmojis "🦅" = weight Main.birdEmojis "🐧")
      by (apply H; tauto).
    vm_compute in E. discriminate.
  - intros i j. vm_compute. tauto.
Qed.

(** C8, as amended. For a search root that is a clean absolute path and a
    tree that can be read everywhere, [findFiles] returns no error and
    exactly the paths, relative to the root, of the entries that are not
    directories (regular files, and also symbolic links and other special
    files, which [Lstat] does not report as directories); no path occurs
    twice, the path of a directory does not occur, and the list, the order
    included, is the same however the directories list their entries. *)
Theorem C8_enumerator_lists_non_directories :
  forall env ds,
    Forall valid_name ds ->
    wf_tree (lstat env (abs_path ds)) ->
    findFiles env (abs_path ds)
    = (map render (list_files [] (sort_tree (lstat env (abs_path ds)))), None)
    /\ (forall p, In p (fst (findFiles env (abs_path ds))) <->
                  exists ns k, at_path (lstat env (abs_path ds)) ns (NFile k)
                               /\ p = render ns)
    /\ NoDup (fst (findFiles env (abs_path ds)))
    /\ (forall ns rd entries,
           at_path (lstat env (abs_path ds)) ns (NDir rd entries) ->
           ~ In (render ns) (fst (findFiles env (abs_path ds))))
    /\ (forall env',
           relisted (lstat env (abs_path ds)) (lstat env' (abs_path ds)) ->
           findFiles env' (abs_path ds) = findFiles env (abs_path ds)).
Proof.
  intros env ds Hds Hwf.
  set (t := lstat env (abs_path ds)) in *.
  assert (Hff := findFiles_wf env ds Hds Hwf). fold t in Hff.
  assert (Hiff : forall p, In p (fst (findFiles env (abs_path ds))) <->
                           exists ns m, at_path t ns (NFile m) /\ p = render ns).
  { intro p. rewrite Hff. cbn [fst]. rewrite in_map_iff. split.
    - intros (q & <- & Hq). apply list_files_at_path in Hq.
      destruct Hq as (ns & m & Hat & ->).
      apply (proj1 (at_path_sort_tree _ _ _)) in Hat.
      now exists ns, m.
    - intros (ns & m & Hat & ->). exists ns. split; [reflexivity|].
      apply list_files_at_path. exists ns, m. split; [|reflexivity].
      now apply (proj2 (at_path_sort_tree _ _ _)). }
  split; [exact Hff|]. split; [exact Hiff|split; [|split]].
  - rewrite Hff. cbn [fst]. apply findFiles_NoDup. now apply wf_sort_tree.
  - intros ns rd entries Hat Hin. apply Hiff in Hin.
    destruct Hin as (ns' & m & Hat' & E).
    apply render_inj in E; eauto using at_path_valid. subst ns'.
    pose proof (at_path_functional _ _ _ Hwf Hat _ Hat'). discriminate.
  - intros env' Hrel. unfold findFiles, Walk. fold t.
    now rewrite <- (sort_tree_relisted t Hwf _ Hrel).
Qed.

Lemma C8_sample_enumeration :
  findFiles sample_env "/search" = (["notes/idea.md"], None).
Proof.
  destruct (C8_enumerator_lists_non_directories sample_env ["search"]) as (H & _).
  - valid_names.
  - wf_tree_tac.
  - exact H.
Defined.

(** A symbolic link under the root is listed although it is not a regular
    file. *)
Lemma C8_symlink_is_listed :
  let env := with_lstat sample_env (fun _ => symlink_tree) in
  findFiles env "/search" = (["idea.md"; "latest"], None)
  /\ ~ (forall p, In p (fst (findFiles env "/search")) ->
                  exists ns, at_path symlink_tree ns (NFile Regular)
                             /\ p = render ns).
Proof.
  intro env. split; [reflexivity|].
  intro H. destruct (H "latest") as (ns & Hat & E).
  - cbn. auto.
  - inversion Hat as [|? ? name child ns' ? Hin Hsub]; subst.
    destruct Hin as [Hin|[Hin|[]]]; injection Hin as <- <-.
    + inversion Hsub.
    + inversion Hsub; subst. discriminate.
Qed.




(** C10. When the enumeration succeeds with no file, [main] prints the
    message that no files were found and exits with status 1; that message
    is the only event of the run, so the selector is not started and nothing
    is done to the target. *)
Theorem C10_no_files_found :
  forall env absSearchDir absTargetDir,
    preconditions env absSearchDir absTargetDir ->
    findFiles env absSearchDir = ([], None) ->
    Main.main env [] =
      (Exit 1%Z, [Print ("no files found in search directory '"
                          ++ absSearchDir ++ "'" ++ nl)])
    /\ Part000.main env [] =
      (Exit 1%Z, [Print ("No files found in search directory '"
                          ++ absSearchDir ++ "'" ++ nl)])
    /\ exit_code (fst (Main.main env [])) = 1%Z
    /\ filter is_action (snd (Main.main env [])) = []
    /\ filter is_action (snd (Part000.main env [])) = [].
Proof.
  intros env absS absT (Hs & Hstat & HabsS & HabsT & Hcmd) Hfiles.
  assert (HM : Main.main env [] =
               (Exit 1%Z, [Print ("no files found in search directory '"
                                   ++ absS ++ "'" ++ nl)])).
  { unfold Main.main. rewrite Hs, Hstat, HabsS, HabsT, Hcmd, Hfiles. reflexivity. }
  assert (HP : Part000.main env [] =
               (Exit 1%Z, [Print ("No files found in search directory '"
                                   ++ absS ++ "'" ++ nl)])).
  { unfold Part000.main. rewrite Hs, Hstat, HabsS, HabsT, Hcmd, Hfiles. reflexivity. }
  rewrite HM, HP. repeat split; reflexivity.
Qed.

Lemma C10_empty_search_root :
  let env := with_lstat sample_env (fun _ => NDir None []) in
  Main.main env [] =
  (Exit 1%Z, [Print ("no files found in search directory '/search'" ++ nl)]).
Proof.
  intro env.
  apply (C10_no_files_found env "/search" "/target").
  - repeat split; reflexivity.
  - reflexivity.
Defined.

(** * Further properties of the code *)

(** ** The shapes of the runs *)

Lemma copyFile_cases env src dst log :
  (copy_succeeds env src dst
   /\ copyFile env src dst log = (Return None, (log ++ copy_events src dst)%list))
  \/ exists k e,
      (k < 4)%nat
      /\ nth_error (copy_results env src dst) k = Some (Some e)
      /\ (forall i, (i < k)%nat -> nth_error (copy_results env src dst) i = Some None)
      /\ copyFile env src dst log
         = (Return (Some (Errorf (nth k copy_labels "") e)),
            (log ++ firstn (S k) (copy_events src dst))%list).
Proof.
  unfold copyFile, copy_succeeds, copy_results, copy_events, bind, emit, ret.
  destruct (os_Open env src) as [e|] eqn:E1.
  { right. exists 0%nat, e. repeat split; [lia|lia]. }
  destruct (os_MkdirAll env (filepath.Dir dst)) as [e|] eqn:E2.
  { right. exists 1%nat, e. rewrite <- !app_assoc. repeat split; [lia|].
    intros [|i] Hi; [reflexivity|lia]. }
  destruct (os_Create env dst) as [e|] eqn:E3.
  { right. exists 2%nat, e. rewrite <- !app_assoc. repeat split; [lia|].
    intros [|[|i]] Hi; try reflexivity; lia. }
  destruct (io_Copy env dst src) as [e|] eqn:E4.
  { right. exists 3%nat, e. rewrite <- !app_assoc. repeat split; [lia|].
    intros [|[|[|i]]] Hi; try reflexivity; lia. }
  left. rewrite <- !app_assoc. repeat split.
Qed.

Lemma selectFileWithFzf_cases env files log :
  exists sel err evs,
    selectFileWithFzf env files log = (Return (sel, err), (log ++ evs)%list)
    /\ (err <> None -> sel = "")
    /\ (err = None -> evs = fzf_events files)
    /\ (evs = [] \/ evs = [Start "fzf" ["--height"; "40%"]] \/ evs = fzf_events files).
Proof.
  unfold selectFileWithFzf, fzf_events.
  destruct (stdin_pipe (fzf env files)) as [e|].
  { do 3 eexists. unfold ret. rewrite app_nil_r.
    split; [reflexivity|]. repeat split; auto; congruence. }
  destruct (stdout_pipe (fzf env files)) as [e|].
  { do 3 eexists. unfold ret. rewrite app_nil_r.
    split; [reflexivity|]. repeat split; auto; congruence. }
  unfold bind, emit, ret.
  destruct (start (fzf env files)) as [e|].
  { do 3 eexists. split; [reflexivity|]. repeat split; auto; congruence. }
  rewrite <- app_assoc. cbn [app].
  destruct (cmd_Wait (wait (fzf env files))) as [[t|st|t]|];
    try destruct (ExitCode st =? 130)%Z;
    do 3 eexists; (split; [reflexivity|]); repeat split; auto; congruence.
Qed.

Lemma Main_main_runs env : run_shape main_go env.
Proof.
  unfold run_shape, copying_message, sourcePath.
  cbn [v_main v_destPath v_branch v_workflow v_body v_copying v_performing
       v_copy_error v_git_error v_success main_go].
  set (r := Main.main env []).
  assert (Hr : Main.main env [] = r) by reflexivity. clearbody r.
  unfold Main.main in Hr. cbv zeta in Hr.
  destruct (String.eqb (flag_search env) "") eqn:Hs.
  { left. subst r. eexists. left. reflexivity. }
  destruct (IsNotExist (os_Stat env (flag_search env))) eqn:Hstat.
  { left. subst r. eexists. right. reflexivity. }
  destruct (Abs env (flag_search env)) as [absS|e] eqn:HabsS.
  2:{ left. subst r. eexists. right. reflexivity. }
  destruct (Abs env (flag_target env)) as [absT|e] eqn:HabsT.
  2:{ left. subst r. eexists. right. reflexivity. }
  destruct (first_missing env requiredCommands) as [cmd|] eqn:Hcmd.
  { left. subst r. eexists. right. reflexivity. }
  destruct (findFiles env absS) as [files [e|]] eqn:Hfiles.
  { left. subst r. eexists. right. reflexivity. }
  destruct (length files =? 0)%nat eqn:Hlen.
  { left. subst r. eexists. right. reflexivity. }
  right. exists absS, absT, files.
  split; [repeat split; assumption|]. split; [exact Hfiles|].
  split; [intros ->; discriminate|].
  unfold bind at 1 in Hr.
  destruct (selectFileWithFzf_cases env files [])
    as (sel & err & evs & Hsel & Hempty & Hok & Hevs).
  rewrite Hsel in Hr. cbn [app] in Hsel, Hr.
  assert (Hfzf : Forall (fun e => is_fzf e = true) evs).
  { destruct Hevs as [->|[->| ->]]; repeat constructor. }
  destruct err as [err|].
  { left. subst r. exists evs. eexists. split; [reflexivity|exact Hfzf]. }
  destruct (String.eqb sel "") eqn:Hne.
  { left. subst r. exists evs. eexists. split; [reflexivity|exact Hfzf]. }
  right. exists sel. rewrite (Hok eq_refl) in *.
  split; [split; assumption|].
  unfold bind at 1 in Hr. unfold Printf at 1 in Hr. unfold emit at 1 in Hr.
  unfold bind at 1 in Hr.
  match type of Hr with
  | context [copyFile env ?s ?d ?l] =>
    destruct (copyFile_cases env s d l)
      as [(Hcopy & Hc)|(k & e & Hk & _ & _ & Hc)]; rewrite Hc in Hr
  end.
  2:{ left. subst r. exists k. eexists. split; [exact Hk|].
      unfold bind, Printf, emit, os_Exit. rewrite <- !app_assoc. reflexivity. }
  right. split; [exact Hcopy|].
  unfold bind at 1 in Hr. unfold Printf at 1 in Hr. unfold emit at 1 in Hr.
  unfold bind at 1 in Hr.
  match type of Hr with
  | context [Main.gitOperations env ?b absT ?l] =>
    destruct (Main_gitOperations_cases env b absT l) as (k & res & Hk & Hg & Hnone);
      rewrite Hg in Hr
  end.
  destruct res as [err|].
  - left. subst r. exists k, err. split; [exact Hk|].
    unfold Printf, emit, os_Exit, log_before_workflow.
    rewrite <- !app_assoc. cbn [app]. rewrite <- !app_assoc. reflexivity.
  - right. subst r. destruct (Hnone eq_refl) as (-> & Hcd & Hall).
    split; [exact Hcd|]. split; [exact Hall|].
    unfold Println, emit, log_before_workflow, full_run.
    rewrite <- !app_assoc. cbn [app]. rewrite <- !app_assoc. reflexivity.
Qed.


Lemma Part000_main_runs env : run_shape part_000 env.
Proof.
  unfold run_shape, copying_message, sourcePath.
  cbn [v_main v_destPath v_branch v_workflow v_body v_copying v_performing
       v_copy_error v_git_error v_success part_000].
  set (r := Part000.main env []).
  assert (Hr : Part000.main env [] = r) by reflexivity. clearbody r.
  unfold Part000.main in Hr. cbv zeta in Hr.
  destruct (String.eqb (flag_search env) "") eqn:Hs.
  { left. subst r. eexists. left. reflexivity. }
  destruct (IsNotExist (os_Stat env (flag_search env))) eqn:Hstat.
  { left. subst r. eexists. right. reflexivity. }
  destruct (Abs env (flag_search env)) as [absS|e] eqn:HabsS.
  2:{ left. subst r. eexists. right. reflexivity. }
  destruct (Abs env (flag_target env)) as [absT|e] eqn:HabsT.
  2:{ left. subst r. eexists. right. reflexivity. }
  destruct (first_missing env requiredCommands) as [cmd|] eqn:Hcmd.
  { left. subst r. eexists. right. reflexivity. }
  destruct (findFiles env absS) as [files [e|]] eqn:Hfiles.
  { left. subst r. eexists. right. reflexivity. }
  destruct (length files =? 0)%nat eqn:Hlen.
  { left. subst r. eexists. right. reflexivity. }
  right. exists absS, absT, files.
  split; [repeat split; assumption|]. split; [exact Hfiles|].
  split; [intros ->; discriminate|].
  unfold bind at 1 in Hr.
  destruct (selectFileWithFzf_cases env files [])
    as (sel & err & evs & Hsel & Hempty & Hok & Hevs).
  rewrite Hsel in Hr. cbn [app] in Hsel, Hr.
  assert (Hfzf : Forall (fun e => is_fzf e = true) evs).
  { destruct Hevs as [->|[->| ->]]; repeat constructor. }
  destruct err as [err|].
  { left. subst r. exists evs. eexists. split; [reflexivity|exact Hfzf]. }
  destruct (String.eqb sel "") eqn:Hne.
  { left. subst r. exists evs. eexists. split; [reflexivity|exact Hfzf]. }
  right. exists sel. rewrite (Hok eq_refl) in *.
  split; [split; assumption|].
  unfold bind at 1 in Hr. unfold Printf at 1 in Hr. unfold emit at 1 in Hr.
  unfold bind at 1 in Hr.
  match type of Hr with
  | context [copyFile env ?s ?d ?l] =>
    destruct (copyFile_cases env s d l)
      as [(Hcopy & Hc)|(k & e & Hk & _ & _ & Hc)]; rewrite Hc in Hr
  end.
  2:{ left. subst r. exists k. eexists. split; [exact Hk|].
      unfold bind, Printf, emit, os_Exit. rewrite <- !app_assoc. reflexivity. }
  right. split; [exact Hcopy|].
  unfold bind at 1 in Hr. unfold Printf at 1 in Hr. unfold emit at 1 in Hr.
  unfold bind at 1 in Hr.
  match type of Hr with
  | context [Part000.gitOperations env ?b absT ?l] =>
    destruct (Part000_gitOperations_cases env b absT l) as (k & res & Hk & Hg & Hnone);
      rewrite Hg in Hr
  end.
  destruct res as [err|].
  - left. subst r. exists k, err. split; [exact Hk|].
    unfold Printf, emit, os_Exit, log_before_workflow.
    rewrite <- !app_assoc. cbn [app]. rewrite <- !app_assoc. reflexivity.
  - right. subst r. destruct (Hnone eq_refl) as (-> & Hcd & Hall).
    split; [exact Hcd|]. split; [exact Hall|].
    unfold Println, emit, log_before_workflow, full_run.
    rewrite <- !app_assoc. cbn [app]. rewrite <- !app_assoc. reflexivity.
Qed.


(** Every run of [main], in either variant, ends in one of the five
    ways. *)
Lemma main_runs v env : v = main_go \/ v = part_000 -> run_shape v env.
Proof. intros [->| ->]; [apply Main_main_runs|apply Part000_main_runs]. Qed.

Lemma main_full_run v env absS absT files sel :
  v = main_go \/ v = part_000 ->
  reaches_workflow env absS absT files sel (v_destPath v absT sel) ->
  os_Chdir env absT = None ->
  all_succeed env 0 (v_workflow v env (v_branch v env sel)) ->
  v_main v env [] =
  (Return tt,
   (log_before_workflow (v_copying v) (v_performing v) absS files sel
                        (v_destPath v absT sel)
    ++ full_run absT (v_branch v env sel) (v_body v env)
    ++ [Print (v_success v ++ nl)])%list).
Proof.
  intros [->| ->]; [apply Main_main_full_run|apply Part000_main_full_run].
Qed.

Lemma main_reaches_workflow v env absS absT files sel :
  v = main_go \/ v = part_000 ->
  reaches_workflow env absS absT files sel (v_destPath v absT sel) ->
  v_main v env [] =
  (err <- v_gitOperations v env (v_branch v env sel) absT ;;
   match err with
   | Some err => Printf (v_git_error v ++ Error err ++ nl) ;;; os_Exit 1%Z
   | None => Println (v_success v)
   end)
    (log_before_workflow (v_copying v) (v_performing v) absS files sel
                         (v_destPath v absT sel)).
Proof.
  intros [->| ->];
    [apply Main_main_reaches_workflow|apply Part000_main_reaches_workflow].
Qed.

Lemma gitOperations_pipeline v env branch target log :
  v = main_go \/ v = part_000 ->
  v_gitOperations v env branch target log =
  match os_Chdir env target with
  | Some err =>
    (Return (Some (Errorf "failed to change to target directory" err)),
     (log ++ [Chdir target])%list)
  | None => pipeline env (v_workflow v env branch) (log ++ [Chdir target])%list
  end.
Proof.
  intros [->| ->];
    [apply Main_gitOperations_pipeline|apply Part000_gitOperations_pipeline].
Qed.

Lemma gitOperations_cases v env branch target log :
  v = main_go \/ v = part_000 ->
  exists k r,
    (k <= 6)%nat
    /\ v_gitOperations v env branch target log
       = (Return r,
          (log ++ Chdir target
               :: map step_event (firstn k (v_workflow v env branch)))%list)
    /\ (r = None ->
        k = 6%nat /\ os_Chdir env target = None
        /\ all_succeed env (runs log) (v_workflow v env branch)).
Proof.
  intros [->| ->];
    [apply Main_gitOperations_cases|apply Part000_gitOperations_cases].
Qed.

(** [main] when the copy fails. *)
Lemma main_copy_fails v env absS absT files sel err log' :
  v = main_go \/ v = part_000 ->
  preconditions env absS absT ->
  findFiles env absS = (files, None) -> files <> [] ->
  selects env files sel ->
  copyFile env (sourcePath absS sel) (v_destPath v absT sel)
           (fzf_events files
            ++ [copying_message v (sourcePath absS sel) (v_destPath v absT sel)])%list
  = (Return (Some err), log') ->
  v_main v env [] = (Exit 1%Z, (log' ++ [Print (v_copy_error v ++ Error err ++ nl)])%list).
Proof.
  intros Hv (Hs & Hstat & HabsS & HabsT & Hcmd) Hfiles Hne (Hsel & Hnonempty).
  unfold copying_message, sourcePath.
  destruct Hv as [->| ->];
    cbn [v_main v_destPath v_copying v_copy_error main_go part_000]; intro Hc.
  - unfold Main.main. rewrite Hs, Hstat, HabsS, HabsT, Hcmd, Hfiles.
    rewrite (length_eqb_0 _ Hne).
    unfold bind at 1. rewrite Hsel, Hnonempty.
    unfold bind at 1. unfold Printf at 1. unfold emit at 1.
    unfold bind at 1.
    match type of Hc with
    | ?lhs = _ =>
      match goal with
      | |- context [copyFile env ?s ?d ?l] => change (copyFile env s d l) with lhs
      end
    end.
    rewrite Hc. reflexivity.
  - unfold Part000.main. rewrite Hs, Hstat, HabsS, HabsT, Hcmd, Hfiles.
    rewrite (length_eqb_0 _ Hne).
    unfold bind at 1. rewrite Hsel, Hnonempty.
    unfold bind at 1. unfold Printf at 1. unfold emit at 1.
    unfold bind at 1.
    match type of Hc with
    | ?lhs = _ =>
      match goal with
      | |- context [copyFile env ?s ?d ?l] => change (copyFile env s d l) with lhs
      end
    end.
    rewrite Hc. reflexivity.
Qed.

(** Membership in the logs that [main] produces, broken into the events
    of the finder, the copy and the workflow. *)
Ltac in_log H :=
  repeat match type of H with
         | In _ (_ ++ _) => apply in_app_or in H; destruct H as [H|H]
         | In _ (firstn _ _) => apply In_firstn in H
         | In _ (map step_event _) =>
           apply step_event_is_run in H; destruct H as (? & ? & H)
         | In _ (log_before_workflow _ _ _ _ _ _) => unfold log_before_workflow in H
         | In _ (fzf_events _) => unfold fzf_events in H
         | In _ (_ :: _) => destruct H as [H|H]
         | In _ [] => destruct H
         end.

(** ** The entry point: phases and exit status *)

(** X1. In every run of [main], in [src/main.go] and in the earlier
    variant, a phase begins only after all phases before it have succeeded:
    the finder is started only after the checks and a successful enumeration
    that found files; a phase of the copy is attempted only after a file was
    selected, and it belongs to the copy of that file; the directory is
    changed and a command is run only after the copy has succeeded. *)
Theorem main_phases_in_order :
  forall v env e,
    v = main_go \/ v = part_000 ->
    In e (snd (v_main v env [])) ->
    (is_fzf e = true ->
     exists absS absT files,
       preconditions env absS absT
       /\ findFiles env absS = (files, None) /\ files <> [])
    /\ (is_copy e = true ->
        exists absS absT files sel,
          preconditions env absS absT
          /\ findFiles env absS = (files, None)
          /\ selects env files sel
          /\ In e (copy_events (sourcePath absS sel) (v_destPath v absT sel)))
    /\ (is_git e = true ->
        exists absS absT files sel,
          reaches_workflow env absS absT files sel (v_destPath v absT sel)).
Proof.
  intros v env e Hv Hin.
  destruct (main_runs v env Hv)
    as [(msg & [Hr|Hr])
       |(absS & absT & files & Hpre & Hfiles & Hne &
         [(evs & msg & Hr & Hevs)
         |(sel & Hsel &
           [(k & msg & Hk & Hr)
           |(Hcopy & [(k & err & Hk & Hr)|(Hcd & Hall & Hr)])])])];
    rewrite Hr in Hin; cbn [snd] in Hin; unfold copying_message in Hin.
  - in_log Hin; subst e; repeat split; discriminate.
  - in_log Hin; subst e; repeat split; discriminate.
  - split; [intros _; now exists absS, absT, files|].
    apply in_app_or in Hin. destruct Hin as [Hin|Hin].
    + rewrite Forall_forall in Hevs. specialize (Hevs e Hin).
      split; intro H; destruct e; discriminate.
    + in_log Hin; subst e; split; discriminate.
  - split; [intros _; now exists absS, absT, files|].
    split.
    + intro Hc. exists absS, absT, files, sel. repeat split; try apply Hpre; auto;
        try apply Hsel.
      in_log Hin; try (subst e; discriminate). exact Hin.
    + intro Hg. in_log Hin; try (subst e; discriminate).
      unfold copy_events in Hin. in_log Hin; subst e; discriminate.
  - split; [intros _; now exists absS, absT, files|].
    split.
    + intro Hc. exists absS, absT, files, sel. repeat split; try apply Hpre; auto;
        try apply Hsel.
      in_log Hin; try (subst e; discriminate). exact Hin.
    + intros _. exists absS, absT, files, sel. repeat split; try apply Hpre; auto;
        try apply Hsel; apply Hcopy.
  - split; [intros _; now exists absS, absT, files|].
    split.
    + intro Hc. exists absS, absT, files, sel. repeat split; try apply Hpre; auto;
        try apply Hsel.
      unfold full_run in Hin.
      in_log Hin; try (subst e; discriminate). exact Hin.
    + intros _. exists absS, absT, files, sel. repeat split; try apply Hpre; auto;
        try apply Hsel; apply Hcopy.
Qed.

Lemma main_phases_in_order_sample :
  exists absS absT files sel,
    reaches_workflow sample_env absS absT files sel (Main.destPath absT sel).
Proof.
  destruct (main_phases_in_order main_go sample_env (Run "gh" ["browse"]))
    as (_ & _ & H).
  - now left.
  - vm_compute. tauto.
  - apply H. reflexivity.
Defined.

(** X2. The exit status of the process, in either variant, is 0, 1 or 2.
    It is 2 exactly when [flag.Parse()] rejects the command line, and 0
    without a run exactly when help is asked for; in both cases the usage
    text is the last thing written and nothing else is done.  Once the flags
    are parsed, [main] returns normally exactly when the checks, the
    enumeration, the selection, the copy, the change of directory and all six
    commands succeeded, and its log then ends with the message of success;
    every other run exits with status 1, and the last thing it did before
    was to print a message (followed by the usage text when the search flag
    is missing). *)
Theorem main_exit_status :
  forall v p env,
    v = main_go \/ v = part_000 ->
    let r := main_from_start v p env [] in
    (exit_code (fst r) = 0%Z \/ exit_code (fst r) = 1%Z \/ exit_code (fst r) = 2%Z)
    /\ (fst r = Exit 2%Z <-> exists msg, p = Rejected msg)
    /\ (fst r = Exit 0%Z <-> p = HelpAsked)
    /\ (p <> Parsed ->
        exists log, snd r = (log ++ [Usage])%list
                    /\ Forall (fun e => is_action e = false) (snd r))
    /\ (fst r = Return tt <->
        p = Parsed
        /\ exists absS absT files sel,
            reaches_workflow env absS absT files sel (v_destPath v absT sel)
            /\ os_Chdir env absT = None
            /\ all_succeed env 0 (v_workflow v env (v_branch v env sel)))
    /\ (fst r = Return tt ->
        exists log, snd r = (log ++ [Print (v_success v ++ nl)])%list)
    /\ (fst r = Exit 1%Z ->
        p = Parsed
        /\ exists log msg,
            snd r = (log ++ [Print msg])%list \/ snd r = [Print msg; Usage]).
Proof.
  intros v p env Hv r. subst r.
  destruct p as [| |m].
  2:{ cbn. repeat split; try tauto; try discriminate.
      - intros (msg & H). discriminate.
      - intros _. exists []. split; [reflexivity|]. repeat constructor.
      - intros (H & _). discriminate. }
  2:{ cbn. repeat split; try tauto; try discriminate.
      - now exists m.
      - intros _. exists [Print (m ++ nl)]. split; [reflexivity|]. repeat constructor.
      - intros (H & _). discriminate. }
  change (main_from_start v Parsed env []) with (v_main v env []).
  assert (Hfull : (exists absS absT files sel,
                      reaches_workflow env absS absT files sel (v_destPath v absT sel)
                      /\ os_Chdir env absT = None
                      /\ all_succeed env 0 (v_workflow v env (v_branch v env sel))) ->
                  fst (v_main v env []) = Return tt).
  { intros (absS & absT & files & sel & Hr & Hcd & Hall).
    now rewrite (main_full_run v _ _ _ _ _ Hv Hr Hcd Hall). }
  destruct (main_runs v env Hv)
    as [(msg & [Hr|Hr])
       |(absS & absT & files & Hpre & Hfiles & Hne &
         [(evs & msg & Hr & Hevs)
         |(sel & Hsel &
           [(k & msg & Hk & Hr)
           |(Hcopy & [(k & err & Hk & Hr)|(Hcd & Hall & Hr)])])])].
  1-5: assert (Hx : fst (v_main v env []) = Exit 1%Z) by now rewrite Hr.
  1-5: split; [right; left; now rewrite Hx|];
    split; [split; [rewrite Hx; discriminate|intros (m & H); discriminate]|];
    split; [split; [rewrite Hx|]; discriminate|];
    split; [congruence|];
    split; [split; [rewrite Hx; discriminate|intros (_ & H); apply Hfull in H;
                    rewrite Hx in H; discriminate]|];
    split; [rewrite Hx; discriminate|];
    intros _; split; [reflexivity|]; rewrite Hr; cbn [snd].
  - exists [], msg. now right.
  - exists [], msg. now left.
  - exists evs, msg. now left.
  - eexists. exists msg. left. rewrite app_comm_cons, app_assoc. reflexivity.
  - eexists. eexists. left. rewrite app_comm_cons, app_assoc. reflexivity.
  - rewrite Hr. cbn [fst snd exit_code].
    split; [now left|].
    split; [split; [discriminate|intros (m & H); discriminate]|].
    split; [split; discriminate|].
    split; [congruence|].
    split; [split|split].
    + intros _. split; [reflexivity|].
      exists absS, absT, files, sel. repeat split; try apply Hpre; auto;
        try apply Hsel; apply Hcopy.
    + reflexivity.
    + intros _. eexists. rewrite app_assoc. reflexivity.
    + discriminate.
Qed.

Lemma main_exit_status_sample :
  fst (main_from_start main_go (Rejected "flag provided but not defined: -x")
                       sample_env []) = Exit 2%Z
  /\ fst (main_from_start main_go Parsed sample_env []) = Return tt
  /\ exists log,
      snd (main_from_start main_go Parsed sample_env [])
      = (log ++ [Print ("successfully completed all operations! 🎉" ++ nl)])%list.
Proof.
  split.
  - destruct (main_exit_status main_go (Rejected "flag provided but not defined: -x")
                               sample_env (or_introl eq_refl))
      as (_ & Hiff & _).
    apply Hiff. eexists. reflexivity.
  - destruct (main_exit_status main_go Parsed sample_env (or_introl eq_refl))
      as (_ & _ & _ & _ & Hiff & Hlog & _).
    assert (H : fst (main_from_start main_go Parsed sample_env []) = Return tt).
    { apply Hiff. split; [reflexivity|].
      exists "/search", "/target", ["notes/idea.md"], "notes/idea.md".
      split; [|split].
      - repeat split; try reflexivity. discriminate.
      - reflexivity.
      - intros i [[name args] label] _. reflexivity. }
    split; [exact H|exact (Hlog H)].
Defined.

(** X3. The three tools are looked up in the order [fzf], [git], [gh]
    after the roots have been resolved.  The first one that [exec.LookPath]
    does not find is named in the only message of the run, and [main] exits
    with status 1 before it enumerates, selects, copies or runs anything. *)
Theorem main_required_commands :
  forall env absS absT i cmd,
    String.eqb (flag_search env) "" = false ->
    IsNotExist (os_Stat env (flag_search env)) = false ->
    Abs env (flag_search env) = inl absS ->
    Abs env (flag_target env) = inl absT ->
    nth_error requiredCommands i = Some cmd ->
    exec_LookPath env cmd <> None ->
    (forall j c, (j < i)%nat -> nth_error requiredCommands j = Some c ->
                 exec_LookPath env c = None) ->
    Main.main env [] =
    (Exit 1%Z, [Print ("error: required command '" ++ cmd
                        ++ "' not found in path" ++ nl)])
    /\ Part000.main env [] =
       (Exit 1%Z, [Print ("Error: required command '" ++ cmd
                           ++ "' not found in PATH" ++ nl)]).
Proof.
  intros env absS absT i cmd Hs Hstat HabsS HabsT Hi Hmiss Hbefore.
  assert (Hfirst : first_missing env requiredCommands = Some cmd).
  { unfold requiredCommands in *. cbn [first_missing].
    destruct i as [|[|[|i]]]; cbn in Hi; try discriminate;
      try (destruct i; discriminate); injection Hi as <-.
    - destruct (exec_LookPath env "fzf"); [reflexivity|congruence].
    - rewrite (Hbefore 0%nat "fzf") by (lia || reflexivity).
      destruct (exec_LookPath env "git"); [reflexivity|congruence].
    - rewrite (Hbefore 0%nat "fzf"), (Hbefore 1%nat "git") by (lia || reflexivity).
      destruct (exec_LookPath env "gh"); [reflexivity|congruence]. }
  unfold Main.main, Part000.main.
  rewrite Hs, Hstat, HabsS, HabsT, Hfirst. split; reflexivity.
Qed.

Lemma main_required_commands_git_missing :
  Main.main (with_LookPath sample_env (fun c => String.eqb c "fzf")) [] =
  (Exit 1%Z, [Print ("error: required command 'git' not found in path" ++ nl)]).
Proof.
  apply (main_required_commands
           (with_LookPath sample_env (fun c => String.eqb c "fzf"))
           "/search" "/target" 1%nat "git"); try reflexivity.
  - discriminate.
  - intros [|j] c Hj Hc; [|lia]. injection Hc as <-. reflexivity.
Defined.

(** X4. Of a failure of [os.Stat] on the search root only "does not exist"
    is acted upon: with any other error (permission denied, say) [main]
    behaves exactly as if [os.Stat] had succeeded. *)
Theorem main_stat_errors_ignored :
  forall env log,
    IsNotExist (os_Stat env (flag_search env)) = false ->
    Main.main env log = Main.main (with_stat env (fun _ => None)) log
    /\ Part000.main env log = Part000.main (with_stat env (fun _ => None)) log.
Proof.
  intros env log H. unfold Main.main, Part000.main. rewrite H.
  cbn [flag_search flag_target with_stat os_Stat IsNotExist].
  split; reflexivity.
Qed.

Lemma main_stat_errors_ignored_sample :
  Main.main (with_stat sample_env (fun _ => Some (errorString "permission denied"))) []
  = Main.main sample_env [].
Proof.
  destruct (main_stat_errors_ignored
              (with_stat sample_env (fun _ => Some (errorString "permission denied")))
              [] eq_refl) as (H & _).
  rewrite H. reflexivity.
Defined.

(** ** The copier *)

(** X5. [copyFile] runs its four phases in order (open the source, create
    the directories of the destination, create the destination, copy the
    bytes) and stops at the first that fails: the phases before it were
    attempted and succeeded, none after it is attempted, and the error starts
    with the text that names the failing phase, the four texts being
    different.  It returns no error exactly when all four phases succeed. *)
Theorem copyFile_first_failing_phase :
  forall env src dst log,
    (forall k e,
        nth_error (copy_results env src dst) k = Some (Some e) ->
        (forall i, (i < k)%nat -> nth_error (copy_results env src dst) i = Some None) ->
        copyFile env src dst log =
        (Return (Some (Errorf (nth k copy_labels "") e)),
         (log ++ firstn (S k) (copy_events src dst))%list))
    /\ (fst (copyFile env src dst log) = Return None <-> copy_succeeds env src dst)
    /\ (copy_succeeds env src dst ->
        copyFile env src dst log = (Return None, (log ++ copy_events src dst)%list))
    /\ NoDup copy_labels.
Proof.
  intros env src dst log.
  destruct (copyFile_cases env src dst log)
    as [(Hok & Hc)|(k & e & Hk & Hke & Hbefore & Hc)].
  - split; [|split; [|split]].
    + intros k e Hke Hbefore. exfalso.
      destruct Hok as (H1 & H2 & H3 & H4). unfold copy_results in Hke.
      rewrite H1, H2, H3, H4 in Hke.
      destruct k as [|[|[|[|k]]]]; cbn in Hke; try discriminate.
      destruct k; discriminate.
    + rewrite Hc. split; [intros _; exact Hok|reflexivity].
    + intros _. exact Hc.
    + repeat constructor; cbn; intuition discriminate.
  - assert (Hnot : ~ copy_succeeds env src dst).
    { intros (H1 & H2 & H3 & H4). unfold copy_results in Hke.
      rewrite H1, H2, H3, H4 in Hke.
      destruct k as [|[|[|[|k]]]]; cbn in Hke; try discriminate; lia. }
    split; [|split; [|split]].
    + intros k' e' Hke' Hbefore'.
      assert (k' = k).
      { destruct (Nat.lt_trichotomy k' k) as [Hlt|[Heq|Hgt]]; [|exact Heq|].
        - rewrite (Hbefore k' Hlt) in Hke'. discriminate.
        - rewrite (Hbefore' k Hgt) in Hke. discriminate. }
      subst k'. rewrite Hke in Hke'. injection Hke' as <-. exact Hc.
    + rewrite Hc. split; [discriminate|intro H; contradiction].
    + intro H. contradiction.
    + repeat constructor; cbn; intuition discriminate.
Qed.

Lemma copyFile_create_fails :
  let env := with_copy sample_env
               (fun k => if (k =? 2)%nat then Some (errorString "is a directory")
                         else None) in
  copyFile env "/search/notes/idea.md" "/target/idea.md" [] =
  (Return (Some (errorString "failed to create destination file: is a directory")),
   [Open "/search/notes/idea.md"; MkdirAll "/target"; Create "/target/idea.md"]).
Proof.
  intro env.
  destruct (copyFile_first_failing_phase env "/search/notes/idea.md"
                                         "/target/idea.md" []) as (H & _).
  rewrite (H 2%nat (errorString "is a directory")).
  - reflexivity.
  - reflexivity.
  - intros [|[|i]] Hi; try reflexivity; lia.
Defined.

(** ** The workflow orchestrator *)

(** X6. Whatever the commands do, [gitOperations], in either variant,
    returns to its caller (it does not end the process), changes the
    directory exactly once, as its first action, and then runs a beginning of
    the six commands of the workflow in their order: no command is run twice,
    none is skipped, the directory is not changed back.  It returns no error
    only after all six commands have run and succeeded. *)
Theorem gitOperations_runs_a_prefix :
  forall v env branch target log,
    v = main_go \/ v = part_000 ->
    (exists k r,
        (k <= 6)%nat
        /\ v_gitOperations v env branch target log
           = (Return r,
              (log ++ Chdir target
                   :: map step_event (firstn k (v_workflow v env branch)))%list)
        /\ (r = None ->
            k = 6%nat /\ os_Chdir env target = None
            /\ all_succeed env (runs log) (v_workflow v env branch)))
    /\ NoDup (Chdir target :: map step_event (v_workflow v env branch)).
Proof.
  intros v env branch target log Hv.
  split; [now apply gitOperations_cases|].
  destruct Hv as [->| ->]; cbn; repeat constructor; cbn; intuition discriminate.
Qed.

Lemma gitOperations_runs_a_prefix_sample :
  all_succeed sample_env 0 (Main_workflow sample_env "idea-24-03-05").
Proof.
  destruct (gitOperations_runs_a_prefix main_go sample_env "idea-24-03-05"
                                        "/target" [] (or_introl eq_refl))
    as ((k & r & _ & Hg & Hnone) & _).
  assert (Hr : r = None).
  { assert (E : fst (Main.gitOperations sample_env "idea-24-03-05" "/target" [])
                = Return None) by reflexivity.
    cbn [v_gitOperations main_go] in Hg. rewrite Hg in E. cbn [fst] in E.
    now injection E. }
  destruct (Hnone Hr) as (_ & _ & Hall). exact Hall.
Defined.

(** ** The selector bridge *)

(** X7. [selectFileWithFzf] always returns to its caller, and an error
    comes with the empty string, never with a selection.  When a pipe cannot
    be created the finder is not started at all; the candidates are written
    exactly when the finder was started; and no error is returned exactly
    when the finder was started and ended with status 0. *)
Theorem selectFileWithFzf_total :
  forall env files log,
    (exists sel err evs,
        selectFileWithFzf env files log = (Return (sel, err), (log ++ evs)%list)
        /\ (err <> None -> sel = "")
        /\ (In (Stdin (candidate_lines files)) evs <-> fzf_started (fzf env files))
        /\ (err = None <->
            fzf_started (fzf env files)
            /\ cmd_Wait (wait (fzf env files)) = None))
    /\ (forall e, stdin_pipe (fzf env files) = Some e ->
                  selectFileWithFzf env files log =
                  (Return ("", Some (Errorf "failed to create stdin pipe" e)), log))
    /\ (forall e, stdin_pipe (fzf env files) = None ->
                  stdout_pipe (fzf env files) = Some e ->
                  selectFileWithFzf env files log =
                  (Return ("", Some (Errorf "failed to create stdout pipe" e)), log)).
Proof.
  intros env files log. unfold selectFileWithFzf, fzf_started.
  destruct (stdin_pipe (fzf env files)) as [e1|].
  { unfold ret. split; [|split].
    - exists "", (Some (Errorf "failed to create stdin pipe" e1)), [].
      rewrite app_nil_r. split; [reflexivity|]. split; [reflexivity|].
      cbn [In]. intuition discriminate.
    - intros e He. now injection He as <-.
    - discriminate. }
  destruct (stdout_pipe (fzf env files)) as [e2|].
  { unfold ret. split; [|split].
    - exists "", (Some (Errorf "failed to create stdout pipe" e2)), [].
      rewrite app_nil_r. split; [reflexivity|]. split; [reflexivity|].
      cbn [In]. intuition discriminate.
    - discriminate.
    - intros e _ He. now injection He as <-. }
  split; [|split; discriminate].
  unfold bind, emit, ret.
  destruct (start (fzf env files)) as [e3|].
  { do 3 eexists. split; [reflexivity|]. split; [reflexivity|].
    cbn [In]. intuition discriminate. }
  rewrite <- app_assoc. cbn [app].
  destruct (cmd_Wait (wait (fzf env files))) as [[t|st|t]|];
    try destruct (ExitCode st =? 130)%Z;
    do 3 eexists; (split; [reflexivity|]);
      (split; [try reflexivity; congruence|]);
      cbn [In]; intuition (discriminate || auto).
Qed.

Lemma selectFileWithFzf_total_stdin_pipe :
  let env := with_fzf sample_env
               (fun _ => {| stdin_pipe := Some (errorString "too many open files");
                            stdout_pipe := None; start := None;
                            stdout := ""; wait := inr (Exited 0) |}) in
  selectFileWithFzf env ["notes/idea.md"] [] =
  (Return ("", Some (errorString
                       "failed to create stdin pipe: too many open files")), []).
Proof.
  intro env.
  destruct (selectFileWithFzf_total env ["notes/idea.md"] []) as (_ & H & _).
  apply (H (errorString "too many open files")). reflexivity.
Defined.

Lemma lines_app_LF (f rest : list ascii) :
  ~ In bufio.LF f -> lines (f ++ bufio.LF :: rest) = f :: lines rest.
Proof.
  induction f as [|c f IH]; intro H.
  - reflexivity.
  - cbn [app lines].
    destruct (Ascii.eqb_spec c bufio.LF) as [->|_]; [exfalso; apply H; now left|].
    rewrite IH by (intro; apply H; now right). reflexivity.
Qed.

Lemma lines_length_app_LF (f rest : list ascii) :
  length (lines (f ++ bufio.LF :: rest))
  = (count_occ ascii_dec f bufio.LF + 1 + length (lines rest))%nat.
Proof.
  induction f as [|c f IH].
  - cbn. reflexivity.
  - cbn [app lines count_occ].
    destruct (Ascii.eqb_spec c bufio.LF) as [->|Hne].
    + destruct (ascii_dec bufio.LF bufio.LF); [|congruence].
      cbn [length]. rewrite IH. lia.
    + destruct (ascii_dec c bufio.LF); [congruence|].
      destruct (lines (f ++ bufio.LF :: rest)) eqn:E.
      * cbn [length] in IH. lia.
      * cbn [length] in *. exact IH.
Qed.

Lemma bytes_candidate_lines (f : string) (files : list string) :
  bytes (candidate_lines (f :: files))
  = (bytes f ++ bufio.LF :: bytes (candidate_lines files))%list.
Proof.
  unfold candidate_lines. cbn [map String.concat].
  destruct (map (fun f0 => (f0 ++ nl)%string) files) eqn:E.
  - rewrite bytes_app. reflexivity.
  - rewrite !bytes_app. cbn. now rewrite <- app_assoc.
Qed.

(** X8. The candidates are written to the finder one per line, in the
    order of the list.  A reader that splits its input at line feeds gets the
    list back when no candidate contains a line feed; in general it sees as
    many lines as there are candidates and line feeds inside them, so a file
    name that contains a line feed is offered as several candidates. *)
Theorem candidate_lines_framing :
  forall files,
    length (lines (bytes (candidate_lines files)))
    = (length files + list_sum (map count_LF files))%nat
    /\ (Forall (fun f => ~ In bufio.LF (bytes f)) files ->
        map str (lines (bytes (candidate_lines files))) = files).
Proof.
  induction files as [|f files (IHlen & IHeq)].
  - split; reflexivity.
  - rewrite bytes_candidate_lines. split.
    + rewrite lines_length_app_LF, IHlen. cbn [length map].
      change (list_sum (count_LF f :: map count_LF files))
        with (count_LF f + list_sum (map count_LF files))%nat.
      set (n := list_sum (map count_LF files)). unfold count_LF. lia.
    + intro H. inversion H as [|? ? Hf Hrest]; subst.
      rewrite lines_app_LF by exact Hf. cbn [map].
      now rewrite str_bytes, IHeq.
Qed.

Lemma candidate_lines_framing_sample :
  map str (lines (bytes (candidate_lines ["a.txt"; "notes/idea.md"])))
  = ["a.txt"; "notes/idea.md"].
Proof.
  apply candidate_lines_framing.
  repeat constructor; cbn; intuition discriminate.
Defined.

(** ** The name deriver *)

Lemma not_sep_Forall (l : list ascii) :
  Forall (fun c => filepath.IsPathSeparator c = false) l ->
  Forall (fun c => not_sep c = true) l.
Proof.
  intro H. eapply Forall_impl; [|exact H].
  intros c Hc. unfold not_sep. now rewrite Hc.
Qed.

Lemma names_a_file_last (p f : list ascii) :
  f <> [] -> Forall (fun c => filepath.IsPathSeparator c = false) f ->
  names_a_file (str (p ++ f)).
Proof.
  intros Hne Hsep. unfold names_a_file. rewrite bytes_str, rev_app_distr.
  destruct (rev f) as [|c r] eqn:E.
  - apply (f_equal (@rev _)) in E. rewrite rev_involutive in E. contradiction.
  - cbn [app]. apply Forall_rev in Hsep. rewrite E in Hsep.
    now inversion Hsep.
Qed.

Lemma strip_directories_last (p f : list ascii) :
  Forall (fun c => filepath.IsPathSeparator c = false) f ->
  strip_directories (p ++ filepath.Separator :: f) = f.
Proof.
  intro Hsep. unfold strip_directories.
  rewrite rev_app_distr. cbn [rev]. rewrite <- app_assoc. cbn [app].
  rewrite takeWhile_app_stop.
  - apply rev_involutive.
  - apply Forall_rev. now apply not_sep_Forall.
  - reflexivity.
Qed.

Lemma strip_directories_none (f : list ascii) :
  Forall (fun c => filepath.IsPathSeparator c = false) f ->
  strip_directories f = f.
Proof.
  intro Hsep. unfold strip_directories.
  rewrite takeWhile_all by (apply Forall_rev; now apply not_sep_Forall).
  apply rev_involutive.
Qed.

(** X9. The generated branch name depends on the last element of the path
    only: a file gets the same name whatever directory it is in, so files
    with the same name in different directories get the same branch name. *)
Theorem generateBranchName_ignores_directories :
  forall now dir f,
    f <> "" ->
    Forall (fun c => filepath.IsPathSeparator c = false) (bytes f) ->
    generateBranchName now (dir ++ "/" ++ f) = generateBranchName now f.
Proof.
  intros now dir f Hne Hsep.
  assert (Hf : bytes f <> []).
  { intro E. apply Hne. apply bytes_inj. exact E. }
  assert (Hb : bytes (dir ++ "/" ++ f)
               = (bytes dir ++ filepath.Separator :: bytes f)%list).
  { now rewrite !bytes_app. }
  unfold generateBranchName.
  rewrite !stem_names_a_file.
  - now rewrite Hb, strip_directories_last, strip_directories_none.
  - rewrite <- (str_bytes f), <- (app_nil_l (bytes f)).
    now apply names_a_file_last.
  - rewrite <- (str_bytes (dir ++ "/" ++ f)), Hb.
    change (bytes dir ++ filepath.Separator :: bytes f)%list
      with (bytes dir ++ [filepath.Separator] ++ bytes f)%list.
    rewrite app_assoc. now apply names_a_file_last.
Qed.

Lemma generateBranchName_ignores_directories_sample :
  generateBranchName {| Year := 2024; Month := 3; Day := 5 |} "notes/idea.md"
  = generateBranchName {| Year := 2024; Month := 3; Day := 5 |} "idea.md".
Proof.
  apply (generateBranchName_ignores_directories _ "notes" "idea.md").
  - discriminate.
  - repeat constructor.
Defined.

Lemma dropWhile_app_stop {A} (f : A -> bool) (l : list A) (x : A) (r : list A) :
  Forall (fun y => f y = true) l -> f x = false ->
  dropWhile f (l ++ x :: r)%list = x :: r.
Proof.
  intros Hl Hx. induction Hl as [|y l Hy _ IH]; simpl.
  - now rewrite Hx.
  - now rewrite Hy, IH.
Qed.

(** X10. A file name that has a dot only at its beginning (a hidden file
    such as [.gitignore], or the path [.] itself) is all extension: nothing of
    it remains, and the generated branch name is a dash followed by the date,
    so it begins with a dash. *)
Theorem generateBranchName_hidden_file :
  forall now name,
    Forall (fun c => is_dot c = false /\ filepath.IsPathSeparator c = false)
           (bytes name) ->
    generateBranchName now ("." ++ name) = "-" ++ time.Format_06_01_02 now.
Proof.
  intros now name H.
  assert (Hsep : Forall (fun c => filepath.IsPathSeparator c = false)
                        (bytes ("." ++ name))).
  { rewrite bytes_app. constructor; [reflexivity|].
    eapply Forall_impl; [|exact H]. now intros c (_ & Hc). }
  assert (Hdot : Forall (fun c => not_dot c = true) (rev (bytes name))).
  { apply Forall_rev. eapply Forall_impl; [|exact H].
    intros c (Hc & _). unfold not_dot. now rewrite Hc. }
  unfold generateBranchName. rewrite stem_names_a_file.
  - rewrite strip_directories_none by exact Hsep.
    rewrite bytes_app. change (bytes ".") with ["."%char]. cbn [app].
    unfold strip_extension. cbn [existsb is_dot Ascii.eqb].
    change (is_dot "."%char) with true. cbn [orb].
    cbn [rev]. rewrite dropWhile_app_stop by (assumption || reflexivity).
    reflexivity.
  - rewrite <- (str_bytes ("." ++ name)), <- (app_nil_l (bytes ("." ++ name))).
    apply names_a_file_last; [|exact Hsep].
    rewrite bytes_app. discriminate.
Qed.

Lemma generateBranchName_hidden_file_sample :
  generateBranchName {| Year := 2024; Month := 3; Day := 5 |} ".gitignore"
  = "-24-03-05".
Proof.
  rewrite (generateBranchName_hidden_file _ "gitignore").
  - reflexivity.
  - repeat constructor.
Defined.

Lemma runes_fuel_ascii (l : list ascii) :
  Forall (fun c => (byte_val c < 128)%Z) l ->
  forall fuel, (length l <= fuel)%nat -> utf8.runes_fuel fuel l = map byte_val l.
Proof.
  induction 1 as [|c l Hc _ IH]; intros fuel Hfuel.
  - now destruct fuel.
  - destruct fuel as [|fuel]; [simpl in Hfuel; lia|].
    cbn [utf8.runes_fuel]. rewrite DecodeRune_ascii by exact Hc.
    cbn [skipn map]. rewrite IH by (simpl in Hfuel; lia). reflexivity.
Qed.

Lemma ascii_of_Z_byte_val (c : ascii) : ascii_of_Z (byte_val c) = c.
Proof.
  unfold ascii_of_Z, byte_val. rewrite N2Z.id. apply ascii_N_embedding.
Qed.

Lemma branch_char_ascii (c : ascii) :
  branch_char c = true -> (byte_val c < 128)%Z.
Proof.
  unfold branch_char, is_alnum. intro H.
  apply orb_true_iff in H. destruct H as [H|H].
  - change (byte_val "a") with 97%Z in H. change (byte_val "z") with 122%Z in H.
    change (byte_val "A") with 65%Z in H. change (byte_val "Z") with 90%Z in H.
    change (byte_val "0") with 48%Z in H. change (byte_val "9") with 57%Z in H.
    lia.
  - apply Ascii.eqb_eq in H. subst c. reflexivity.
Qed.

Lemma branch_char_sanitize_id (c : ascii) :
  branch_char c = true -> ascii_of_Z (sanitize (byte_val c)) = c.
Proof.
  unfold branch_char, sanitize. intro H.
  destruct (is_alnum (byte_val c)).
  - apply ascii_of_Z_byte_val.
  - cbn [orb] in H. apply Ascii.eqb_eq in H. now subst c.
Qed.

Lemma branch_char_not_dot_sep (c : ascii) :
  branch_char c = true -> is_dot c = false /\ filepath.IsPathSeparator c = false.
Proof.
  intro H. split.
  - destruct (is_dot c) eqn:E; [|reflexivity].
    apply Ascii.eqb_eq in E. subst c. discriminate.
  - destruct (filepath.IsPathSeparator c) eqn:E; [|reflexivity].
    apply Ascii.eqb_eq in E. subst c. discriminate.
Qed.

(** X11. A file name made of ASCII letters, digits and dashes, with one
    extension after it, is kept as it is: the generated branch name is that
    name followed by a dash and the date. *)
Theorem generateBranchName_keeps_plain_names :
  forall now stem ext,
    Forall (fun c => branch_char c = true) (bytes stem) ->
    Forall (fun c => is_dot c = false /\ filepath.IsPathSeparator c = false)
           (bytes ext) ->
    generateBranchName now (stem ++ "." ++ ext)
    = stem ++ "-" ++ time.Format_06_01_02 now.
Proof.
  intros now stem ext Hstem Hext.
  assert (Hb : bytes (stem ++ "." ++ ext)
               = (bytes stem ++ "."%char :: bytes ext)%list).
  { now rewrite !bytes_app. }
  assert (Hsep : Forall (fun c => filepath.IsPathSeparator c = false)
                        (bytes (stem ++ "." ++ ext))).
  { rewrite Hb. apply Forall_app. split.
    - eapply Forall_impl; [|exact Hstem].
      intros c Hc. now apply branch_char_not_dot_sep.
    - constructor; [reflexivity|].
      eapply Forall_impl; [|exact Hext]. now intros c (_ & Hc). }
  unfold generateBranchName. rewrite stem_names_a_file.
    - rewrite strip_directories_none by exact Hsep. rewrite Hb.
      unfold strip_extension. rewrite existsb_app. cbn [existsb].
      change (is_dot "."%char) with true. rewrite orb_true_r. cbn [orb].
      rewrite rev_app_distr. cbn [rev]. rewrite <- app_assoc. cbn [app].
      rewrite dropWhile_app_stop.
      + cbn [tl]. rewrite rev_involutive, Map_sanitize, bytes_str.
        unfold utf8.runes.
        rewrite runes_fuel_ascii.
        * rewrite map_map.
          replace (map (fun c => ascii_of_Z (sanitize (byte_val c))) (bytes stem))
            with (bytes stem).
          -- now rewrite str_bytes.
          -- symmetry. rewrite <- (map_id (bytes stem)) at 2.
             apply map_ext_in. intros c Hc.
             rewrite Forall_forall in Hstem. now apply branch_char_sanitize_id, Hstem.
        * eapply Forall_impl; [|exact Hstem].
          intros c Hc. now apply branch_char_ascii.
        * reflexivity.
      + apply Forall_rev. eapply Forall_impl; [|exact Hext].
        intros c (Hc & _). unfold not_dot. now rewrite Hc.
      + reflexivity.
    - rewrite <- (str_bytes (stem ++ "." ++ ext)),
        <- (app_nil_l (bytes (stem ++ "." ++ ext))).
      apply names_a_file_last; [|exact Hsep].
      rewrite Hb. destruct (bytes stem); discriminate.
Qed.

Lemma generateBranchName_keeps_plain_names_sample :
  generateBranchName {| Year := 2024; Month := 3; Day := 5 |} "My-File-v2.txt"
  = "My-File-v2-24-03-05".
Proof.
  rewrite (generateBranchName_keeps_plain_names _ "My-File-v2" "txt").
  - reflexivity.
  - repeat constructor.
  - repeat constructor.
Defined.

(** ** The enumerator and the paths of [main] *)

Lemma split_join_app (es : list (list ascii)) (p : list ascii) :
  es <> [] -> Forall elem_ok es ->
  filepath.split (filepath.join es ++ filepath.Separator :: p)
  = (es ++ filepath.split p)%list.
Proof.
  intros Hne Hes. induction es as [|e es IH]; [congruence|].
  inversion Hes as [|? ? (_ & _ & _ & He) Hes']; subst.
  destruct es as [|e' es].
  - cbn [filepath.join app]. now apply split_app_sep.
  - change (filepath.join (e :: e' :: es))
      with (e ++ filepath.Separator :: filepath.join (e' :: es))%list.
    rewrite <- app_assoc. cbn [app].
    rewrite split_app_sep by exact He.
    rewrite IH by (discriminate || assumption). reflexivity.
Qed.

Lemma Clean_rooted_dot (es : list (list ascii)) :
  Forall elem_ok es ->
  filepath.Clean_bytes (rooted_path es ++ filepath.Separator :: filepath.dot)
  = rooted_path es.
Proof.
  intro Hes. destruct es as [|e es]; [reflexivity|].
  unfold filepath.Clean_bytes, rooted_path. cbn [app filepath.is_rooted].
  change (filepath.IsPathSeparator filepath.Separator) with true. cbv iota.
  f_equal. f_equal.
  change (filepath.split (filepath.Separator :: (filepath.join (e :: es)
                           ++ filepath.Separator :: filepath.dot)%list))
    with ([] :: filepath.split (filepath.join (e :: es)
                                ++ filepath.Separator :: filepath.dot)%list).
  rewrite clean_elems_skip_empty, split_join_app by (discriminate || assumption).
  unfold filepath.clean_elems. rewrite fold_left_app.
  rewrite (fold_clean_ok true (e :: es)) by assumption.
  change (filepath.split filepath.dot) with [filepath.dot].
  cbn [fold_left]. unfold filepath.clean_step at 1.
  change (list_ascii_eqb filepath.dot [] || list_ascii_eqb filepath.dot filepath.dot)
    with true. cbv iota.
  rewrite app_nil_r. apply rev_involutive.
Qed.

Lemma Join_abs_dot (ds : list string) :
  Forall valid_name ds -> filepath.Join (abs_path ds) "." = abs_path ds.
Proof.
  intro Hds. unfold filepath.Join. rewrite abs_path_not_empty.
  unfold filepath.Clean. rewrite !bytes_app, bytes_abs_path.
  change (bytes "/") with [filepath.Separator].
  change (bytes ".") with filepath.dot. cbn [app].
  rewrite Clean_rooted_dot by now apply valid_names_elems.
  rewrite <- bytes_abs_path. apply str_bytes.
Qed.

Lemma Join_abs_render (ds ns : list string) :
  Forall valid_name ds -> Forall valid_name ns ->
  filepath.Join (abs_path ds) (render ns) = abs_path (ds ++ ns).
Proof.
  intros Hds Hns. destruct ns as [|n ns].
  - cbn [render]. rewrite app_nil_r. now apply Join_abs_dot.
  - apply Join_abs_path; [assumption|assumption|discriminate].
Qed.

(** X12. On a readable tree under a clean absolute root, every candidate
    that [findFiles] returns leads back to the entry it was made from: joined
    to the search root, as [main] does to get the source of the copy, it is
    the absolute path of an entry of the tree that is not a directory, and
    [filepath.Rel] takes that path back to the candidate. *)
Theorem candidates_lead_back_to_entries :
  forall env ds,
    Forall valid_name ds ->
    wf_tree (lstat env (abs_path ds)) ->
    forall p,
      In p (fst (findFiles env (abs_path ds))) ->
      exists ns k,
        at_path (lstat env (abs_path ds)) ns (NFile k)
        /\ p = render ns
        /\ filepath.Join (abs_path ds) p = abs_path (ds ++ ns)
        /\ filepath.Rel (abs_path ds) (filepath.Join (abs_path ds) p) = inl p.
Proof.
  intros env ds Hds Hwf p Hin.
  rewrite findFiles_wf in Hin by assumption. cbn [fst] in Hin.
  apply in_map_iff in Hin. destruct Hin as (ns & <- & Hin).
  apply list_files_at_path in Hin. destruct Hin as (ns' & k & Hat & ->).
  cbn [app] in *.
  apply (proj1 (at_path_sort_tree _ _ _)) in Hat.
  assert (Hns : Forall valid_name ns') by eauto using at_path_valid.
  exists ns', k. split; [exact Hat|]. split; [reflexivity|].
  rewrite Join_abs_render by assumption.
  split; [reflexivity|]. now apply Rel_abs_path.
Qed.

Lemma candidates_lead_back_to_entries_sample :
  exists ns k,
    at_path (lstat sample_env "/search") ns (NFile k)
    /\ "notes/idea.md" = render ns
    /\ filepath.Join "/search" "notes/idea.md" = abs_path (["search"] ++ ns)
    /\ filepath.Rel "/search" (filepath.Join "/search" "notes/idea.md")
       = inl "notes/idea.md".
Proof.
  apply (candidates_lead_back_to_entries sample_env ["search"]).
  - valid_names.
  - wf_tree_tac.
  - cbn. now left.
Defined.

(** X13. A search root that is itself a file, not a directory, is accepted:
    the only candidate is [.].  When that candidate is selected the source of
    the copy is the search root, the destination is the target root itself
    (a directory, in both variants), and the generated branch name is a dash
    followed by the date. *)
Theorem search_root_is_a_file :
  forall env ds dt k,
    Forall valid_name ds -> Forall valid_name dt ->
    lstat env (abs_path ds) = NFile k ->
    findFiles env (abs_path ds) = (["."], None)
    /\ filepath.Join (abs_path ds) "." = abs_path ds
    /\ Main.destPath (abs_path dt) "." = abs_path dt
    /\ Part000.destPath (abs_path dt) "." = abs_path dt
    /\ generateBranchName (time_Now env) "."
       = "-" ++ time.Format_06_01_02 (time_Now env).
Proof.
  intros env ds dt k Hds Hdt Hroot. split; [|split; [|split; [|split]]].
  - rewrite findFiles_wf by (try rewrite Hroot; auto using wf_file).
    rewrite Hroot. reflexivity.
  - now apply Join_abs_dot.
  - unfold Main.destPath. change (filepath.Base ".") with ".".
    now apply Join_abs_dot.
  - unfold Part000.destPath. now apply Join_abs_dot.
  - reflexivity.
Qed.

Lemma search_root_is_a_file_sample :
  let env := with_lstat sample_env (fun _ => NFile Regular) in
  findFiles env "/search" = (["."], None)
  /\ filepath.Join "/search" "." = "/search"
  /\ Main.destPath "/target" "." = "/target".
Proof.
  intro env.
  destruct (search_root_is_a_file env ["search"] ["target"] Regular)
    as (H1 & H2 & H3 & _).
  - valid_names.
  - valid_names.
  - reflexivity.
  - repeat split; assumption.
Defined.

(** X14. [main] does not compare the source of the copy with its
    destination.  When the search root and the target root are the same
    directory (as with [--search .] and the default target), source and
    destination are the same path for a file selected at the top of the tree
    in [src/main.go], and for every selected file in the earlier variant: the
    file is opened, created again under its own name and copied onto
    itself. *)
Theorem main_copies_a_file_onto_itself :
  forall env ds files,
    Forall valid_name ds ->
    (forall name,
        valid_name name ->
        reaches_workflow env (abs_path ds) (abs_path ds) files name
                         (Main.destPath (abs_path ds) name) ->
        sourcePath (abs_path ds) name = abs_path (ds ++ [name])
        /\ Main.destPath (abs_path ds) name = abs_path (ds ++ [name])
        /\ In (Open (abs_path (ds ++ [name]))) (snd (Main.main env []))
        /\ In (Create (abs_path (ds ++ [name]))) (snd (Main.main env []))
        /\ In (Copy (abs_path (ds ++ [name])) (abs_path (ds ++ [name])))
              (snd (Main.main env [])))
    /\ (forall sel,
           reaches_workflow env (abs_path ds) (abs_path ds) files sel
                            (Part000.destPath (abs_path ds) sel) ->
           Part000.destPath (abs_path ds) sel = sourcePath (abs_path ds) sel
           /\ In (Copy (sourcePath (abs_path ds) sel) (sourcePath (abs_path ds) sel))
                 (snd (Part000.main env []))).
Proof.
  intros env ds files Hds. split.
  - intros name Hname Hr.
    assert (Hsrc : sourcePath (abs_path ds) name = abs_path (ds ++ [name]))
      by now apply Join_abs_name.
    assert (Hdst : Main.destPath (abs_path ds) name = abs_path (ds ++ [name])).
    { pose proof (Base_rel_path [] name Hname) as Hb.
      change (rel_path ([] ++ [name])) with name in Hb.
      unfold Main.destPath. rewrite Hb. exact Hsrc. }
    split; [exact Hsrc|]. split; [exact Hdst|].
    unfold sourcePath in Hsrc.
    repeat split;
      apply (Main_main_keeps_copy env (abs_path ds) (abs_path ds) files name _ Hr);
      rewrite Hsrc, Hdst; unfold copy_events; cbn; auto.
  - intros sel Hr. split; [reflexivity|].
    rewrite (Part000_main_reaches_workflow _ _ _ _ _ Hr). unfold bind at 1.
    match goal with
    | |- context [Part000.gitOperations env ?b ?t ?l] =>
      destruct (Part000_gitOperations_cases env b t l) as (k & r & _ & Hg & _);
        rewrite Hg
    end.
    assert (Hin : forall tail,
               In (Copy (sourcePath (abs_path ds) sel) (sourcePath (abs_path ds) sel))
                  (log_before_workflow "Copying" "Performing git operations..."
                     (abs_path ds) files sel (Part000.destPath (abs_path ds) sel)
                   ++ tail)%list).
    { intro tail. apply in_or_app. left. unfold log_before_workflow.
      apply in_or_app. right. right. apply in_or_app. left.
      unfold copy_events. cbn. auto. }
    destruct r as [err|]; unfold bind, Printf, Println, emit, os_Exit; cbn [snd].
    + rewrite <- app_assoc. apply Hin.
    + rewrite <- app_assoc. apply Hin.
Qed.

Lemma main_copies_a_file_onto_itself_sample :
  let env :=
      with_roots
        (with_fzf (with_lstat sample_env (fun _ => symlink_tree))
                  (fun _ => fzf_run ("idea.md" ++ nl) (inr (Exited 0))))
        "/search" "/search" in
  In (Copy "/search/idea.md" "/search/idea.md") (snd (Main.main env [])).
Proof.
  intro env.
  destruct (main_copies_a_file_onto_itself env ["search"] ["idea.md"; "latest"])
    as (H & _).
  - valid_names.
  - destruct (H "idea.md") as (_ & _ & _ & _ & Hc).
    + unfold valid_name, elem_ok; cbn; repeat split; try discriminate;
        repeat constructor.
    + repeat split; try reflexivity. discriminate.
    + exact Hc.
Defined.

(** X15. The roots that [main] passes on are absolute and clean.  When the
    working directory that the system reports is an absolute path, the
    search root given to [findFiles] and the target root given to
    [gitOperations] begin with a separator and consist of proper names only:
    no empty element, no [.] and no [..]. *)
Theorem main_roots_are_clean_absolute :
  forall env absSearchDir absTargetDir,
    (forall wd, os_Getwd env = inl wd -> filepath.IsAbs wd = true) ->
    preconditions env absSearchDir absTargetDir ->
    exists ds dt,
      Forall valid_name ds /\ Forall valid_name dt
      /\ absSearchDir = abs_path ds /\ absTargetDir = abs_path dt.
Proof.
  intros env absS absT Hwd (_ & _ & HabsS & HabsT & _).
  destruct (Abs_form env _ _ Hwd HabsS) as (ds & Hds & ->).
  destruct (Abs_form env _ _ Hwd HabsT) as (dt & Hdt & ->).
  now exists ds, dt.
Qed.

Lemma main_roots_are_clean_absolute_sample :
  let env := with_roots sample_env "notes/../drafts/" "." in
  Abs env (flag_search env) = inl "/home/owl/drafts"
  /\ Abs env (flag_target env) = inl "/home/owl"
  /\ exists ds dt,
      Forall valid_name ds /\ Forall valid_name dt
      /\ "/home/owl/drafts" = abs_path ds /\ "/home/owl" = abs_path dt.
Proof.
  intro env. split; [reflexivity|]. split; [reflexivity|].
  apply (main_roots_are_clean_absolute env).
  - intros wd Hwd. injection Hwd as <-. reflexivity.
  - repeat split; reflexivity.
Defined.

(** ** Trimming and the ends of a selection *)

(** X16. A selection that [selectFileWithFzf] returns never begins and
    never ends with an ASCII white-space byte, whatever the finder printed:
    a file whose name begins or ends with a space cannot be selected under
    its own name. *)
Theorem selection_has_trimmed_ends :
  forall env files log sel err log',
    selectFileWithFzf env files log = (Return (sel, err), log') ->
    (forall c t, bytes sel = c :: t -> ascii_space c = false)
    /\ (forall c r, rev (bytes sel) = c :: r -> ascii_space c = false).
Proof.
  intros env files log sel err log' H.
  assert (Hsel : sel = "" \/ exists s, sel = strings.TrimSpace s).
  { unfold selectFileWithFzf in H.
    destruct (stdin_pipe (fzf env files)); [injection H as <- _ _; now left|].
    destruct (stdout_pipe (fzf env files)); [injection H as <- _ _; now left|].
    unfold bind, emit, ret in H.
    destruct (start (fzf env files)); [injection H as <- _ _; now left|].
    destruct (cmd_Wait (wait (fzf env files))) as [[t|st|t]|];
      try destruct (ExitCode st =? 130)%Z;
      injection H as <- _ _; (now left) || (right; eexists; reflexivity). }
  destruct Hsel as [->|(s & ->)].
  - split; discriminate.
  - apply TrimSpace_ends.
Qed.

Lemma selection_has_trimmed_ends_sample :
  let env := with_fzf sample_env
               (fun _ => fzf_run ("  idea.md " ++ nl) (inr (Exited 0))) in
  selectFileWithFzf env ["  idea.md "] []
  = (Return ("idea.md", None), fzf_events ["  idea.md "])
  /\ ascii_space "i" = false.
Proof.
  intro env.
  assert (E : selectFileWithFzf env ["  idea.md "] []
              = (Return ("idea.md", None), fzf_events ["  idea.md "]))
    by reflexivity.
  split; [exact E|].
  destruct (selection_has_trimmed_ends env _ _ _ _ _ E) as (H & _).
  apply (H "i"%char (bytes "dea.md")). reflexivity.
Defined.



(** ** The order of the candidates *)

Lemma insert_entry_sorted e l :
  StronglySorted (fun a b => String.leb (fst a) (fst b) = true) l ->
  StronglySorted (fun a b => String.leb (fst a) (fst b) = true) (insert_entry e l).
Proof.
  induction 1 as [|x t Hsorted IH Hx]; cbn [insert_entry].
  - constructor; constructor.
  - destruct (String.leb (fst e) (fst x)) eqn:E.
    + constructor; [now constructor|].
      constructor; [exact E|].
      eapply Forall_impl; [|exact Hx].
      intros y Hy. cbn beta in *. eapply string_leb_trans; eassumption.
    + constructor; [exact IH|].
      apply Forall_forall. intros y Hy.
      apply (Permutation_in _ (insert_entry_perm e t)) in Hy.
      destruct Hy as [<-|Hy].
      * now apply string_leb_false.
      * rewrite Forall_forall in Hx. now apply Hx.
Qed.

Lemma sort_entries_sorted l :
  StronglySorted (fun a b => String.leb (fst a) (fst b) = true) (sort_entries l).
Proof.
  induction l as [|e l IH]; cbn [sort_entries fold_right].
  - constructor.
  - now apply insert_entry_sorted.
Qed.

Lemma StronglySorted_app {A} (R : A -> A -> Prop) (l1 l2 : list A) :
  StronglySorted R l1 -> StronglySorted R l2 ->
  (forall x y, In x l1 -> In y l2 -> R x y) ->
  StronglySorted R (l1 ++ l2).
Proof.
  induction 1 as [|x t Hsorted IH Hx]; intros H2 Hcross; [exact H2|].
  cbn [app]. constructor.
  - apply IH; [exact H2|]. intros a b Ha Hb. apply Hcross; [now right|exact Hb].
  - apply Forall_app. split; [exact Hx|].
    apply Forall_forall. intros y Hy. apply Hcross; [now left|exact Hy].
Qed.

Lemma path_leb_common_prefix (prefix : list string) a b x y :
  a <> b ->
  path_leb (prefix ++ a :: x) (prefix ++ b :: y) = String.leb a b.
Proof.
  intro Hab. induction prefix as [|c prefix IH]; cbn [app path_leb].
  - apply String.eqb_neq in Hab. now rewrite Hab.
  - now rewrite String.eqb_refl.
Qed.

Lemma list_files_sorted t :
  wf_tree t ->
  forall prefix,
    StronglySorted (fun p q => path_leb p q = true) (list_files prefix (sort_tree t)).
Proof.
  induction t as [e|k|rd entries IH] using Node_tree_ind; intros Hwf prefix.
  - constructor.
  - cbn [sort_tree list_files]. constructor; constructor.
  - pose proof (wf_sort_tree _ Hwf) as Hwf'.
    apply wf_tree_dir_inv in Hwf. destruct Hwf as (-> & _ & _ & Hsub).
    cbn [sort_tree] in *. apply wf_tree_dir_inv in Hwf'.
    destruct Hwf' as (_ & Hnd & _ & _).
    cbn [list_files].
    set (l := map (fun e => (fst e, sort_tree (snd e))) entries) in *.
    assert (Hpieces : forall e, In e (sort_entries l) ->
              forall prefix',
                StronglySorted (fun p q => path_leb p q = true)
                               (list_files prefix' (snd e))).
    { intros e He prefix'.
      apply (Permutation_in _ (sort_entries_perm l)) in He.
      subst l. apply in_map_iff in He. destruct He as ([name child] & <- & Hin).
      cbn [fst snd]. rewrite Forall_forall in IH, Hsub.
      apply (IH _ Hin). apply (Hsub _ Hin). }
    pose proof (sort_entries_sorted l) as Hsorted.
    induction Hsorted as [|e es Hes IHes He]; cbn [flat_map].
    + constructor.
    + cbn [map] in Hnd. inversion Hnd as [|? ? Hnotin Hnd']; subst.
      apply StronglySorted_app.
      * apply Hpieces. now left.
      * apply IHes; [exact Hnd'|]. intros e' He'. apply Hpieces. now right.
      * intros x y Hx Hy.
        apply in_flat_map in Hy. destruct Hy as (e' & He' & Hy).
        apply list_files_at_path in Hx, Hy.
        destruct Hx as (nx & kx & _ & ->), Hy as (ny & ky & _ & ->).
        rewrite <- !app_assoc. cbn [app].
        rewrite path_leb_common_prefix.
        -- rewrite Forall_forall in He. now apply He.
        -- intro E. apply Hnotin. rewrite E. now apply in_map.
Qed.

(** X18. On a readable tree under a clean absolute root the candidates come
    in the order of the paths by their elements: [findFiles] returns the
    relative paths of exactly the entries that are not directories, each path
    once, in increasing order of the lists of their names, names being
    compared byte by byte.  This fixes the whole list; it is the order of the
    elements, not of the path strings. *)
Theorem candidates_are_in_path_order :
  forall env ds,
    Forall valid_name ds ->
    wf_tree (lstat env (abs_path ds)) ->
    exists l,
      fst (findFiles env (abs_path ds)) = map render l
      /\ StronglySorted (fun p q => path_leb p q = true) l
      /\ NoDup l
      /\ (forall ns, In ns l <->
                     exists k, at_path (lstat env (abs_path ds)) ns (NFile k)).
Proof.
  intros env ds Hds Hwf.
  exists (list_files [] (sort_tree (lstat env (abs_path ds)))).
  split; [now rewrite findFiles_wf|].
  split; [now apply list_files_sorted|].
  split; [apply list_files_NoDup; now apply wf_sort_tree|].
  intro ns. rewrite list_files_at_path. cbn [app]. split.
  - intros (ns' & k & Hat & ->). exists k. now apply at_path_sort_tree.
  - intros (k & Hat). exists ns, k. split; [now apply at_path_sort_tree|reflexivity].
Qed.

Lemma candidates_are_in_path_order_sample :
  let env :=
      with_lstat sample_env
        (fun _ => NDir None [("a.txt", NFile Regular);
                             ("a", NDir None [("b", NFile Regular)])]) in
  findFiles env "/search" = (["a/b"; "a.txt"], None)
  /\ String.leb "a.txt" "a/b" = true
  /\ exists l,
      fst (findFiles env "/search") = map render l
      /\ StronglySorted (fun p q => path_leb p q = true) l.
Proof.
  intro env. split; [reflexivity|]. split; [reflexivity|].
  destruct (candidates_are_in_path_order env ["search"]) as (l & H1 & H2 & _).
  - valid_names.
  - wf_tree_tac.
  - now exists l.
Defined.

(** ** The entry point: what is reported *)

(** X19. What [main] does when no file comes back from the finder.  When
    the finder ends with status 130 the run ends with the message that the
    selection was cancelled; when it ends with status 0 and printed nothing,
    or a first line of ASCII white space only, with the message that no file
    was selected; when it ends with another status, with that status in the
    message.  In each case [main] exits with status 1 and has done nothing
    after the finder: nothing is copied, no command is run. *)
Theorem main_no_selection :
  forall env absS absT files,
    preconditions env absS absT ->
    findFiles env absS = (files, None) -> files <> [] ->
    fzf_started (fzf env files) ->
    (forall st,
        wait (fzf env files) = inr st -> ExitCode st = 130%Z ->
        Main.main env [] =
        (Exit 1%Z,
         (fzf_events files
          ++ [Print ("error selecting file: file selection cancelled" ++ nl)])%list)
        /\ Part000.main env [] =
           (Exit 1%Z,
            (fzf_events files
             ++ [Print ("Error selecting file: file selection cancelled" ++ nl)])%list))
    /\ (forall line rest,
           wait (fzf env files) = inr (Exited 0) ->
           stdout (fzf env files) = ""
           \/ (stdout (fzf env files) = line ++ nl ++ rest
               /\ ~ In bufio.LF (bytes line)
               /\ Forall (fun c => ascii_space c = true) (bytes line)) ->
           Main.main env [] =
           (Exit 1%Z, (fzf_events files ++ [Print ("no file selected" ++ nl)])%list)
           /\ Part000.main env [] =
              (Exit 1%Z, (fzf_events files ++ [Print ("No file selected" ++ nl)])%list))
    /\ (forall c,
           wait (fzf env files) = inr (Exited c) -> c <> 0%Z -> c <> 130%Z ->
           Main.main env [] =
           (Exit 1%Z,
            (fzf_events files
             ++ [Print ("error selecting file: fzf failed: exit status "
                        ++ Itoa c ++ nl)])%list)
           /\ Part000.main env [] =
              (Exit 1%Z,
               (fzf_events files
                ++ [Print ("Error selecting file: fzf failed: exit status "
                           ++ Itoa c ++ nl)])%list)).
Proof.
  intros env absS absT files (Hs & Hstat & HabsS & HabsT & Hcmd) Hfiles Hne Hstart.
  pose proof (selectFileWithFzf_started env files [] Hstart) as Hsel.
  cbn [app] in Hsel.
  assert (HM : forall r,
             selectFileWithFzf env files [] = (Return r, fzf_events files) ->
             Main.main env [] =
             (let '(selectedFile, err) := r in
              match err with
              | Some err =>
                (Exit 1%Z,
                 (fzf_events files
                  ++ [Print ("error selecting file: " ++ Error err ++ nl)])%list)
              | None =>
                if String.eqb selectedFile "" then
                  (Exit 1%Z,
                   (fzf_events files ++ [Print ("no file selected" ++ nl)])%list)
                else Main.main env []
              end)).
  { intros [sel [err|]] E.
    - unfold Main.main. rewrite Hs, Hstat, HabsS, HabsT, Hcmd, Hfiles.
      rewrite (length_eqb_0 _ Hne). unfold bind at 1. rewrite E. reflexivity.
    - destruct (String.eqb sel "") eqn:Esel; [|reflexivity].
      unfold Main.main. rewrite Hs, Hstat, HabsS, HabsT, Hcmd, Hfiles.
      rewrite (length_eqb_0 _ Hne). unfold bind at 1. rewrite E, Esel. reflexivity. }
  assert (HP : forall r,
             selectFileWithFzf env files [] = (Return r, fzf_events files) ->
             Part000.main env [] =
             (let '(selectedFile, err) := r in
              match err with
              | Some err =>
                (Exit 1%Z,
                 (fzf_events files
                  ++ [Print ("Error selecting file: " ++ Error err ++ nl)])%list)
              | None =>
                if String.eqb selectedFile "" then
                  (Exit 1%Z,
                   (fzf_events files ++ [Print ("No file selected" ++ nl)])%list)
                else Part000.main env []
              end)).
  { intros [sel [err|]] E.
    - unfold Part000.main. rewrite Hs, Hstat, HabsS, HabsT, Hcmd, Hfiles.
      rewrite (length_eqb_0 _ Hne). unfold bind at 1. rewrite E. reflexivity.
    - destruct (String.eqb sel "") eqn:Esel; [|reflexivity].
      unfold Part000.main. rewrite Hs, Hstat, HabsS, HabsT, Hcmd, Hfiles.
      rewrite (length_eqb_0 _ Hne). unfold bind at 1. rewrite E, Esel. reflexivity. }
  split; [|split].
  - intros st Hw Hc. rewrite Hw in Hsel. unfold cmd_Wait in Hsel.
    assert (Hsucc : Success st = false).
    { destruct st as [c|sg]; [|reflexivity]. cbn in Hc |- *. subst c. reflexivity. }
    rewrite Hsucc, Hc in Hsel. cbn [Z.eqb Pos.eqb] in Hsel.
    split; [rewrite (HM _ Hsel)|rewrite (HP _ Hsel)]; reflexivity.
  - intros line rest Hw Hout. rewrite Hw in Hsel. cbn [cmd_Wait Success Z.eqb] in Hsel.
    assert (Hempty : strings.TrimSpace
                       match bufio.Scan (stdout (fzf env files)) with
                       | Some text => text
                       | None => ""
                       end = "").
    { destruct Hout as [->|(-> & Hnl & Hwhite)]; [reflexivity|].
      destruct (Scan_first_line line rest Hnl) as (text & -> & ->).
      now apply TrimSpace_white. }
    rewrite Hempty in Hsel.
    split; [rewrite (HM _ Hsel)|rewrite (HP _ Hsel)]; reflexivity.
  - intros c Hw Hc0 Hc130. rewrite Hw in Hsel. cbn [cmd_Wait Success ExitCode] in Hsel.
    apply Z.eqb_neq in Hc0, Hc130. rewrite Hc0 in Hsel.
    cbn [ExitCode] in Hsel. rewrite Hc130 in Hsel.
    split; [rewrite (HM _ Hsel)|rewrite (HP _ Hsel)]; reflexivity.
Qed.

Lemma main_no_selection_cancelled :
  let env := with_fzf sample_env
               (fun _ => fzf_run "" (inr (Exited 130))) in
  Main.main env [] =
  (Exit 1%Z,
   [Start "fzf" ["--height"; "40%"]; Stdin ("notes/idea.md" ++ nl);
    Print ("error selecting file: file selection cancelled" ++ nl)]).
Proof.
  intro env.
  destruct (main_no_selection env "/search" "/target" ["notes/idea.md"])
    as (H & _).
  - repeat split; reflexivity.
  - reflexivity.
  - discriminate.
  - repeat split.
  - destruct (H (Exited 130)) as (HM & _); [reflexivity|reflexivity|exact HM].
Defined.

Lemma string_app_assoc (a b c : string) : ((a ++ b) ++ c = a ++ b ++ c)%string.
Proof. induction a as [|x a IH]; cbn; [reflexivity|now rewrite IH]. Qed.

(** X20. How a failure of the copy is reported, in either variant.  After
    a file was selected, when a phase of the copy is the first to fail,
    [main] prints the error of [copyFile], which names that phase, after the
    words "error copying file", and exits with status 1.  The phases before
    the failing one were carried out and are not undone, and no directory is
    changed and no command is run. *)
Theorem main_copy_failure :
  forall v env absS absT files sel k e,
    v = main_go \/ v = part_000 ->
    preconditions env absS absT ->
    findFiles env absS = (files, None) -> files <> [] ->
    selects env files sel ->
    nth_error (copy_results env (sourcePath absS sel) (v_destPath v absT sel)) k
    = Some (Some e) ->
    (forall i, (i < k)%nat ->
               nth_error (copy_results env (sourcePath absS sel)
                                       (v_destPath v absT sel)) i = Some None) ->
    v_main v env [] =
    (Exit 1%Z,
     (fzf_events files
      ++ copying_message v (sourcePath absS sel) (v_destPath v absT sel)
      :: firstn (S k) (copy_events (sourcePath absS sel) (v_destPath v absT sel))
      ++ [Print (v_copy_error v ++ nth k copy_labels "" ++ ": "
                 ++ Error e ++ nl)])%list)
    /\ filter is_git (snd (v_main v env [])) = [].
Proof.
  intros v env absS absT files sel k e Hv Hpre Hfiles Hne Hsel Hk Hbefore.
  assert (HM : v_main v env [] =
               (Exit 1%Z,
                (fzf_events files
                 ++ copying_message v (sourcePath absS sel) (v_destPath v absT sel)
                 :: firstn (S k) (copy_events (sourcePath absS sel)
                                              (v_destPath v absT sel))
                 ++ [Print (v_copy_error v ++ nth k copy_labels "" ++ ": "
                            ++ Error e ++ nl)])%list)).
  { destruct (copyFile_cases env (sourcePath absS sel) (v_destPath v absT sel)
                (fzf_events files
                 ++ [copying_message v (sourcePath absS sel)
                                     (v_destPath v absT sel)])%list)
      as [((H1 & H2 & H3 & H4) & _)|(k' & e' & Hk' & Hke' & Hbefore' & Hc)].
    - exfalso. unfold copy_results in Hk. rewrite H1, H2, H3, H4 in Hk.
      destruct k as [|[|[|[|k]]]]; cbn in Hk; try discriminate.
      destruct k; discriminate.
    - assert (k' = k).
      { destruct (Nat.lt_trichotomy k' k) as [Hlt|[Heq|Hgt]]; [|exact Heq|].
        - rewrite (Hbefore k' Hlt) in Hke'. discriminate.
        - rewrite (Hbefore' k Hgt) in Hk. discriminate. }
      subst k'. rewrite Hk in Hke'. injection Hke' as <-.
      rewrite (main_copy_fails v env absS absT files sel _ _ Hv Hpre Hfiles Hne Hsel Hc).
      unfold Errorf. cbn [Error].
      rewrite <- !app_assoc, !string_app_assoc. reflexivity. }
  split; [exact HM|].
  rewrite HM. cbn [snd]. rewrite filter_app. unfold copying_message.
  cbn [filter is_git fzf_events app].
  rewrite filter_app. cbn [filter is_git]. rewrite app_nil_r.
  assert (Hcopy : forall l, Forall (fun x => is_copy x = true) l ->
                            filter is_git l = []).
  { induction 1 as [|x l Hx _ IH]; [reflexivity|].
    cbn [filter]. destruct x; try discriminate; exact IH. }
  apply Hcopy. apply Forall_forall. intros x Hx. apply In_firstn in Hx.
  unfold copy_events in Hx. cbn [In] in Hx.
  destruct Hx as [<-|[<-|[<-|[<-|[]]]]]; reflexivity.
Qed.

Lemma main_copy_failure_create :
  let env := with_copy sample_env
               (fun k => if (k =? 2)%nat then Some (errorString "permission denied")
                         else None) in
  Main.main env [] =
  (Exit 1%Z,
   [Start "fzf" ["--height"; "40%"]; Stdin ("notes/idea.md" ++ nl);
    Print ("copying /search/notes/idea.md to /target/idea.md..." ++ nl);
    Open "/search/notes/idea.md"; MkdirAll "/target"; Create "/target/idea.md";
    Print ("error copying file: failed to create destination file: "
           ++ "permission denied" ++ nl)]).
Proof.
  intro env.
  destruct (main_copy_failure main_go env "/search" "/target" ["notes/idea.md"]
                              "notes/idea.md" 2%nat (errorString "permission denied"))
    as (H & _).
  - now left.
  - repeat split; reflexivity.
  - reflexivity.
  - discriminate.
  - split; reflexivity.
  - reflexivity.
  - intros [|[|i]] Hi; try reflexivity; lia.
  - exact H.
Defined.

(** X21. How a failure of the workflow is reported, in either variant.
    After the copy, when the change of directory fails, or a command of the
    workflow is the first to fail, [main] prints the error of
    [gitOperations], which names that step, after the words "error in git
    operations", and exits with status 1.  The copied file and the steps
    before the failing one are left as they are: nothing is undone, and the
    message of success is not printed. *)
Theorem main_workflow_failure :
  forall v env absS absT files sel,
    v = main_go \/ v = part_000 ->
    reaches_workflow env absS absT files sel (v_destPath v absT sel) ->
    (forall err,
        os_Chdir env absT = Some err ->
        v_main v env [] =
        (Exit 1%Z,
         (log_before_workflow (v_copying v) (v_performing v)
                              absS files sel (v_destPath v absT sel)
          ++ [Chdir absT;
              Print (v_git_error v ++ "failed to change to target directory: "
                     ++ Error err ++ nl)])%list))
    /\ (forall k e,
           os_Chdir env absT = None ->
           first_failure env 0 (v_workflow v env (v_branch v env sel)) k e ->
           v_main v env [] =
           (Exit 1%Z,
            (log_before_workflow (v_copying v) (v_performing v)
                                 absS files sel (v_destPath v absT sel)
             ++ Chdir absT
             :: map step_event (firstn k (v_workflow v env (v_branch v env sel)))
             ++ [Print (v_git_error v
                        ++ failing_label (v_workflow v env (v_branch v env sel)) k
                        ++ ": " ++ Error e ++ nl)])%list)).
Proof.
  intros v env absS absT files sel Hv Hr.
  pose proof (main_reaches_workflow v _ _ _ _ _ Hv Hr) as HM.
  pose proof (runs_log_before_workflow (v_copying v) (v_performing v)
                absS files sel (v_destPath v absT sel)) as Hruns.
  split.
  - intros err Hcd. rewrite HM. unfold bind at 1.
    rewrite (gitOperations_pipeline v) by exact Hv. rewrite Hcd.
    unfold bind, Printf, emit, os_Exit, Errorf. cbn [Error].
    rewrite <- !app_assoc. reflexivity.
  - intros k e Hcd Hff. rewrite HM. unfold bind at 1.
    rewrite (gitOperations_pipeline v) by exact Hv. rewrite Hcd.
    destruct (pipeline_fail_fast env (v_workflow v env (v_branch v env sel))
                (log_before_workflow (v_copying v) (v_performing v)
                                     absS files sel (v_destPath v absT sel)
                 ++ [Chdir absT])%list k e) as (s & Hs & Hp).
    { rewrite runs_app, Hruns. exact Hff. }
    rewrite Hp. rewrite (first_failure_nth _ _ _ _ _ _ Hff Hs).
    unfold bind, Printf, emit, os_Exit, Errorf. cbn [Error].
    rewrite <- !app_assoc, !string_app_assoc. reflexivity.
Qed.

Lemma main_workflow_failure_push :
  let env := with_runner sample_env (stub_runner 4 (errorString "exit status 128")) in
  Main.main env [] =
  (Exit 1%Z,
   [Start "fzf" ["--height"; "40%"]; Stdin ("notes/idea.md" ++ nl);
    Print ("copying /search/notes/idea.md to /target/idea.md..." ++ nl);
    Open "/search/notes/idea.md"; MkdirAll "/target"; Create "/target/idea.md";
    Copy "/target/idea.md" "/search/notes/idea.md";
    Print ("performing git operations..." ++ nl);
    Chdir "/target";
    Run "git" ["checkout"; "-b"; "idea-24-03-05"];
    Run "git" ["add"; "."];
    Run "git" ["commit"; "-m"; "Add idea-24-03-05"];
    Run "git" ["push"; "--set-upstream"; "origin"; "idea-24-03-05"];
    Print ("error in git operations: failed to push changes: exit status 128"
           ++ nl)]).
Proof.
  intro env.
  destruct (main_workflow_failure main_go env "/search" "/target" ["notes/idea.md"]
                                  "notes/idea.md") as (_ & H).
  - now left.
  - repeat split; try reflexivity. discriminate.
  - cbn [v_main v_workflow v_branch main_go] in H.
    rewrite (H 4%nat (errorString "exit status 128")); [reflexivity|reflexivity|].
    split; [cbn; lia|]. split.
    + intros i s Hi Hn.
      destruct i as [|[|[|i]]]; [| | |lia]; cbn in Hn; injection Hn as <-;
        reflexivity.
    + eexists. split; reflexivity.
Defined.
